(** * Title and volume normalisation of the Calibre batch-metadata plugin

    A shallow embedding of [plugin.py] (numeral conversion, volume
    extraction, base-title inference, volume sorting, rename planning) and
    of the dialog methods of [main.py] that check batch consistency,
    followed by the properties established about them.

    Python values are embedded as follows.
    - [str] is a sequence of Unicode code points, [list N]; literals are
      written [utf8 "..."].
    - [int] is [Z]; list positions and lengths are [nat].
    - [dict] is a [gmap], [set] is a [gset].
    - A call that may raise yields an [outcome]. *)

From Stdlib Require Import ZArith NArith Lia String Ascii Decimal DecimalPos.
From stdpp Require Import base option list sorting gmap.

Set Default Proof Using "Type".

Abbreviation str := (list N).

(** ** Text literals *)

Module Text.

Fixpoint bytes (s : string) : list N :=
  match s with
  | EmptyString => []
  | String a s' => N_of_ascii a :: bytes s'
  end.

(** UTF-8 decoding of the bytes of a source literal into code points. *)
Fixpoint decode (bs : list N) : str :=
  match bs with
  | [] => []
  | b0 :: r =>
      if (b0 <? 128)%N then b0 :: decode r
      else if (b0 <? 224)%N then
        match r with
        | b1 :: r' => ((b0 mod 32) * 64 + b1 mod 64)%N :: decode r'
        | _ => []
        end
      else if (b0 <? 240)%N then
        match r with
        | b1 :: b2 :: r' =>
            ((b0 mod 16) * 4096 + (b1 mod 64) * 64 + b2 mod 64)%N :: decode r'
        | _ => []
        end
      else
        match r with
        | b1 :: b2 :: b3 :: r' =>
            ((b0 mod 8) * 262144 + (b1 mod 64) * 4096
             + (b2 mod 64) * 64 + b3 mod 64)%N :: decode r'
        | _ => []
        end
  end.

Definition utf8 (s : string) : str := decode (bytes s).

End Text.

Export Text.

(** ** Character properties of the Python runtime (Unicode 14.0) *)

Module Unicode.

Definition in_ranges (rs : list (N * N)) (c : N) : bool :=
  existsb (fun r => (fst r <=? c)%N && (c <=? snd r)%N) rs.

(** Code points for which [str.isspace] holds; the class [\s] of [re] is the same set. *)
Definition space_ranges : list (N * N) :=
  [(9, 13); (28, 32); (133, 133); (160, 160); (5760, 5760); (8192, 8202); (8232, 8233);
   (8239, 8239); (8287, 8287); (12288, 12288)]%N.

(** Code points of general category Nd ([str.isdecimal], the class [\d] of [re]). Every range is a whole number of runs of ten consecutive digits 0..9. *)
Definition decimal_ranges : list (N * N) :=
  [(48, 57); (1632, 1641); (1776, 1785); (1984, 1993); (2406, 2415); (2534, 2543);
   (2662, 2671); (2790, 2799); (2918, 2927); (3046, 3055); (3174, 3183); (3302, 3311);
   (3430, 3439); (3558, 3567); (3664, 3673); (3792, 3801); (3872, 3881); (4160, 4169);
   (4240, 4249); (6112, 6121); (6160, 6169); (6470, 6479); (6608, 6617); (6784, 6793);
   (6800, 6809); (6992, 7001); (7088, 7097); (7232, 7241); (7248, 7257); (42528, 42537);
   (43216, 43225); (43264, 43273); (43472, 43481); (43504, 43513); (43600, 43609);
   (44016, 44025); (65296, 65305); (66720, 66729); (68912, 68921); (69734, 69743);
   (69872, 69881); (69942, 69951); (70096, 70105); (70384, 70393); (70736, 70745);
   (70864, 70873); (71248, 71257); (71360, 71369); (71472, 71481); (71904, 71913);
   (72016, 72025); (72784, 72793); (73040, 73049); (73120, 73129); (92768, 92777);
   (92864, 92873); (93008, 93017); (120782, 120831); (123200, 123209); (123632, 123641);
   (125264, 125273); (130032, 130041)]%N.

(** Code points that satisfy [str.isdigit] without being decimal (superscripts, circled digits, ...): [int] rejects them. *)
Definition other_digit_ranges : list (N * N) :=
  [(178, 179); (185, 185); (4969, 4977); (6618, 6618); (8304, 8304); (8308, 8313);
   (8320, 8329); (9312, 9320); (9332, 9340); (9352, 9360); (9450, 9450); (9461, 9469);
   (9471, 9471); (10102, 10110); (10112, 10120); (10122, 10130); (68160, 68163);
   (69216, 69224); (69714, 69722); (127232, 127242)]%N.

(** Code points of the class [\w] of [re]: [str.isalnum] or the underscore. *)
Definition word_ranges : list (N * N) :=
  [(48, 57); (65, 90); (95, 95); (97, 122); (170, 170); (178, 179); (181, 181); (185, 186);
   (188, 190); (192, 214); (216, 246); (248, 705); (710, 721); (736, 740); (748, 748);
   (750, 750); (880, 884); (886, 887); (890, 893); (895, 895); (902, 902); (904, 906);
   (908, 908); (910, 929); (931, 1013); (1015, 1153); (1162, 1327); (1329, 1366); (1369, 1369);
   (1376, 1416); (1488, 1514); (1519, 1522); (1568, 1610); (1632, 1641); (1646, 1647);
   (1649, 1747); (1749, 1749); (1765, 1766); (1774, 1788); (1791, 1791); (1808, 1808);
   (1810, 1839); (1869, 1957); (1969, 1969); (1984, 2026); (2036, 2037); (2042, 2042);
   (2048, 2069); (2074, 2074); (2084, 2084); (2088, 2088); (2112, 2136); (2144, 2154);
   (2160, 2183); (2185, 2190); (2208, 2249); (2308, 2361); (2365, 2365); (2384, 2384);
   (2392, 2401); (2406, 2415); (2417, 2432); (2437, 2444); (2447, 2448); (2451, 2472);
   (2474, 2480); (2482, 2482); (2486, 2489); (2493, 2493); (2510, 2510); (2524, 2525);
   (2527, 2529); (2534, 2545); (2548, 2553); (2556, 2556); (2565, 2570); (2575, 2576);
   (2579, 2600); (2602, 2608); (2610, 2611); (2613, 2614); (2616, 2617); (2649, 2652);
   (2654, 2654); (2662, 2671); (2674, 2676); (2693, 2701); (2703, 2705); (2707, 2728);
   (2730, 2736); (2738, 2739); (2741, 2745); (2749, 2749); (2768, 2768); (2784, 2785);
   (2790, 2799); (2809, 2809); (2821, 2828); (2831, 2832); (2835, 2856); (2858, 2864);
   (2866, 2867); (2869, 2873); (2877, 2877); (2908, 2909); (2911, 2913); (2918, 2927);
   (2929, 2935); (2947, 2947); (2949, 2954); (2958, 2960); (2962, 2965); (2969, 2970);
   (2972, 2972); (2974, 2975); (2979, 2980); (2984, 2986); (2990, 3001); (3024, 3024);
   (3046, 3058); (3077, 3084); (3086, 3088); (3090, 3112); (3114, 3129); (3133, 3133);
   (3160, 3162); (3165, 3165); (3168, 3169); (3174, 3183); (3192, 3198); (3200, 3200);
   (3205, 3212); (3214, 3216); (3218, 3240); (3242, 3251); (3253, 3257); (3261, 3261);
   (3293, 3294); (3296, 3297); (3302, 3311); (3313, 3314); (3332, 3340); (3342, 3344);
   (3346, 3386); (3389, 3389); (3406, 3406); (3412, 3414); (3416, 3425); (3430, 3448);
   (3450, 3455); (3461, 3478); (3482, 3505); (3507, 3515); (3517, 3517); (3520, 3526);
   (3558, 3567); (3585, 3632); (3634, 3635); (3648, 3654); (3664, 3673); (3713, 3714);
   (3716, 3716); (3718, 3722); (3724, 3747); (3749, 3749); (3751, 3760); (3762, 3763);
   (3773, 3773); (3776, 3780); (3782, 3782); (3792, 3801); (3804, 3807); (3840, 3840);
   (3872, 3891); (3904, 3911); (3913, 3948); (3976, 3980); (4096, 4138); (4159, 4169);
   (4176, 4181); (4186, 4189); (4193, 4193); (4197, 4198); (4206, 4208); (4213, 4225);
   (4238, 4238); (4240, 4249); (4256, 4293); (4295, 4295); (4301, 4301); (4304, 4346);
   (4348, 4680); (4682, 4685); (4688, 4694); (4696, 4696); (4698, 4701); (4704, 4744);
   (4746, 4749); (4752, 4784); (4786, 4789); (4792, 4798); (4800, 4800); (4802, 4805);
   (4808, 4822); (4824, 4880); (4882, 4885); (4888, 4954); (4969, 4988); (4992, 5007);
   (5024, 5109); (5112, 5117); (5121, 5740); (5743, 5759); (5761, 5786); (5792, 5866);
   (5870, 5880); (5888, 5905); (5919, 5937); (5952, 5969); (5984, 5996); (5998, 6000);
   (6016, 6067); (6103, 6103); (6108, 6108); (6112, 6121); (6128, 6137); (6160, 6169);
   (6176, 6264); (6272, 6276); (6279, 6312); (6314, 6314); (6320, 6389); (6400, 6430);
   (6470, 6509); (6512, 6516); (6528, 6571); (6576, 6601); (6608, 6618); (6656, 6678);
   (6688, 6740); (6784, 6793); (6800, 6809); (6823, 6823); (6917, 6963); (6981, 6988);
   (6992, 7001); (7043, 7072); (7086, 7141); (7168, 7203); (7232, 7241); (7245, 7293);
   (7296, 7304); (7312, 7354); (7357, 7359); (7401, 7404); (7406, 7411); (7413, 7414);
   (7418, 7418); (7424, 7615); (7680, 7957); (7960, 7965); (7968, 8005); (8008, 8013);
   (8016, 8023); (8025, 8025); (8027, 8027); (8029, 8029); (8031, 8061); (8064, 8116);
   (8118, 8124); (8126, 8126); (8130, 8132); (8134, 8140); (8144, 8147); (8150, 8155);
   (8160, 8172); (8178, 8180); (8182, 8188); (8304, 8305); (8308, 8313); (8319, 8329);
   (8336, 8348); (8450, 8450); (8455, 8455); (8458, 8467); (8469, 8469); (8473, 8477);
   (8484, 8484); (8486, 8486); (8488, 8488); (8490, 8493); (8495, 8505); (8508, 8511);
   (8517, 8521); (8526, 8526); (8528, 8585); (9312, 9371); (9450, 9471); (10102, 10131);
   (11264, 11492); (11499, 11502); (11506, 11507); (11517, 11517); (11520, 11557);
   (11559, 11559); (11565, 11565); (11568, 11623); (11631, 11631); (11648, 11670);
   (11680, 11686); (11688, 11694); (11696, 11702); (11704, 11710); (11712, 11718);
   (11720, 11726); (11728, 11734); (11736, 11742); (11823, 11823); (12293, 12295);
   (12321, 12329); (12337, 12341); (12344, 12348); (12353, 12438); (12445, 12447);
   (12449, 12538); (12540, 12543); (12549, 12591); (12593, 12686); (12690, 12693);
   (12704, 12735); (12784, 12799); (12832, 12841); (12872, 12879); (12881, 12895);
   (12928, 12937); (12977, 12991); (13312, 19903); (19968, 42124); (42192, 42237);
   (42240, 42508); (42512, 42539); (42560, 42606); (42623, 42653); (42656, 42735);
   (42775, 42783); (42786, 42888); (42891, 42954); (42960, 42961); (42963, 42963);
   (42965, 42969); (42994, 43009); (43011, 43013); (43015, 43018); (43020, 43042);
   (43056, 43061); (43072, 43123); (43138, 43187); (43216, 43225); (43250, 43255);
   (43259, 43259); (43261, 43262); (43264, 43301); (43312, 43334); (43360, 43388);
   (43396, 43442); (43471, 43481); (43488, 43492); (43494, 43518); (43520, 43560);
   (43584, 43586); (43588, 43595); (43600, 43609); (43616, 43638); (43642, 43642);
   (43646, 43695); (43697, 43697); (43701, 43702); (43705, 43709); (43712, 43712);
   (43714, 43714); (43739, 43741); (43744, 43754); (43762, 43764); (43777, 43782);
   (43785, 43790); (43793, 43798); (43808, 43814); (43816, 43822); (43824, 43866);
   (43868, 43881); (43888, 44002); (44016, 44025); (44032, 55203); (55216, 55238);
   (55243, 55291); (63744, 64109); (64112, 64217); (64256, 64262); (64275, 64279);
   (64285, 64285); (64287, 64296); (64298, 64310); (64312, 64316); (64318, 64318);
   (64320, 64321); (64323, 64324); (64326, 64433); (64467, 64829); (64848, 64911);
   (64914, 64967); (65008, 65019); (65136, 65140); (65142, 65276); (65296, 65305);
   (65313, 65338); (65345, 65370); (65382, 65470); (65474, 65479); (65482, 65487);
   (65490, 65495); (65498, 65500); (65536, 65547); (65549, 65574); (65576, 65594);
   (65596, 65597); (65599, 65613); (65616, 65629); (65664, 65786); (65799, 65843);
   (65856, 65912); (65930, 65931); (66176, 66204); (66208, 66256); (66273, 66299);
   (66304, 66339); (66349, 66378); (66384, 66421); (66432, 66461); (66464, 66499);
   (66504, 66511); (66513, 66517); (66560, 66717); (66720, 66729); (66736, 66771);
   (66776, 66811); (66816, 66855); (66864, 66915); (66928, 66938); (66940, 66954);
   (66956, 66962); (66964, 66965); (66967, 66977); (66979, 66993); (66995, 67001);
   (67003, 67004); (67072, 67382); (67392, 67413); (67424, 67431); (67456, 67461);
   (67463, 67504); (67506, 67514); (67584, 67589); (67592, 67592); (67594, 67637);
   (67639, 67640); (67644, 67644); (67647, 67669); (67672, 67702); (67705, 67742);
   (67751, 67759); (67808, 67826); (67828, 67829); (67835, 67867); (67872, 67897);
   (67968, 68023); (68028, 68047); (68050, 68096); (68112, 68115); (68117, 68119);
   (68121, 68149); (68160, 68168); (68192, 68222); (68224, 68255); (68288, 68295);
   (68297, 68324); (68331, 68335); (68352, 68405); (68416, 68437); (68440, 68466);
   (68472, 68497); (68521, 68527); (68608, 68680); (68736, 68786); (68800, 68850);
   (68858, 68899); (68912, 68921); (69216, 69246); (69248, 69289); (69296, 69297);
   (69376, 69415); (69424, 69445); (69457, 69460); (69488, 69505); (69552, 69579);
   (69600, 69622); (69635, 69687); (69714, 69743); (69745, 69746); (69749, 69749);
   (69763, 69807); (69840, 69864); (69872, 69881); (69891, 69926); (69942, 69951);
   (69956, 69956); (69959, 69959); (69968, 70002); (70006, 70006); (70019, 70066);
   (70081, 70084); (70096, 70106); (70108, 70108); (70113, 70132); (70144, 70161);
   (70163, 70187); (70272, 70278); (70280, 70280); (70282, 70285); (70287, 70301);
   (70303, 70312); (70320, 70366); (70384, 70393); (70405, 70412); (70415, 70416);
   (70419, 70440); (70442, 70448); (70450, 70451); (70453, 70457); (70461, 70461);
   (70480, 70480); (70493, 70497); (70656, 70708); (70727, 70730); (70736, 70745);
   (70751, 70753); (70784, 70831); (70852, 70853); (70855, 70855); (70864, 70873);
   (71040, 71086); (71128, 71131); (71168, 71215); (71236, 71236); (71248, 71257);
   (71296, 71338); (71352, 71352); (71360, 71369); (71424, 71450); (71472, 71483);
   (71488, 71494); (71680, 71723); (71840, 71922); (71935, 71942); (71945, 71945);
   (71948, 71955); (71957, 71958); (71960, 71983); (71999, 71999); (72001, 72001);
   (72016, 72025); (72096, 72103); (72106, 72144); (72161, 72161); (72163, 72163);
   (72192, 72192); (72203, 72242); (72250, 72250); (72272, 72272); (72284, 72329);
   (72349, 72349); (72368, 72440); (72704, 72712); (72714, 72750); (72768, 72768);
   (72784, 72812); (72818, 72847); (72960, 72966); (72968, 72969); (72971, 73008);
   (73030, 73030); (73040, 73049); (73056, 73061); (73063, 73064); (73066, 73097);
   (73112, 73112); (73120, 73129); (73440, 73458); (73648, 73648); (73664, 73684);
   (73728, 74649); (74752, 74862); (74880, 75075); (77712, 77808); (77824, 78894);
   (82944, 83526); (92160, 92728); (92736, 92766); (92768, 92777); (92784, 92862);
   (92864, 92873); (92880, 92909); (92928, 92975); (92992, 92995); (93008, 93017);
   (93019, 93025); (93027, 93047); (93053, 93071); (93760, 93846); (93952, 94026);
   (94032, 94032); (94099, 94111); (94176, 94177); (94179, 94179); (94208, 100343);
   (100352, 101589); (101632, 101640); (110576, 110579); (110581, 110587); (110589, 110590);
   (110592, 110882); (110928, 110930); (110948, 110951); (110960, 111355); (113664, 113770);
   (113776, 113788); (113792, 113800); (113808, 113817); (119520, 119539); (119648, 119672);
   (119808, 119892); (119894, 119964); (119966, 119967); (119970, 119970); (119973, 119974);
   (119977, 119980); (119982, 119993); (119995, 119995); (119997, 120003); (120005, 120069);
   (120071, 120074); (120077, 120084); (120086, 120092); (120094, 120121); (120123, 120126);
   (120128, 120132); (120134, 120134); (120138, 120144); (120146, 120485); (120488, 120512);
   (120514, 120538); (120540, 120570); (120572, 120596); (120598, 120628); (120630, 120654);
   (120656, 120686); (120688, 120712); (120714, 120744); (120746, 120770); (120772, 120779);
   (120782, 120831); (122624, 122654); (123136, 123180); (123191, 123197); (123200, 123209);
   (123214, 123214); (123536, 123565); (123584, 123627); (123632, 123641); (124896, 124902);
   (124904, 124907); (124909, 124910); (124912, 124926); (124928, 125124); (125127, 125135);
   (125184, 125251); (125259, 125259); (125264, 125273); (126065, 126123); (126125, 126127);
   (126129, 126132); (126209, 126253); (126255, 126269); (126464, 126467); (126469, 126495);
   (126497, 126498); (126500, 126500); (126503, 126503); (126505, 126514); (126516, 126519);
   (126521, 126521); (126523, 126523); (126530, 126530); (126535, 126535); (126537, 126537);
   (126539, 126539); (126541, 126543); (126545, 126546); (126548, 126548); (126551, 126551);
   (126553, 126553); (126555, 126555); (126557, 126557); (126559, 126559); (126561, 126562);
   (126564, 126564); (126567, 126570); (126572, 126578); (126580, 126583); (126585, 126588);
   (126590, 126590); (126592, 126601); (126603, 126619); (126625, 126627); (126629, 126633);
   (126635, 126651); (127232, 127244); (130032, 130041); (131072, 173791); (173824, 177976);
   (177984, 178205); (178208, 183969); (183984, 191456); (194560, 195101); (196608, 201546)]%N.

Definition isspace (c : N) : bool := in_ranges space_ranges c.
Definition isdecimal (c : N) : bool := in_ranges decimal_ranges c.
Definition isdigit_cp (c : N) : bool :=
  isdecimal c || in_ranges other_digit_ranges c.
Definition isword (c : N) : bool := in_ranges word_ranges c.

(** Decimal value of a code point of category Nd. *)
Definition decimal_value (c : N) : option Z :=
  match List.find (fun r => (fst r <=? c)%N && (c <=? snd r)%N) decimal_ranges with
  | Some r => Some (Z.of_N ((c - fst r) mod 10))
  | None => None
  end.

(** [str.upper], one code point at a time.  The module only asks whether
    the upper-cased text consists of the letters I V X L C D M; the ASCII
    letters and the dotless i (U+0131) are the code points whose upper
    case is such a letter, every other code point is kept as it is. *)
Definition upper_cp (c : N) : N :=
  if (97 <=? c)%N && (c <=? 122)%N then (c - 32)%N
  else if (c =? 305)%N then 73%N
  else c.

Definition upper (s : str) : str := upper_cp <$> s.

(** Case folding of [re.IGNORECASE]: both sides are lower-cased, and the
    dotted capital I (U+0130) and the dotless i (U+0131) are matched with
    [i].  Of the characters written in this module's patterns only Latin
    letters are cased. *)
Definition fold_case (c : N) : N :=
  if (65 <=? c)%N && (c <=? 90)%N then (c + 32)%N
  else if (c =? 304)%N || (c =? 305)%N then 105%N
  else c.

End Unicode.

Import Unicode.

(** ** Built-in string operations *)

Definition rstrip_by (p : N -> bool) (s : str) : str :=
  foldr (fun c acc => if decide (acc = []) then (if p c then [] else [c]) else c :: acc) [] s.

Fixpoint lstrip_by (p : N -> bool) (s : str) : str :=
  match s with
  | c :: s' => if p c then lstrip_by p s' else s
  | [] => []
  end.

(** [s.strip()] and [s.rstrip()] without argument remove white space. *)
Definition strip (s : str) : str := rstrip_by isspace (lstrip_by isspace s).
Definition rstrip (s : str) : str := rstrip_by isspace s.

(** [s.rstrip(chars)] removes trailing characters that occur in [chars]. *)
Definition rstrip_chars (chars s : str) : str :=
  rstrip_by (fun c => bool_decide (c ∈ chars)) s.

(** [s.isdigit()]: non-empty, and every character is a digit. *)
Definition isdigit (s : str) : bool :=
  negb (bool_decide (s = [])) && forallb isdigit_cp s.

(** ** Exceptions *)

Inductive outcome (A : Type) : Type :=
| Val (a : A)
| Exn.
Arguments Val {A} a.
Arguments Exn {A}.

Global Instance outcome_ret : MRet outcome := @Val.
Global Instance outcome_bind : MBind outcome := fun A B k m =>
  match m with
  | Val a => k a
  | Exn => Exn
  end.

(** The value of a text of decimal digits, read from the left, or
    [ValueError] when a character is not of category Nd. *)
Fixpoint int_digits (acc : Z) (s : str) : outcome Z :=
  match s with
  | [] => Val acc
  | c :: s' =>
      match decimal_value c with
      | Some d => int_digits (acc * 10 + d)%Z s'
      | None => Exn
      end
  end.

(** [sys.int_info.default_max_str_digits]: the interpreter converts no
    text of more digits to an integer, and no integer of more digits to a
    text. *)
Definition max_str_digits : Z := 4300.

(** [int(s)] on a text for which [isdigit] holds: [ValueError] when the
    text has more than [max_str_digits] digits or one of them is not of
    category Nd, else the decimal value. *)
Definition py_int (s : str) : outcome Z :=
  if (max_str_digits <? Z.of_nat (length s))%Z then Exn else int_digits 0%Z s.

(** The text of a sequence of decimal digits. *)
Fixpoint uint_str (u : Decimal.uint) : str :=
  match u with
  | Decimal.Nil => []
  | Decimal.D0 u' => 48%N :: uint_str u'
  | Decimal.D1 u' => 49%N :: uint_str u'
  | Decimal.D2 u' => 50%N :: uint_str u'
  | Decimal.D3 u' => 51%N :: uint_str u'
  | Decimal.D4 u' => 52%N :: uint_str u'
  | Decimal.D5 u' => 53%N :: uint_str u'
  | Decimal.D6 u' => 54%N :: uint_str u'
  | Decimal.D7 u' => 55%N :: uint_str u'
  | Decimal.D8 u' => 56%N :: uint_str u'
  | Decimal.D9 u' => 57%N :: uint_str u'
  end.

(** [str(n)].  The interpreter converts an integer of at most
    [max_str_digits] digits, that is one below [10 ^ max_str_digits] in
    absolute value, and raises [ValueError] on any other.  [py_str] is the
    text of the former.  It is applied to two kinds of numbers: the index
    of an entry of a list, which is below [10 ^ max_str_digits] because no
    list is that long, and a number that a statement bounds by
    [10 ^ max_str_digits].  The same holds of [format_zero_padded]. *)
Definition py_str (n : Z) : str :=
  match Z.to_int n with
  | Decimal.Pos u => uint_str u
  | Decimal.Neg u => 45%N :: uint_str u
  end.

(** [f"{i:0{digits}d}"]: the decimal text of [i], padded with zeros on the
    left to [digits] characters (after the sign, if any). *)
Definition format_zero_padded (i digits : Z) : str :=
  match Z.to_int i with
  | Decimal.Pos u =>
      replicate (Z.to_nat digits - length (uint_str u)) 48%N ++ uint_str u
  | Decimal.Neg u =>
      45%N :: replicate (Z.to_nat digits - 1 - length (uint_str u)) 48%N ++ uint_str u
  end.

(** ** Numeral conversion *)

(** [CHINESE_NUMBERS]: the module-level table, keyed by text. *)
Definition CHINESE_NUMBERS : gmap str Z :=
  list_to_map
    [ (utf8 "零", 0); (utf8 "〇", 0); (utf8 "一", 1); (utf8 "壹", 1);
      (utf8 "二", 2); (utf8 "贰", 2); (utf8 "兩", 2); (utf8 "两", 2);
      (utf8 "三", 3); (utf8 "叁", 3); (utf8 "四", 4); (utf8 "肆", 4);
      (utf8 "五", 5); (utf8 "伍", 5);
      (utf8 "六", 6); (utf8 "陆", 6); (utf8 "七", 7); (utf8 "柒", 7);
      (utf8 "八", 8); (utf8 "捌", 8);
      (utf8 "九", 9); (utf8 "玖", 9); (utf8 "十", 10); (utf8 "拾", 10);
      (utf8 "十一", 11); (utf8 "十二", 12); (utf8 "十三", 13);
      (utf8 "十四", 14); (utf8 "十五", 15);
      (utf8 "十六", 16); (utf8 "十七", 17); (utf8 "十八", 18); (utf8 "十九", 19);
      (utf8 "二十", 20); (utf8 "廿", 20); (utf8 "卅", 30); (utf8 "卌", 40);
      (utf8 "百", 100); (utf8 "佰", 100); (utf8 "千", 1000); (utf8 "仟", 1000);
      (utf8 "万", 10000); (utf8 "萬", 10000) ]%Z.

(** [VOLUME_KEYWORDS]; the patterns below spell the same ten characters. *)
Definition VOLUME_KEYWORDS : str := utf8 "卷冊册部篇集季期话回".

(** The local variables of the loop of [chinese_to_int]. *)
Record cn_vars := CnVars { cn_result : Z; cn_temp : Z; cn_last_unit : Z }.

Fixpoint chinese_to_int_loop (chars : str) (v : cn_vars) : cn_vars :=
  match chars with
  | [] => v
  | char :: rest =>
      match CHINESE_NUMBERS !! [char] with
      | Some num =>
          if (10 <=? num)%Z then
            let temp := if (cn_temp v =? 0)%Z then 1%Z else cn_temp v in
            chinese_to_int_loop rest
              (CnVars (cn_result v + temp * num) 0 num)
          else
            chinese_to_int_loop rest (CnVars (cn_result v) num (cn_last_unit v))
      | None => v
      end
  end.

Definition chinese_to_int (chinese_num : str) : Z :=
  if bool_decide (chinese_num = []) then 0%Z
  else
    let v := chinese_to_int_loop chinese_num (CnVars 0 0 1) in
    let result := (cn_result v + cn_temp v)%Z in
    match CHINESE_NUMBERS !! chinese_num with
    | Some n => n
    | None => result
    end.

Definition roman_dict : gmap N Z :=
  list_to_map [ (73%N, 1); (86%N, 5); (88%N, 10); (76%N, 50);
                (67%N, 100); (68%N, 500); (77%N, 1000) ]%Z.

(** The loop of [roman_to_int] over the reversed text; the state is
    [(result, prev_value)]. *)
Definition roman_step (st : Z * Z) (char : N) : Z * Z :=
  let value := default 0%Z (roman_dict !! char) in
  if (value <? snd st)%Z then (fst st - value, value)%Z
  else (fst st + value, value)%Z.

Definition roman_to_int (roman : str) : Z :=
  fst (foldl roman_step (0, 0)%Z (reverse (upper roman))).

Definition chinese_digits : list str :=
  [ utf8 "零"; utf8 "一"; utf8 "二"; utf8 "三"; utf8 "四";
    utf8 "五"; utf8 "六"; utf8 "七"; utf8 "八"; utf8 "九" ].

(** [chinese_digits[k]]; the callers keep [k] between 0 and 9. *)
Definition chinese_digit (k : Z) : str :=
  default [] (chinese_digits !! Z.to_nat k).

Definition int_to_chinese (num : Z) : str :=
  if (num <=? 0)%Z then utf8 "零"
  else if (num <? 10)%Z then chinese_digit num
  else if (num <? 20)%Z then
    if (num =? 10)%Z then utf8 "十"
    else utf8 "十" ++ chinese_digit (num `mod` 10)
  else if (num <? 100)%Z then
    let tens := (num `div` 10)%Z in
    let units := (num `mod` 10)%Z in
    if (units =? 0)%Z then chinese_digit tens ++ utf8 "十"
    else chinese_digit tens ++ utf8 "十" ++ chinese_digit units
  else py_str num.

(** [format_volume]; the rename planner below does not call it. *)
Definition format_volume (volume : Z) (format_type : str) : str :=
  if bool_decide (format_type = utf8 "number") then
    if (volume <? 10)%Z then utf8 "0" ++ py_str volume else py_str volume
  else if bool_decide (format_type = utf8 "chinese") then
    utf8 "第" ++ int_to_chinese volume ++ utf8 "卷"
  else py_str volume.

(** ** Regular expressions

    The patterns of the module are sequences of single-character items:
    a character class, optionally quantified by [?], [+] (greedy) or [*?]
    (lazy), and the anchor [$].  Matching follows the backtracking order of
    [re]: a greedy item tries the longest run first, a lazy item the
    shortest, and [re.search] returns the match at the leftmost start. *)

Module Re.

Inductive category := CatDigit | CatSpace | CatWord.

Definition in_category (k : category) (c : N) : bool :=
  match k with
  | CatDigit => isdecimal c
  | CatSpace => isspace c
  | CatWord => isword c
  end.

(** A class [[...]]: literal characters, ranges, escapes such as [\d], and
    whether it is complemented ([[^...]]). *)
Record charset := Charset {
  cs_chars : str;
  cs_ranges : list (N * N);
  cs_cats : list category;
  cs_negated : bool
}.

Definition in_charset (ignorecase : bool) (cs : charset) (c : N) : bool :=
  let lit :=
    if ignorecase
    then existsb (fun x => (fold_case x =? fold_case c)%N) (cs_chars cs)
    else bool_decide (c ∈ cs_chars cs) in
  xorb (cs_negated cs)
       (lit || in_ranges (cs_ranges cs) c
            || existsb (fun k => in_category k c) (cs_cats cs)).

Inductive item :=
| One (cs : charset)
| Opt (cs : charset)
| Plus (cs : charset) (group : bool)
| LazyStar (cs : charset) (group : bool)
| Eos.

Definition pattern := list item.

(** [$] without [re.MULTILINE]: at the end of the text, or just before a
    line feed that ends the text. *)
Definition at_end (s : str) : bool :=
  bool_decide (s = []) || bool_decide (s = [10%N]).

Section Match.
Variable ignorecase : bool.

(** [cs+], greedy: [taken] is the run consumed so far, [k] matches the
    rest of the pattern. *)
Fixpoint greedy_plus (cs : charset) (k : str -> str -> option (list str))
    (s taken : str) : option (list str) :=
  match s with
  | c :: s' =>
      if in_charset ignorecase cs c then
        match greedy_plus cs k s' (taken ++ [c]) with
        | Some r => Some r
        | None => k (taken ++ [c]) s'
        end
      else None
  | [] => None
  end.

(** [cs*?], lazy. *)
Fixpoint lazy_star (cs : charset) (k : str -> str -> option (list str))
    (s taken : str) : option (list str) :=
  match k taken s with
  | Some r => Some r
  | None =>
      match s with
      | c :: s' =>
          if in_charset ignorecase cs c then lazy_star cs k s' (taken ++ [c])
          else None
      | [] => None
      end
  end.

(** Match [p] at the head of [s]; the result lists the captured groups
    in the order of their opening parentheses. *)
Fixpoint match_here (p : pattern) (s : str) (groups : list str)
    : option (list str) :=
  match p with
  | [] => Some groups
  | One cs :: p' =>
      match s with
      | c :: s' =>
          if in_charset ignorecase cs c then match_here p' s' groups else None
      | [] => None
      end
  | Opt cs :: p' =>
      let with_it :=
        match s with
        | c :: s' =>
            if in_charset ignorecase cs c then match_here p' s' groups else None
        | [] => None
        end in
      match with_it with
      | Some r => Some r
      | None => match_here p' s groups
      end
  | Plus cs g :: p' =>
      greedy_plus cs
        (fun taken rest =>
           match_here p' rest (if g then groups ++ [taken] else groups))
        s []
  | LazyStar cs g :: p' =>
      lazy_star cs
        (fun taken rest =>
           match_here p' rest (if g then groups ++ [taken] else groups))
        s []
  | Eos :: p' => if at_end s then match_here p' s groups else None
  end.

(** The match object, as far as the module reads it: [start()] and the
    groups. *)
Record match_obj := Match { m_start : nat; m_groups : list str }.

Fixpoint search_from (p : pattern) (s : str) (pos : nat) : option match_obj :=
  match match_here p s [] with
  | Some gs => Some (Match pos gs)
  | None =>
      match s with
      | [] => None
      | _ :: s' => search_from p s' (S pos)
      end
  end.

Definition search (p : pattern) (s : str) : option match_obj :=
  search_from p s 0.

End Match.

(** [m.group(n)] for [n >= 1]. *)
Definition group (n : nat) (m : match_obj) : str :=
  default [] (m_groups m !! (n - 1)%nat).

(** [re.split(cs+, s)]: the pieces of [s] between the maximal runs of
    characters of [cs]. *)
Fixpoint split_runs (cs : charset) (s cur : str) (in_run : bool) : list str :=
  match s with
  | [] => [cur]
  | c :: s' =>
      if in_charset false cs c then
        if in_run then split_runs cs s' [] true
        else cur :: split_runs cs s' [] true
      else split_runs cs s' (cur ++ [c]) false
  end.

Definition split (cs : charset) (s : str) : list str := split_runs cs s [] false.

Definition chars (s : str) : charset := Charset s [] [] false.
Definition lit (s : string) : pattern := (fun c => One (chars [c])) <$> utf8 s.
Definition dot : charset := Charset [10%N] [] [] true.

End Re.

(** ** Volume extraction *)

Definition roman_letters : str := utf8 "IVXLCDM".

Definition numeral_chars : str :=
  utf8 "零一二三四五六七八九十百千万壹贰叁肆伍陆柒捌玖拾佰仟萬".

(** [[零一...萬\dIVXLCDM]] and [[零一...萬\d]]. *)
Definition cs_numeral_roman : Re.charset :=
  Re.Charset (numeral_chars ++ roman_letters) [] [Re.CatDigit] false.
Definition cs_numeral : Re.charset :=
  Re.Charset numeral_chars [] [Re.CatDigit] false.
Definition cs_keyword : Re.charset := Re.chars (utf8 "卷冊册部篇集季期话回").

(** [^[IVXLCDM]+$], applied with [re.match]. *)
Definition roman_pattern : Re.pattern :=
  [Re.Plus (Re.chars roman_letters) true; Re.Eos].

Definition parse_volume_number (volume_str : str) : outcome (option Z) :=
  if bool_decide (volume_str = []) then Val None
  else
    let volume_str := strip volume_str in
    if isdigit volume_str then
      n ← py_int volume_str; Val (Some n)
    else
      match Re.match_here false roman_pattern (upper volume_str) [] with
      | Some gs => Val (Some (roman_to_int (default [] (gs !! 0%nat))))
      | None => Val (Some (chinese_to_int volume_str))
      end.

Definition pattern1 : Re.pattern :=
  Re.lit "第" ++ [Re.Plus cs_numeral_roman true; Re.One cs_keyword;
                  Re.LazyStar Re.dot true; Re.Eos].

Definition patterns : list Re.pattern :=
  [ [Re.Plus (Re.Charset (utf8 "-_") [] [Re.CatSpace] false) false;
     Re.Plus cs_numeral_roman true; Re.Opt cs_keyword; Re.Eos];
    [Re.One (Re.chars (utf8 "（(")); Re.Plus cs_numeral_roman true;
     Re.Opt cs_keyword; Re.One (Re.chars (utf8 "）)")); Re.Eos];
    [Re.One (Re.chars (utf8 "【〔")); Re.Plus cs_numeral_roman true;
     Re.Opt cs_keyword; Re.One (Re.chars (utf8 "】〕")); Re.Eos];
    Re.lit "v" ++ [Re.Plus cs_numeral true; Re.Eos];
    Re.lit "第" ++ [Re.Plus cs_numeral true] ++ Re.lit "部分" ++ [Re.Eos] ].

Definition digits_pattern : Re.pattern :=
  [Re.Plus (Re.Charset [] [] [Re.CatDigit] false) true; Re.Eos].

(** [title[:match.start()].rstrip(' -_·・')]. *)
Definition title_before (title : str) (m : Re.match_obj) : str :=
  rstrip_chars (utf8 " -_·・") (take (Re.m_start m) title).

(** The loop over [patterns] of [extract_volume_with_context]; [None] when
    the loop ends without returning. *)
Fixpoint extract_by_patterns (ps : list Re.pattern) (title : str)
    : outcome (option (str * option Z)) :=
  match ps with
  | [] => Val None
  | pattern :: ps' =>
      match Re.search true pattern title with
      | Some m =>
          volume ← parse_volume_number (Re.group 1 m);
          match volume with
          | Some v => Val (Some (title_before title m, Some v))
          | None => extract_by_patterns ps' title
          end
      | None => extract_by_patterns ps' title
      end
  end.

(** The tail of [extract_volume_with_context], from the loop on. *)
Definition extract_fallback (title : str) : outcome (str * option Z) :=
  r ← extract_by_patterns patterns title;
  match r with
  | Some res => Val res
  | None =>
      match Re.search false digits_pattern title with
      | Some m =>
          if (length (Re.group 1 m) <=? 4)%nat then
            volume ← py_int (Re.group 1 m);
            Val (title_before title m, Some volume)
          else Val (title, None)
      | None => Val (title, None)
      end
  end.

Definition extract_volume_with_context (title : str) : outcome (str * option Z) :=
  let original_title := title in
  match Re.search false pattern1 title with
  | Some m =>
      volume ← parse_volume_number (Re.group 1 m);
      match volume with
      | Some v => Val (title_before title m, Some v)
      | None => extract_fallback title
      end
  | None => extract_fallback title
  end.

(** ** Base-title inference *)

Definition word_boundaries : gset N := list_to_set (utf8 " -_·~～:：·・").

(** The loop of [trim_to_word_boundary]: [k] is one more than the index
    examined next, so the indexes [k-1], ..., [0] remain. *)
Fixpoint trim_scan (text : str) (k : nat) : str :=
  match k with
  | O => text
  | S i =>
      match text !! i with
      | Some c =>
          if bool_decide (c ∈ word_boundaries) then rstrip (take i text)
          else trim_scan text i
      | None => trim_scan text i
      end
  end.

Definition trim_to_word_boundary (text : str) : str :=
  trim_scan text (length text).

(** Comparison of texts, code point by code point. *)
Fixpoint str_ltb (a b : str) : bool :=
  match a, b with
  | [], [] => false
  | [], _ :: _ => true
  | _ :: _, [] => false
  | x :: a', y :: b' =>
      if (x <? y)%N then true
      else if (y <? x)%N then false
      else str_ltb a' b'
  end.

Definition py_min (h : str) (t : list str) : str :=
  foldl (fun acc x => if str_ltb x acc then x else acc) h t.
Definition py_max (h : str) (t : list str) : str :=
  foldl (fun acc x => if str_ltb acc x then x else acc) h t.

Fixpoint common_head (s1 s2 : str) : str :=
  match s1, s2 with
  | c :: s1', d :: s2' => if (c =? d)%N then c :: common_head s1' s2' else []
  | _, _ => []
  end.

(** [os.path.commonprefix]: the common head of the least and the greatest
    text of the list. *)
Definition commonprefix (m : list str) : str :=
  match m with
  | [] => []
  | h :: t => common_head (py_min h t) (py_max h t)
  end.

(** *** Longest common subsequence *)

Definition dp_get (dp : list (list Z)) (i j : nat) : Z :=
  default 0%Z (row ← dp !! i; row !! j).

Definition dp_set (dp : list (list Z)) (i j : nat) (v : Z) : list (list Z) :=
  alter (fun row => <[j := v]> row) i dp.

Definition fill_cell (s1 s2 : str) (i : nat) (dp : list (list Z)) (j : nat)
    : list (list Z) :=
  if bool_decide (s1 !! (i - 1)%nat = s2 !! (j - 1)%nat) then
    dp_set dp i j (dp_get dp (i - 1) (j - 1) + 1)%Z
  else
    dp_set dp i j (Z.max (dp_get dp (i - 1) j) (dp_get dp i (j - 1))).

Definition lcs_table (s1 s2 : str) : list (list Z) :=
  let m := length s1 in
  let n := length s2 in
  foldl (fun dp i => foldl (fill_cell s1 s2 i) dp (seq 1 n))
        (replicate (S m) (replicate (S n) 0%Z))
        (seq 1 m).

(** The state of the backtracking loop: [i], [j] and [lcs_chars]. *)
Record bt_state := BtState { bt_i : nat; bt_j : nat; bt_chars : str }.

(** One iteration of the [while] loop; [None] when the loop has ended. *)
Definition backtrack_step (s1 s2 : str) (dp : list (list Z)) (st : bt_state)
    : option bt_state :=
  let i := bt_i st in
  let j := bt_j st in
  if (0 <? i)%nat && (0 <? j)%nat then
    match s1 !! (i - 1)%nat, s2 !! (j - 1)%nat with
    | Some a, Some b =>
        if (a =? b)%N then
          Some (BtState (i - 1) (j - 1) (bt_chars st ++ [a]))
        else if (dp_get dp i (j - 1) <? dp_get dp (i - 1) j)%Z then
          Some (BtState (i - 1) j (bt_chars st))
        else
          Some (BtState i (j - 1) (bt_chars st))
    | _, _ => None
    end
  else None.

Fixpoint backtrack (fuel : nat) (s1 s2 : str) (dp : list (list Z)) (st : bt_state)
    : bt_state :=
  match fuel with
  | O => st
  | S fuel' =>
      match backtrack_step s1 s2 dp st with
      | Some st' => backtrack fuel' s1 s2 dp st'
      | None => st
      end
  end.

Definition longest_common_subsequence (s1 s2 : str) : str :=
  let m := length s1 in
  let n := length s2 in
  let dp := lcs_table s1 s2 in
  reverse (bt_chars (backtrack (m + n) s1 s2 dp (BtState m n []))).

Fixpoint fold_lcs (lcs : str) (titles : list str) : option str :=
  match titles with
  | [] => Some lcs
  | title :: rest =>
      let lcs := longest_common_subsequence lcs title in
      if bool_decide (lcs = []) then None else fold_lcs lcs rest
  end.

Definition find_longest_common_subsequence (titles : list str) : option str :=
  match titles with
  | [] => None
  | base :: rest =>
      lcs ← fold_lcs base rest;
      if (5 <=? length lcs)%nat then Some lcs else None
  end.

(** *** Stable sorting by key

    [list.sort(key=...)] and [sorted(..., key=...)] are stable.  [sort_by le]
    places an element before the first later element that it may precede,
    so elements that [le] relates both ways keep their input order. *)

Section Sort.
Context {A : Type}.
Variable le : A -> A -> bool.

Fixpoint insert_by (x : A) (l : list A) : list A :=
  match l with
  | [] => [x]
  | y :: l' => if le x y then x :: l else y :: insert_by x l'
  end.

Definition sort_by (l : list A) : list A := foldr insert_by [] l.
End Sort.

(** [sorted(l, key=key)] and [sorted(l, key=key, reverse=True)]. *)
Definition sorted_by_key {A} (key : A -> Z) (l : list A) : list A :=
  sort_by (fun x y => (key x <=? key y)%Z) l.
Definition sorted_by_key_reverse {A} (key : A -> Z) (l : list A) : list A :=
  sort_by (fun x y => (key y <=? key x)%Z) l.

(** *** Common words *)

(** [[^一-鿿\w]]. *)
Definition cs_not_word : Re.charset :=
  Re.Charset [] [(19968, 40959)%N] [Re.CatWord] true.

Definition title_words (title : str) : gset str :=
  list_to_set (filter (fun w => 2 <= length w) (Re.split cs_not_word title)).

(** Iterating over a [set] yields its elements once each, in an order the
    language leaves open (it follows the hashes of the elements, which for
    text change from one interpreter run to the next).  The order is a
    parameter, [iter]. *)
Definition set_iteration := gset str -> list str.

Definition admissible (iter : set_iteration) : Prop :=
  forall s : gset str, iter s ≡ₚ elements s.

Section BaseTitle.
Variable iter : set_iteration.

Definition find_common_words (titles : list str) : list str :=
  match title_words <$> titles with
  | [] => []
  | first :: rest =>
      let common_words := foldl (fun acc word_set => acc ∩ word_set) first rest in
      sorted_by_key_reverse (fun w => Z.of_nat (length w)) (iter common_words)
  end.

(** [' '.join(words)]. *)
Fixpoint join_space (words : list str) : str :=
  match words with
  | [] => []
  | [w] => w
  | w :: ws => w ++ 32%N :: join_space ws
  end.

(** [Counter(l).most_common(1)[0][0]]: the first text, in order of first
    occurrence, whose count is the greatest. *)
Definition occurrences (x : str) (l : list str) : nat :=
  length (filter (fun y => y = x) l).

Definition most_common (l : list str) : option str :=
  foldl (fun best x =>
           match best with
           | None => Some x
           | Some b => if (occurrences b l <? occurrences x l)%nat then Some x else best
           end) None l.

(** The first loop of [extract_base_title]. *)
Fixpoint simplify_titles (titles : list str) : outcome (list str) :=
  match titles with
  | [] => Val []
  | title :: rest =>
      r ← extract_volume_with_context title;
      more ← simplify_titles rest;
      let simplified := fst r in
      if bool_decide (simplified = []) then Val more
      else Val (strip simplified :: more)
  end.

Definition base_of_simplified (titles simplified_titles : list str) : str :=
  match simplified_titles with
  | [only] => only
  | _ =>
      let common_prefix := commonprefix simplified_titles in
      let trimmed := trim_to_word_boundary common_prefix in
      if (3 <=? length common_prefix)%nat && (3 <=? length trimmed)%nat then trimmed
      else
        match find_longest_common_subsequence simplified_titles with
        | Some lcs_result => lcs_result
        | None =>
            match find_common_words simplified_titles with
            | (_ :: _) as common_words => join_space common_words
            | [] =>
                match most_common simplified_titles with
                | Some t => t
                | None => default [] (head titles)
                end
            end
        end
  end.

Definition extract_base_title (titles : list str) : outcome str :=
  if bool_decide (titles = []) then Val []
  else
    simplified_titles ← simplify_titles titles;
    let simplified_titles :=
      if bool_decide (simplified_titles = []) then titles else simplified_titles in
    Val (base_of_simplified titles simplified_titles).

End BaseTitle.

(** ** The library database

    Calibre's [Metadata] objects and its database are outside the plugin.
    A metadata object is a record of the attributes the plugin reads and
    writes; an attribute value that the plugin only copies is a [pyval]. *)

Inductive pyval :=
| PNone
| PText (s : str)
| PNumber (n : Z)
| PList (l : list str).

Definition truthy (v : pyval) : bool :=
  match v with
  | PNone => false
  | PText s => negb (bool_decide (s = []))
  | PNumber n => negb (n =? 0)%Z
  | PList l => negb (bool_decide (l = []))
  end.

Record Metadata := {
  title : str;
  authors : list str;
  sort_authors : list str;
  sort_title : pyval;
  comments : pyval;
  tags : list str;
  series : pyval;
  series_index : pyval;
  publisher : pyval;
  identifiers : pyval;
  languages : pyval;
  pubdate : pyval;
  timestamp : pyval;
  last_modified : pyval;
  rating : pyval
}.

(** A book id without an entry makes [get_metadata] raise; an entry [None]
    makes it return an empty (falsy) object. *)
Abbreviation database := (gmap Z (option Metadata)).

Definition get_metadata (db : database) (book_id : Z) : outcome (option Metadata) :=
  match db !! book_id with
  | Some r => Val r
  | None => Exn
  end.

Definition set_metadata (db : database) (book_id : Z) (mi : Metadata) : database :=
  <[book_id := Some mi]> db.

(** The indexes [1, ..., n], and [enumerate(l, 1)]. *)
Definition indexes (n : nat) : list Z := Z.of_nat <$> seq 1 n.

Definition enumerate1 {A} (l : list A) : list (Z * A) :=
  zip (indexes (length l)) l.

(** ** Rename planning *)

(** [math.ceil(math.log10(x))] for an integer [x >= 1]: the least [k] with
    [x <= 10^k].  (The floating-point logarithm is exact at the powers of
    ten and stays clear of the integers elsewhere for the batch sizes a
    library can hold.) *)
Fixpoint ceil_log10_from (fuel : nat) (k pow x : Z) : Z :=
  match fuel with
  | O => k
  | S fuel' => if (x <=? pow)%Z then k else ceil_log10_from fuel' (k + 1)%Z (pow * 10)%Z x
  end.

Definition ceil_log10 (x : Z) : Z :=
  ceil_log10_from (S (Z.to_nat (Z.log2 x))) 0 1 x.

Definition chinese_suffix (i : Z) : str := utf8 "第" ++ int_to_chinese i ++ utf8 "卷".

(** The title built by [batch_update_metadata] for the [i]-th of
    [total_books] ids. *)
Definition update_title (new_title_base volume_format : str) (total_books i : Z) : str :=
  let volume_suffix :=
    if bool_decide (volume_format = utf8 "chinese") then chinese_suffix i
    else
      let digits :=
        if (total_books <? 10)%Z then 1%Z
        else if (total_books <? 100)%Z then 2%Z else 3%Z in
      format_zero_padded i digits in
  new_title_base ++ volume_suffix.

(** The title built by [preview_metadata_changes] for the [i]-th of
    [total_books] fetched books. *)
Definition preview_title (new_title_base volume_format : str) (total_books i : Z) : str :=
  let volume_suffix :=
    if bool_decide (volume_format = utf8 "chinese") then chinese_suffix i
    else
      let digits := ceil_log10 (total_books + 1) in
      format_zero_padded i digits in
  new_title_base ++ volume_suffix.

(** [list(value)] copies a list or tuple; the copy has the same content. *)
Definition copy_value (v : pyval) : pyval := v.

(** The body of the loop of [batch_update_metadata] between the two
    database calls: the new metadata object for a book. *)
Definition new_metadata (mi : Metadata) (new_title author : str)
    (clear_tags clear_series clear_publisher : bool) : Metadata :=
  let own_author := negb (bool_decide (author = []))
                    && negb (bool_decide (strip author = [])) in
  {| title := new_title;
     authors := if own_author then [strip author] else authors mi;
     sort_authors := if own_author then [strip author] else sort_authors mi;
     sort_title := if truthy (sort_title mi) then sort_title mi else PText new_title;
     comments := comments mi;
     tags := if clear_tags then [] else tags mi;
     series := if clear_series then PText [] else series mi;
     series_index := if clear_series then PText [] else series_index mi;
     publisher := if clear_publisher then publisher mi else PText [];
     identifiers := copy_value (identifiers mi);
     languages := copy_value (languages mi);
     pubdate := copy_value (pubdate mi);
     timestamp := copy_value (timestamp mi);
     last_modified := copy_value (last_modified mi);
     rating := copy_value (rating mi) |}.

Section Batch.
Variables (new_title_base author : str).
Variables (clear_tags clear_series clear_publisher : bool).
Variable volume_format : str.

(** The loop of [batch_update_metadata]; the state is the database and
    [updated_count].  An id whose metadata cannot be fetched, or is empty,
    is passed over. *)
Fixpoint batch_loop (total_books : Z) (items : list (Z * Z))
    (db : database) (updated_count : Z) : database * Z :=
  match items with
  | [] => (db, updated_count)
  | (i, book_id) :: rest =>
      match get_metadata db book_id with
      | Val (Some mi) =>
          let new_title := update_title new_title_base volume_format total_books i in
          let new_mi := new_metadata mi new_title author
                          clear_tags clear_series clear_publisher in
          batch_loop total_books rest (set_metadata db book_id new_mi)
                     (updated_count + 1)%Z
      | Val None | Exn => batch_loop total_books rest db updated_count
      end
  end.

Definition batch_update_metadata (db : database) (book_ids : list Z) : database * Z :=
  batch_loop (Z.of_nat (length book_ids)) (enumerate1 book_ids) db 0.

End Batch.

(** ** Volume sorting *)

(** The loop of [detect_and_sort_books_by_volume].  [volume or 0] is
    [default 0 volume]; a failure while fetching or extracting records the
    id with volume 0, an empty metadata object records nothing. *)
Fixpoint books_with_volume (db : database) (book_ids : list Z) : list (Z * Z) :=
  match book_ids with
  | [] => []
  | book_id :: rest =>
      match get_metadata db book_id with
      | Val (Some mi) =>
          match extract_volume_with_context (title mi) with
          | Val (_, volume) => (book_id, default 0%Z volume) :: books_with_volume db rest
          | Exn => (book_id, 0%Z) :: books_with_volume db rest
          end
      | Val None => books_with_volume db rest
      | Exn => (book_id, 0%Z) :: books_with_volume db rest
      end
  end.

Definition detect_and_sort_books_by_volume (db : database) (book_ids : list Z)
    : list (Z * Z) :=
  sorted_by_key snd (books_with_volume db book_ids).

(** ** Preview *)

Record book_data := { bd_id : Z; bd_mi : Metadata; bd_volume : option Z }.

Record preview := {
  pv_book_id : Z;
  pv_old_title : str;
  pv_new_title : str;
  pv_old_authors : list str;
  pv_new_author : str;
  pv_index : Z
}.

(** The first loop of [preview_metadata_changes]. *)
Fixpoint fetch_books_data (db : database) (book_ids : list Z) : list book_data :=
  match book_ids with
  | [] => []
  | book_id :: rest =>
      match get_metadata db book_id with
      | Val (Some mi) =>
          match extract_volume_with_context (title mi) with
          | Val (_, volume) =>
              {| bd_id := book_id; bd_mi := mi; bd_volume := volume |}
                :: fetch_books_data db rest
          | Exn => fetch_books_data db rest
          end
      | Val None | Exn => fetch_books_data db rest
      end
  end.

Definition preview_metadata_changes (db : database) (book_ids : list Z)
    (new_title_base author volume_format : str) : list preview :=
  let books_data := fetch_books_data db book_ids in
  (fun '(i, bd) =>
     {| pv_book_id := bd_id bd;
        pv_old_title := title (bd_mi bd);
        pv_new_title :=
          preview_title new_title_base volume_format (Z.of_nat (length books_data)) i;
        pv_old_authors := authors (bd_mi bd);
        pv_new_author := author;
        pv_index := i |}) <$> enumerate1 books_data.

(** ** The dialog ([main.py]) *)

Record dialog := {
  book_ids : list Z;
  books_dict : gmap Z Metadata;
  book_id_to_title : gmap Z str;
  valid_book_ids : list Z;
  books : list Metadata;
  titles : list str
}.

(** The first loop of [organize_book_data]: the sorted ids known to
    [books_dict] are appended to the three lists.  An id of [books_dict]
    that [book_id_to_title] lacks raises [KeyError]. *)
Fixpoint append_sorted (sorted_books : list (Z * Z)) (d : dialog) : outcome dialog :=
  match sorted_books with
  | [] => Val d
  | (book_id, _) :: rest =>
      match books_dict d !! book_id with
      | Some mi =>
          match book_id_to_title d !! book_id with
          | Some t =>
              append_sorted rest
                {| book_ids := book_ids d;
                   books_dict := books_dict d;
                   book_id_to_title := book_id_to_title d;
                   valid_book_ids := valid_book_ids d ++ [book_id];
                   books := books d ++ [mi];
                   titles := titles d ++ [t] |}
          | None => Exn
          end
      | None => append_sorted rest d
      end
  end.

Definition min_len (d : dialog) : nat :=
  Nat.min (Nat.min (length (valid_book_ids d)) (length (books d))) (length (titles d)).

Definition lengths_agree (d : dialog) : bool :=
  bool_decide (length (valid_book_ids d) = length (books d))
  && bool_decide (length (books d) = length (titles d)).

(** The three lists cut to their first [k] entries. *)
Definition truncate (k : nat) (d : dialog) : dialog :=
  {| book_ids := book_ids d;
     books_dict := books_dict d;
     book_id_to_title := book_id_to_title d;
     valid_book_ids := take k (valid_book_ids d);
     books := take k (books d);
     titles := take k (titles d) |}.

Definition organize_book_data (db : database) (d : dialog) : outcome dialog :=
  let sorted_books := detect_and_sort_books_by_volume db (book_ids d) in
  d ← append_sorted sorted_books d;
  if lengths_agree d then Val d
  else if (min_len d =? 0)%nat then Val d
  else Val (truncate (min_len d) d).

(** What the user has entered when pressing the confirm button, and the
    answer to the question asked when no author is given. *)
Record form := {
  title_edit : str;
  author_combo : str;
  clear_tags_check : bool;
  clear_series_check : bool;
  clear_publisher_check : bool;
  continue_without_author : bool
}.

Inductive accepted :=
| DataError (n_ids n_books : nat)
| MissingTitle
| Cancelled
| Updated (db : database) (updated_count : Z).

(** [accept] first stores [valid_book_ids] as the dialog's [book_ids]; the
    checks and the update below read that list. *)
Definition accept (db : database) (d : dialog) (f : form) : accepted :=
  let book_ids := valid_book_ids d in
  if negb (bool_decide (length book_ids = length (books d))) then
    DataError (length book_ids) (length (books d))
  else
    let new_title_base := strip (title_edit f) in
    let author := strip (author_combo f) in
    if bool_decide (new_title_base = []) then MissingTitle
    else if bool_decide (author = []) && negb (continue_without_author f) then Cancelled
    else
      let '(db', updated_count) :=
        batch_update_metadata new_title_base author
          (clear_tags_check f) (clear_series_check f) (clear_publisher_check f)
          (utf8 "number") db book_ids in
      Updated db' updated_count.

(** ** Notions used in the statements, and sample data *)

(** The code points of a list of ranges, one by one. *)
Definition range_points (r : N * N) : list N :=
  (fun k => (fst r + N.of_nat k)%N) <$> seq 0 (S (N.to_nat (snd r - fst r))).

Definition points (rs : list (N * N)) : list N := rs ≫= range_points.

(** The text [g] consists of characters of the class [cs]. *)
Definition within (ignorecase : bool) (cs : Re.charset) (g : str) : Prop :=
  Forall (fun c => Re.in_charset ignorecase cs c = true) g.

(** The capturing items of a pattern, in order: the class, and whether
    the item is a [+] (which captures at least one character). *)
Definition capturing (p : Re.pattern) : list (Re.charset * bool) :=
  omap (fun it =>
          match it with
          | Re.Plus cs true => Some (cs, true)
          | Re.LazyStar cs true => Some (cs, false)
          | _ => None
          end) p.

(** What a capturing item captures. *)
Definition captured (ignorecase : bool) (k : Re.charset * bool) (g : str) : Prop :=
  within ignorecase (fst k) g /\ (snd k = true -> g <> []).

(** A candidate is a text of characters that the widest class of the
    extractor admits: a Chinese numeral character, a decimal digit, or a
    Roman letter in either case. *)
Definition candidate_char (c : N) : Prop :=
  Re.in_charset true cs_numeral_roman c = true.

Definition candidate (s : str) : Prop := Forall candidate_char s.

(** A class without complement or ranges whose characters are among those
    of the widest class and whose only escape is [\d]. *)
Definition narrower (cs : Re.charset) : Prop :=
  Re.cs_negated cs = false /\ Re.cs_ranges cs = [] /\
  Re.cs_chars cs ⊆ Re.cs_chars cs_numeral_roman /\ Re.cs_cats cs ⊆ [Re.CatDigit].

(** A pattern whose group 1 is a non-empty candidate. *)
Definition captures_candidate (p : Re.pattern) : Prop :=
  exists cs rest, capturing p = (cs, true) :: rest /\ narrower cs.

(** The two kinds of result: the title as it is without a volume, or the
    text before a match, trimmed, with a volume. *)
Definition extracted (title : str) (r : str * option Z) : Prop :=
  r = (title, None) \/ exists m v, r = (title_before title m, Some v).

(** Ascending by key. *)
Definition ascending {A} (key : A -> Z) : list A -> Prop :=
  StronglySorted (fun x y => (key x <= key y)%Z).

(** A book with the given title and nothing else, and a library of such
    books. *)
Definition blank_book (t : str) : Metadata :=
  {| title := t; authors := []; sort_authors := []; sort_title := PNone;
     comments := PNone; tags := []; series := PNone; series_index := PNone;
     publisher := PNone; identifiers := PNone; languages := PNone;
     pubdate := PNone; timestamp := PNone; last_modified := PNone;
     rating := PNone |}.

Definition library (entries : list (Z * string)) : database :=
  list_to_map ((fun e => (fst e, Some (blank_book (utf8 (snd e))))) <$> entries).

(** A library of [n] books with the ids [1, ..., n]. *)
Definition numbered_library (n : nat) : database :=
  list_to_map ((fun k => (k, Some (blank_book (utf8 "t")))) <$> indexes n).

(** The title stored for a book id, if any. *)
Definition stored_title (db : database) (book_id : Z) : option str :=
  mi ← mjoin (db !! book_id); Some (title mi).

(** Every id of the list has a metadata object. *)
Definition all_present (db : database) (ids : list Z) : Prop :=
  Forall (fun book_id => exists mi, db !! book_id = Some (Some mi)) ids.


(** Two iteration orders over a set: the order of [elements], and its
    reverse.  Both yield every element once. *)
Definition reverse_iteration : set_iteration := fun s => reverse (elements s).

(** A filled-in form. *)
Definition filled_form : form :=
  {| title_edit := utf8 "T"; author_combo := utf8 "A";
     clear_tags_check := true; clear_series_check := true;
     clear_publisher_check := true; continue_without_author := false |}.

(** ** Further notions used in the statements *)

(** The sum that [chinese_to_int] forms after its loop. *)
Definition positional_value (s : str) : Z :=
  let r := chinese_to_int_loop s (CnVars 0 0 1) in (cn_result r + cn_temp r)%Z.

(** What the backtracking loop keeps: the characters collected so far, read
    backwards, are a subsequence of what lies at and after [i] in the first
    text, and at and after [j] in the second. *)
Definition collected (s1 s2 : str) (st : bt_state) : Prop :=
  reverse (bt_chars st) `sublist_of` drop (bt_i st) s1
  /\ reverse (bt_chars st) `sublist_of` drop (bt_j st) s2.

(** Counts of two titles in the list [whole], compared. *)
Definition fewer (whole : list str) (x t : str) : Prop :=
  (occurrences x whole < occurrences t whole)%nat.
Definition no_more (whole : list str) (x t : str) : Prop :=
  (occurrences x whole <= occurrences t whole)%nat.

(** One step of the search that [most_common] runs over [whole]. *)
Definition most_common_step_in (whole : list str) (best : option str) (x : str)
    : option str :=
  match best with
  | None => Some x
  | Some b => if (occurrences b whole <? occurrences x whole)%nat then Some x else best
  end.

(** ** Authors ([get_all_authors]) *)

(** [a <= b] on texts, the order that [sorted] uses. *)
Definition str_leb (a b : str) : bool := negb (str_ltb b a).

(** The loops of [get_all_authors]: the names of all books, stripped, the
    empty ones left out, in the order in which they are added to the set. *)
Definition clean_authors (books : list Metadata) : list str :=
  filter (fun clean_author => clean_author <> []) (strip <$> (books ≫= authors)).

(** [get_all_authors]; the iteration order of the set is the parameter
    [iter], as in [find_common_words]. *)
Definition get_all_authors (iter : set_iteration) (books : list Metadata) : list str :=
  sort_by str_leb (iter (list_to_set (clean_authors books))).

(** ** Opening the dialog, and reordering its list ([main.py]) *)

(** The dialog as [__init__] has it before fetching: the selected ids, and
    empty tables and lists. *)
Definition new_dialog (selected : list Z) : dialog :=
  {| book_ids := selected; books_dict := ∅; book_id_to_title := ∅;
     valid_book_ids := []; books := []; titles := [] |}.

(** The loop of [fetch_books_metadata]: a book with metadata and a
    non-empty title is entered in both tables; any other id is passed
    over. *)
Fixpoint fetch_loop (db : database) (ids : list Z) (d : dialog) : dialog :=
  match ids with
  | [] => d
  | book_id :: rest =>
      match get_metadata db book_id with
      | Val (Some mi) =>
          if negb (bool_decide (title mi = [])) then
            fetch_loop db rest
              {| book_ids := book_ids d;
                 books_dict := <[book_id := mi]> (books_dict d);
                 book_id_to_title := <[book_id := title mi]> (book_id_to_title d);
                 valid_book_ids := valid_book_ids d;
                 books := books d;
                 titles := titles d |}
          else fetch_loop db rest d
      | Val None | Exn => fetch_loop db rest d
      end
  end.

Definition fetch_books_metadata (db : database) (d : dialog) : dialog :=
  fetch_loop db (book_ids d) d.

(** How [__init__] ends: with one of three error messages, or with a
    dialog ready for [setup_ui], its base title and its author choices. *)
Inductive opened :=
| NoSelection
| NothingFetched
| NoValidData
| Ready (d : dialog) (base_title : str) (all_authors : list str).

(** [__init__], given the ids that [get_selected_book_ids] returns.  The
    two sets iterated on the way (common words, authors) have an iteration
    order each. *)
Definition __init__ (iter_words iter_authors : set_iteration) (db : database)
    (selected : list Z) : outcome opened :=
  if bool_decide (selected = []) then Val NoSelection
  else
    let d := fetch_books_metadata db (new_dialog selected) in
    if bool_decide (books_dict d = ∅) then Val NothingFetched
    else
      d ← organize_book_data db d;
      if bool_decide (valid_book_ids d = []) then Val NoValidData
      else
        base_title ← extract_base_title iter_words (titles d);
        let all_authors := get_all_authors iter_authors (books d) in
        Val (Ready {| book_ids := valid_book_ids d;
                      books_dict := books_dict d;
                      book_id_to_title := book_id_to_title d;
                      valid_book_ids := valid_book_ids d;
                      books := books d;
                      titles := titles d |}
                   base_title all_authors).

(** The position that a Python index denotes in a list; a negative index
    counts from the end.  [None]: the index is out of range. *)
Definition position {A} (l : list A) (index : Z) : option nat :=
  let n := Z.of_nat (length l) in
  if (0 <=? index)%Z then
    if (index <? n)%Z then Some (Z.to_nat index) else None
  else if (0 <=? n + index)%Z then Some (Z.to_nat (n + index)) else None.

(** [l[index1], l[index2] = l[index2], l[index1]]: both entries are read,
    [l[index2]] first, then [l[index1]] and [l[index2]] are assigned in
    this order.  An index out of range raises [IndexError]. *)
Definition swap_entries {A} (l : list A) (index1 index2 : Z) : outcome (list A) :=
  match position l index2, position l index1 with
  | Some p2, Some p1 =>
      match l !! p2, l !! p1 with
      | Some x2, Some x1 => Val (<[p2 := x1]> (<[p1 := x2]> l))
      | _, _ => Exn
      end
  | _, _ => Exn
  end.

(** [swap_book_items].  From the end of [__init__] on, which is before the
    buttons exist, [book_ids] is the same list object as [valid_book_ids]
    and changes with it. *)
Definition swap_book_items (d : dialog) (index1 index2 : Z) : outcome dialog :=
  ids ← swap_entries (valid_book_ids d) index1 index2;
  swapped_books ← swap_entries (books d) index1 index2;
  swapped_titles ← swap_entries (titles d) index1 index2;
  Val {| book_ids := ids;
         books_dict := books_dict d;
         book_id_to_title := book_id_to_title d;
         valid_book_ids := ids;
         books := swapped_books;
         titles := swapped_titles |}.

(** [move_book_up] and [move_book_down]; [current_row] is the row that the
    list widget reports, which is [-1] when no row is current.  The result
    holds the row that is current afterwards. *)
Definition move_book_up (current_row : Z) (d : dialog) : outcome (dialog * Z) :=
  if (0 <? current_row)%Z then
    d ← swap_book_items d current_row (current_row - 1);
    Val (d, (current_row - 1)%Z)
  else Val (d, current_row).

Definition move_book_down (current_row : Z) (d : dialog) : outcome (dialog * Z) :=
  if (current_row <? Z.of_nat (length (books d)) - 1)%Z then
    d ← swap_book_items d current_row (current_row + 1);
    Val (d, (current_row + 1)%Z)
  else Val (d, current_row).

(** [preview_changes]: a warning when the title field is blank, else the
    previews shown in the preview window. *)
Inductive previewed :=
| PreviewMissingTitle
| Previews (previews : list preview).

Definition preview_changes (db : database) (d : dialog) (f : form) : previewed :=
  let new_title_base := strip (title_edit f) in
  let author := strip (author_combo f) in
  if bool_decide (new_title_base = []) then PreviewMissingTitle
  else
    let book_ids := valid_book_ids d in
    Previews (preview_metadata_changes db book_ids new_title_base author (utf8 "number")).

(** ** Notions used in the statements about the dialog *)

(** The id has a metadata object in the database. *)
Definition fetchable (db : database) (book_id : Z) : Prop :=
  is_Some (mjoin (db !! book_id)).

(** What [__init__] establishes and reordering keeps: the three lists
    describe the same books position by position, as the tables have them,
    and [book_ids] is the list of valid ids. *)
Definition aligned (d : dialog) : Prop :=
  book_ids d = valid_book_ids d
  /\ Forall2 (fun book_id mi => books_dict d !! book_id = Some mi)
             (valid_book_ids d) (books d)
  /\ Forall2 (fun book_id t => book_id_to_title d !! book_id = Some t)
             (valid_book_ids d) (titles d).

(** A row of the list widget of a dialog, or [-1] for none. *)
Definition row_of (d : dialog) (current_row : Z) : Prop :=
  (-1 <= current_row < Z.of_nat (length (books d)))%Z.

Global Instance fetchable_dec db book_id : Decision (fetchable db book_id).
Proof. unfold fetchable. apply _. Defined.

(** ** Notions used in the statements about numeric suffixes *)

(** The texts at whose start a pattern matches, read off the pattern item
    by item; the matcher succeeds on nothing else. *)
Fixpoint accepts (ignorecase : bool) (p : Re.pattern) (s : str) : Prop :=
  match p with
  | [] => True
  | Re.One cs :: p' =>
      exists c s', s = c :: s' /\ Re.in_charset ignorecase cs c = true
                   /\ accepts ignorecase p' s'
  | Re.Opt cs :: p' =>
      accepts ignorecase p' s
      \/ exists c s', s = c :: s' /\ Re.in_charset ignorecase cs c = true
                      /\ accepts ignorecase p' s'
  | Re.Plus cs _ :: p' =>
      exists run s', s = run ++ s' /\ run <> [] /\ within ignorecase cs run
                     /\ accepts ignorecase p' s'
  | Re.LazyStar cs _ :: p' =>
      exists run s', s = run ++ s' /\ within ignorecase cs run
                     /\ accepts ignorecase p' s'
  | Re.Eos :: p' => Re.at_end s = true /\ accepts ignorecase p' s
  end.

(** A text of the digits [0] to [9]. *)
Definition ascii_digits (s : str) : Prop := Forall (fun c => (48 <= c <= 57)%N) s.

(** The class [[-_\s]] of the first pattern of [patterns]. *)
Definition cs_separator : Re.charset := Re.Charset (utf8 "-_") [] [Re.CatSpace] false.

(** A base title after which a number can be told apart: its last
    character, if it has one, is neither a candidate character nor one of
    [[-_\s]]. *)
Definition plain_end (base : str) : Prop :=
  forall z, last base = Some z ->
            ~ candidate_char z /\ Re.in_charset true cs_separator z = false.

(** ** Further sample data *)

(** A shelf of three books, and the dialog that [__init__] sets up when all
    three are selected. *)
Definition shelf : database :=
  library [(1%Z, "Saga 2"%string); (2%Z, "Saga 1"%string); (3%Z, "Saga 3"%string)].

Definition shelf_dialog : dialog :=
  {| book_ids := [2; 1; 3]%Z;
     books_dict :=
       list_to_map [(1%Z, blank_book (utf8 "Saga 2")); (2%Z, blank_book (utf8 "Saga 1"));
                    (3%Z, blank_book (utf8 "Saga 3"))];
     book_id_to_title :=
       list_to_map [(1%Z, utf8 "Saga 2"); (2%Z, utf8 "Saga 1"); (3%Z, utf8 "Saga 3")];
     valid_book_ids := [2; 1; 3]%Z;
     books := [blank_book (utf8 "Saga 1"); blank_book (utf8 "Saga 2");
               blank_book (utf8 "Saga 3")];
     titles := [utf8 "Saga 1"; utf8 "Saga 2"; utf8 "Saga 3"] |}.

(** A book with a title and authors, and nothing else. *)
Definition authored_book (t : str) (names : list str) : Metadata :=
  {| title := t; authors := names; sort_authors := names; sort_title := PNone;
     comments := PNone; tags := []; series := PNone; series_index := PNone;
     publisher := PNone; identifiers := PNone; languages := PNone;
     pubdate := PNone; timestamp := PNone; last_modified := PNone;
     rating := PNone |}.

(** ** Notions used in the statements about the extractor *)

(** The rules of [extract_volume_with_context] in the order in which it
    tries them, each with its [re.IGNORECASE] flag: pattern 1, the five
    patterns of the loop, and the digits at the end. *)
Definition rules : list (bool * Re.pattern) :=
  (false, pattern1) :: ((fun p => (true, p)) <$> patterns) ++ [(false, digits_pattern)].

(** The rule matches nowhere in the title. *)
Definition unmatched (title : str) (rule : bool * Re.pattern) : Prop :=
  Re.search rule.1 rule.2 title = None.

(** The extractor returns on the title of every listed book for which the
    database has metadata. *)
Definition extractable (db : database) (ids : list Z) : Prop :=
  Forall (fun book_id =>
            forall mi, db !! book_id = Some (Some mi) ->
                       extract_volume_with_context (title mi) <> Exn) ids.

(** The preview lists a book: the database has metadata for it, and the
    extractor returns on its title (an exception there is caught, and the
    book is dropped from the preview). *)
Definition previewable (db : database) (book_id : Z) : Prop :=
  match mjoin (db !! book_id) with
  | Some mi =>
      match extract_volume_with_context (title mi) with
      | Val _ => True
      | Exn => False
      end
  | None => False
  end.

Global Instance previewable_dec db book_id : Decision (previewable db book_id).
Proof.
  unfold previewable. destruct (mjoin (db !! book_id)) as [mi|]; [|apply _].
  destruct (extract_volume_with_context (title mi)); apply _.
Defined.



(** * Properties *)

(** ** Sample evaluations *)

Example utf8_sample : utf8 "X第2卷" = [88; 31532; 50; 21367]%N.
Proof. reflexivity. Qed.
Example fmt_sample :
  format_zero_padded 7 3 = utf8 "007" /\ py_str 120 = utf8 "120" /\ py_str 0 = utf8 "0"
  /\ format_volume 1 (utf8 "number") = utf8 "01"
  /\ format_volume 12 (utf8 "chinese") = utf8 "第十二卷".
Proof. vm_compute. repeat split. Qed.

Example c2i_samples :
  chinese_to_int (utf8 "二十三") = 23%Z /\ chinese_to_int (utf8 "十一") = 11%Z /\
  chinese_to_int (utf8 "三百二十") = 320%Z /\ chinese_to_int (utf8 "1一") = 0%Z /\
  roman_to_int (utf8 "MCMXCIV") = 1994%Z /\ int_to_chinese 45 = utf8 "四十五" /\
  int_to_chinese 120 = utf8 "120".
Proof. vm_compute. repeat split. Qed.

Example extract_samples :
  extract_volume_with_context (utf8 "X第2卷") = Val (utf8 "X", Some 2%Z) /\
  extract_volume_with_context (utf8 "海贼王 - 第十二卷 上") = Val (utf8 "海贼王", Some 12%Z) /\
  extract_volume_with_context (utf8 "Foo_iv") = Val (utf8 "Foo", Some 4%Z) /\
  extract_volume_with_context (utf8 "Foo（三）") = Val (utf8 "Foo", Some 3%Z) /\
  extract_volume_with_context (utf8 "Foo v12") = Val (utf8 "Foo", Some 0%Z) /\
  extract_volume_with_context (utf8 "Foo第3部分") = Val (utf8 "Foo", Some 3%Z) /\
  extract_volume_with_context (utf8 "Foo2024") = Val (utf8 "Foo", Some 2024%Z) /\
  extract_volume_with_context (utf8 "Foo20245") = Val (utf8 "Foo20245", None) /\
  extract_volume_with_context (utf8 "X") = Val (utf8 "X", None) /\
  extract_volume_with_context (utf8 "X第1一卷") = Val (utf8 "X", Some 0%Z).
Proof. vm_compute. repeat split. Qed.

Example lcs_samples :
  longest_common_subsequence (utf8 "Foo Bar Alpha") (utf8 "Foo Bar Beta") = utf8 "Foo Bar a" /\
  longest_common_subsequence (utf8 "ab") (utf8 "ba") = utf8 "b" /\
  commonprefix [utf8 "abcx"; utf8 "abd"; utf8 "abcy"] = utf8 "ab" /\
  trim_to_word_boundary (utf8 "Foo Bar  Ba") = utf8 "Foo Bar".
Proof. vm_compute. repeat split. Qed.

Example base_title_samples :
  extract_base_title elements [utf8 "海贼王 01"; utf8 "海贼王 02"; utf8 "海贼王 03"]
    = Val (utf8 "海贼王") /\
  extract_base_title elements [utf8 "Foo Bar Alpha"; utf8 "Foo Bar Beta"]
    = Val (utf8 "Foo Bar").
Proof. vm_compute. repeat split. Qed.

(** ** Tables and built-in operations *)

Section Ranges.

Lemma in_ranges_points rs c : in_ranges rs c = true -> c ∈ points rs.
Proof.
  unfold in_ranges, points. rewrite existsb_exists.
  intros ([a b] & Hin & Hc). apply andb_true_iff in Hc as [Ha Hb].
  apply N.leb_le in Ha, Hb. cbn [fst snd] in Ha, Hb.
  apply list_elem_of_bind. exists (a, b). split; [|by apply list_elem_of_In].
  unfold range_points. cbn [fst snd]. apply list_elem_of_fmap.
  exists (N.to_nat (c - a)). split; [lia|].
  apply elem_of_seq. lia.
Qed.

Lemma decimal_value_is_Some c : isdecimal c = true -> is_Some (decimal_value c).
Proof.
  unfold isdecimal, in_ranges, decimal_value. rewrite existsb_exists.
  intros (r & Hin & Hr).
  destruct (List.find _ decimal_ranges) eqn:Hf; [eauto|].
  eapply find_none in Hf; [|exact Hin]. simpl in Hf. congruence.
Qed.

End Ranges.

Lemma int_digits_total s acc :
  Forall (fun c => isdecimal c = true) s -> exists n, int_digits acc s = Val n.
Proof.
  intros Hs. revert acc. induction Hs as [|c s Hc _ IH]; intros acc; simpl.
  - eauto.
  - destruct (decimal_value_is_Some c Hc) as [d ->]. apply IH.
Qed.

Lemma rstrip_by_cons p c s :
  rstrip_by p (c :: s) =
  if decide (rstrip_by p s = []) then (if p c then [] else [c])
  else c :: rstrip_by p s.
Proof. reflexivity. Qed.

Lemma rstrip_by_split p s :
  exists dropped, s = rstrip_by p s ++ dropped /\ Forall (fun c => p c = true) dropped.
Proof.
  induction s as [|c s (dropped & Hs & Hd)].
  - exists []. by split.
  - rewrite rstrip_by_cons.
    destruct (decide (rstrip_by p s = [])) as [Hk|Hk].
    + destruct (p c) eqn:Hc.
      * exists (c :: s). split; [done|]. constructor; [done|].
        rewrite Hs, Hk. done.
      * exists dropped. split; [|done]. simpl. f_equal. rewrite Hs at 1. by rewrite Hk.
    + exists dropped. split; [|done]. simpl. by f_equal.
Qed.

Lemma lstrip_by_suffix p s : lstrip_by p s `suffix_of` s.
Proof.
  induction s as [|c s IH]; simpl; [done|].
  destruct (p c); [by apply suffix_cons_r|done].
Qed.

Lemma Forall_strip (P : N -> Prop) s : Forall P s -> Forall P (strip s).
Proof.
  intros Hs. unfold strip.
  destruct (lstrip_by_suffix isspace s) as [pre Hpre].
  destruct (rstrip_by_split isspace (lstrip_by isspace s)) as (dropped & Hsplit & _).
  rewrite Hpre, Hsplit in Hs.
  apply Forall_app in Hs as [_ Hs]. by apply Forall_app in Hs as [Hs _].
Qed.

(** ** What a match captures *)

Section Captures.
Variable ignorecase : bool.

Lemma greedy_plus_inv cs k s taken r :
  Re.greedy_plus ignorecase cs k s taken = Some r ->
  exists extra rest,
    within ignorecase cs extra /\ extra <> [] /\ s = extra ++ rest /\ k (taken ++ extra) rest = Some r.
Proof.
  revert taken. induction s as [|c s IH]; intros taken; simpl; [done|].
  destruct (Re.in_charset ignorecase cs c) eqn:Hc; [|done].
  destruct (Re.greedy_plus ignorecase cs k s (taken ++ [c])) as [r'|] eqn:Hg.
  - intros [= <-]. apply IH in Hg as (extra & rest & He & _ & -> & Hk).
    exists (c :: extra), rest. rewrite <- app_assoc in Hk.
    split; [by constructor|]. by split.
  - intros Hk. exists [c], s. split; [by repeat constructor|]. by split.
Qed.

Lemma lazy_star_inv cs k s taken r :
  Re.lazy_star ignorecase cs k s taken = Some r ->
  exists extra rest,
    within ignorecase cs extra /\ s = extra ++ rest /\ k (taken ++ extra) rest = Some r.
Proof.
  revert taken. induction s as [|c s IH]; intros taken; simpl.
  - destruct (k taken []) eqn:Hk; [|done]. intros [= <-].
    exists [], []. rewrite !app_nil_r. split; [constructor|]. by split.
  - destruct (k taken (c :: s)) eqn:Hk.
    + intros [= <-]. exists [], (c :: s). rewrite !app_nil_r.
      split; [constructor|]. by split.
    + destruct (Re.in_charset ignorecase cs c) eqn:Hc; [|done].
      intros Hl. apply IH in Hl as (extra & rest & He & -> & Hk').
      exists (c :: extra), rest. rewrite <- app_assoc in Hk'.
      split; [by constructor|]. by split.
Qed.

Lemma match_here_groups p s gs r :
  Re.match_here ignorecase p s gs = Some r ->
  exists new, r = gs ++ new /\ Forall2 (captured ignorecase) (capturing p) new.
Proof.
  revert s gs. induction p as [|it p IH]; intros s gs; simpl.
  - intros [= <-]. exists []. rewrite app_nil_r. split; [done|constructor].
  - destruct it as [cs|cs|cs g|cs g|]; simpl.
    + destruct s as [|c s]; [done|].
      destruct (Re.in_charset ignorecase cs c); [|done]. apply IH.
    + destruct s as [|c s]; [apply IH|].
      destruct (Re.in_charset ignorecase cs c); [|apply IH].
      destruct (Re.match_here ignorecase p s gs) eqn:Hm; [|apply IH].
      intros [= <-]. by apply IH in Hm.
    + intros Hg. apply greedy_plus_inv in Hg as (extra & rest & He & Hne & _ & Hk).
      apply IH in Hk as (new & -> & Hnew). destruct g.
      * exists (extra :: new). rewrite <- app_assoc. split; [done|].
        constructor; [by split|done].
      * by exists new.
    + intros Hl. apply lazy_star_inv in Hl as (extra & rest & He & _ & Hk).
      apply IH in Hk as (new & -> & Hnew). destruct g.
      * exists (extra :: new). rewrite <- app_assoc. split; [done|].
        constructor; [by split|done].
      * by exists new.
    + destruct (Re.at_end s); [apply IH|done].
Qed.

Lemma search_from_groups p s pos m :
  Re.search_from ignorecase p s pos = Some m ->
  Forall2 (captured ignorecase) (capturing p) (Re.m_groups m).
Proof.
  revert pos. induction s as [|c s IH]; intros pos; simpl.
  - destruct (Re.match_here ignorecase p [] []) eqn:Hm; [|done].
    intros [= <-]. by apply match_here_groups in Hm as (new & -> & Hnew).
  - destruct (Re.match_here ignorecase p (c :: s) []) eqn:Hm.
    + intros [= <-]. by apply match_here_groups in Hm as (new & -> & Hnew).
    + apply IH.
Qed.

(** A captured group is no longer than the text. *)
Lemma match_here_group_lengths p s gs r :
  Re.match_here ignorecase p s gs = Some r ->
  exists new, r = gs ++ new /\ Forall (fun g => (length g <= length s)%nat) new.
Proof.
  revert s gs. induction p as [|it p IH]; intros s gs; simpl.
  - intros [= <-]. exists []. rewrite app_nil_r. split; [done|constructor].
  - assert (forall s' gs', Re.match_here ignorecase p s' gs' = Some r ->
              exists new, r = gs' ++ new
                          /\ Forall (fun g => (length g <= S (length s'))%nat) new)
      as Hstep.
    { intros s' gs' (new & -> & Hnew)%IH. exists new. split; [done|].
      eapply Forall_impl; [exact Hnew|]. cbv beta. intros g Hg. lia. }
    destruct it as [cs|cs|cs g|cs g|]; simpl.
    + destruct s as [|c s]; [done|].
      destruct (Re.in_charset ignorecase cs c); [|done]. apply Hstep.
    + destruct s as [|c s]; [apply IH|].
      destruct (Re.in_charset ignorecase cs c); [|apply IH].
      destruct (Re.match_here ignorecase p s gs) eqn:Hm; [|apply IH].
      intros [= <-]. by apply Hstep in Hm.
    + intros (extra & rest & _ & _ & -> & Hk)%greedy_plus_inv.
      apply IH in Hk as (new & -> & Hnew). cbn [app] in *.
      assert (Forall (fun g => (length g <= length (extra ++ rest))%nat) new) as Hnew'.
      { eapply Forall_impl; [exact Hnew|]. cbv beta. intros x Hx. rewrite length_app. lia. }
      destruct g.
      * exists (extra :: new). rewrite <- app_assoc. split; [done|].
        constructor; [rewrite length_app; lia|done].
      * by exists new.
    + intros (extra & rest & _ & -> & Hk)%lazy_star_inv.
      apply IH in Hk as (new & -> & Hnew). cbn [app] in *.
      assert (Forall (fun g => (length g <= length (extra ++ rest))%nat) new) as Hnew'.
      { eapply Forall_impl; [exact Hnew|]. cbv beta. intros x Hx. rewrite length_app. lia. }
      destruct g.
      * exists (extra :: new). rewrite <- app_assoc. split; [done|].
        constructor; [rewrite length_app; lia|done].
      * by exists new.
    + destruct (Re.at_end s); [|done]. apply IH.
Qed.

Lemma search_from_group_lengths p s pos m :
  Re.search_from ignorecase p s pos = Some m ->
  Forall (fun g => (length g <= length s)%nat) (Re.m_groups m).
Proof.
  revert pos. induction s as [|c s IH]; intros pos; simpl.
  - destruct (Re.match_here ignorecase p [] []) eqn:Hm; [|done].
    intros [= <-]. by apply match_here_group_lengths in Hm as (new & -> & Hnew).
  - destruct (Re.match_here ignorecase p (c :: s) []) eqn:Hm.
    + intros [= <-]. by apply match_here_group_lengths in Hm as (new & -> & Hnew).
    + intros Hs%IH. eapply Forall_impl; [exact Hs|]. cbv beta. intros g Hg. simpl. lia.
Qed.

Lemma search_group1_length p s m :
  Re.search ignorecase p s = Some m -> (length (Re.group 1 m) <= length s)%nat.
Proof.
  intros Hs%search_from_group_lengths. unfold Re.group.
  destruct (Re.m_groups m !! (1 - 1)%nat) as [g|] eqn:Hg; simpl; [|lia].
  by eapply Forall_lookup_1 in Hs.
Qed.

(** Group 1 of a match lies within the class of the first capturing item. *)
Lemma search_group1 p s m k rest :
  capturing p = k :: rest ->
  Re.search ignorecase p s = Some m ->
  captured ignorecase k (Re.group 1 m).
Proof.
  intros Hp Hs. apply search_from_groups in Hs.
  rewrite Hp in Hs. inversion Hs; subst. unfold Re.group.
  match goal with H : _ = Re.m_groups m |- _ => rewrite <- H end. done.
Qed.

End Captures.

(** ** Candidate volume texts *)

Lemma existsb_fold_case_self (l : str) c :
  c ∈ l -> existsb (fun x => (fold_case x =? fold_case c)%N) l = true.
Proof.
  intros Hc. apply existsb_exists. exists c. split; [by apply list_elem_of_In|].
  apply N.eqb_refl.
Qed.

Lemma existsb_fold_case_mono (l1 l2 : str) c :
  l1 ⊆ l2 ->
  existsb (fun x => (fold_case x =? fold_case c)%N) l1 = true ->
  existsb (fun x => (fold_case x =? fold_case c)%N) l2 = true.
Proof.
  intros Hsub. rewrite !existsb_exists. intros (x & Hx & Hf).
  exists x. split; [|done]. apply list_elem_of_In, Hsub. by apply list_elem_of_In.
Qed.

Lemma candidate_char_intro c :
  existsb (fun x => (fold_case x =? fold_case c)%N) (Re.cs_chars cs_numeral_roman) = true
  \/ isdecimal c = true ->
  candidate_char c.
Proof.
  intros H. unfold candidate_char, Re.in_charset.
  change (Re.cs_negated cs_numeral_roman) with false.
  change (Re.cs_ranges cs_numeral_roman) with (@nil (N * N)).
  change (Re.cs_cats cs_numeral_roman) with [Re.CatDigit].
  cbn [xorb in_ranges existsb Re.in_category].
  rewrite !orb_false_r. apply orb_true_iff. exact H.
Qed.

Lemma in_charset_candidate ic cs c :
  narrower cs -> Re.in_charset ic cs c = true -> candidate_char c.
Proof.
  intros (Hneg & Hr & Hch & Hcat). unfold Re.in_charset.
  rewrite Hneg, Hr. cbn [xorb in_ranges existsb].
  rewrite !orb_false_r. intros H. apply candidate_char_intro.
  apply orb_true_iff in H as [H|H].
  - left. destruct ic.
    + by eapply existsb_fold_case_mono.
    + apply bool_decide_eq_true in H. by apply existsb_fold_case_self, Hch.
  - right. apply existsb_exists in H as (k & Hk & Hc).
    apply list_elem_of_In, Hcat, list_elem_of_singleton in Hk. by subst k.
Qed.

Lemma narrower_numeral_roman : narrower cs_numeral_roman.
Proof. by repeat split. Qed.

Lemma narrower_numeral : narrower cs_numeral.
Proof.
  unfold narrower.
  change (Re.cs_chars cs_numeral) with numeral_chars.
  change (Re.cs_chars cs_numeral_roman) with (numeral_chars ++ roman_letters).
  repeat split; [|done]. intros c Hc. apply elem_of_app. by left.
Qed.

Lemma narrower_digits : narrower (Re.Charset [] [] [Re.CatDigit] false).
Proof.
  unfold narrower. cbn [Re.cs_negated Re.cs_ranges Re.cs_chars Re.cs_cats].
  repeat split; [|done]. intros c Hc. by apply elem_of_nil in Hc.
Qed.

(** No digit outside category Nd is a candidate character. *)
Lemma other_digits_not_candidates :
  forallb (fun c => negb (Re.in_charset true cs_numeral_roman c))
          (points other_digit_ranges) = true.
Proof. vm_compute. reflexivity. Qed.

Lemma candidate_digit_decimal c :
  candidate_char c -> isdigit_cp c = true -> isdecimal c = true.
Proof.
  intros Hc Hd. unfold isdigit_cp in Hd. apply orb_true_iff in Hd as [Hd|Hd]; [done|].
  apply in_ranges_points, list_elem_of_In in Hd.
  pose proof other_digits_not_candidates as Hall.
  rewrite forallb_forall in Hall. apply Hall in Hd.
  unfold candidate_char in Hc. rewrite Hc in Hd. done.
Qed.

Lemma rstrip_by_none p s :
  Forall (fun c => p c = false) s -> rstrip_by p s = s.
Proof.
  induction 1 as [|c s Hc _ IH]; [done|].
  rewrite rstrip_by_cons, IH, Hc. by destruct s.
Qed.

Lemma lstrip_by_none p s :
  Forall (fun c => p c = false) s -> lstrip_by p s = s.
Proof. intros Hs. destruct Hs as [|c s Hc _]; [done|]. simpl. by rewrite Hc. Qed.

Lemma strip_no_space s :
  Forall (fun c => isspace c = false) s -> strip s = s.
Proof. intros Hs. unfold strip. by rewrite lstrip_by_none, rstrip_by_none. Qed.

Lemma length_strip s : (length (strip s) <= length s)%nat.
Proof.
  unfold strip.
  destruct (lstrip_by_suffix isspace s) as [pre Hpre].
  destruct (rstrip_by_split isspace (lstrip_by isspace s)) as (dropped & Hsplit & _).
  rewrite Hpre at 2. rewrite Hsplit at 2. rewrite !length_app. lia.
Qed.

Lemma py_int_short s :
  (Z.of_nat (length s) <= max_str_digits)%Z -> py_int s = int_digits 0 s.
Proof. intros H. unfold py_int. by rewrite (proj2 (Z.ltb_ge _ _)). Qed.

Lemma py_int_long s : (max_str_digits < Z.of_nat (length s))%Z -> py_int s = Exn.
Proof. intros H. unfold py_int. by rewrite (proj2 (Z.ltb_lt _ _)). Qed.

(** On a non-empty candidate, [parse_volume_number] yields an integer, or
    it raises, which it does only on more than [max_str_digits] characters. *)
Lemma parse_volume_number_candidate_cases s :
  candidate s -> s <> [] ->
  (parse_volume_number s = Exn /\ (max_str_digits < Z.of_nat (length s))%Z)
  \/ exists n, parse_volume_number s = Val (Some n).
Proof.
  intros Hs Hnil. unfold parse_volume_number. rewrite bool_decide_eq_false_2 by done.
  destruct (isdigit (strip s)) eqn:Hd.
  - destruct (Z.ltb_spec max_str_digits (Z.of_nat (length (strip s)))) as [Hlong|Hshort].
    + left. rewrite py_int_long by done. split; [done|]. pose proof (length_strip s). lia.
    + right. rewrite py_int_short by done.
      apply andb_true_iff in Hd as [_ Hd]. rewrite forallb_forall in Hd.
      destruct (int_digits_total (strip s) 0) as [n Hn].
      { pose proof (Forall_strip _ _ Hs) as Hs'.
        apply Forall_forall. intros c Hc.
        apply candidate_digit_decimal.
        - rewrite Forall_forall in Hs'. by apply Hs'.
        - by apply Hd, list_elem_of_In. }
      rewrite Hn. simpl. eauto.
  - right. destruct (Re.match_here false roman_pattern (upper (strip s)) []); eauto.
Qed.

(** On a candidate of at most [max_str_digits] characters,
    [parse_volume_number] raises nothing, and it yields an integer unless
    the text is empty. *)
Lemma parse_volume_number_candidate s :
  candidate s -> (Z.of_nat (length s) <= max_str_digits)%Z ->
  exists v, parse_volume_number s = Val v /\ (s <> [] -> is_Some v).
Proof.
  intros Hs Hlen. destruct (decide (s = [])) as [->|Hne].
  - exists None. split; [|done]. unfold parse_volume_number.
    by rewrite bool_decide_eq_true_2.
  - destruct (parse_volume_number_candidate_cases s Hs Hne) as [[_ Hlong]|[n Hn]]; [lia|].
    exists (Some n). split; [done|]. by eexists.
Qed.

(** ** What the extractor returns, and when it raises *)

Lemma search_candidate ic p s m :
  captures_candidate p ->
  Re.search ic p s = Some m ->
  candidate (Re.group 1 m) /\ Re.group 1 m <> [].
Proof.
  intros (cs & rest & Hp & Hcs) Hs.
  destruct (search_group1 ic p s m _ _ Hp Hs) as [Hw Hne].
  split; [|by apply Hne].
  eapply Forall_impl; [exact Hw|]. intros c. by apply in_charset_candidate.
Qed.

Lemma pattern1_captures : captures_candidate pattern1.
Proof.
  exists cs_numeral_roman, [(Re.dot, false)]. split; [reflexivity|].
  apply narrower_numeral_roman.
Qed.

Lemma patterns_capture : Forall captures_candidate patterns.
Proof.
  repeat constructor.
  - exists cs_numeral_roman, []. split; [reflexivity|apply narrower_numeral_roman].
  - exists cs_numeral_roman, []. split; [reflexivity|apply narrower_numeral_roman].
  - exists cs_numeral_roman, []. split; [reflexivity|apply narrower_numeral_roman].
  - exists cs_numeral, []. split; [reflexivity|apply narrower_numeral].
  - exists cs_numeral, []. split; [reflexivity|apply narrower_numeral].
Qed.

Lemma digits_pattern_captures : captures_candidate digits_pattern.
Proof. eexists _, []. split; [reflexivity|apply narrower_digits]. Qed.

(** A decimal digit is a digit and no white space. *)
Lemma decimal_digit_facts c :
  isdecimal c = true -> isdigit_cp c = true /\ isspace c = false.
Proof.
  intros Hc. split; [unfold isdigit_cp; by rewrite Hc|].
  assert (forallb (fun c => negb (isspace c)) (points decimal_ranges) = true) as Hall
    by (vm_compute; reflexivity).
  rewrite forallb_forall in Hall.
  apply in_ranges_points, list_elem_of_In, Hall in Hc. by apply negb_true_iff in Hc.
Qed.

(** On a non-empty text of decimal digits, [parse_volume_number] is
    [int]. *)
Lemma parse_volume_number_decimals g :
  g <> [] -> Forall (fun c => isdecimal c = true) g ->
  parse_volume_number g = n ← py_int g; Val (Some n).
Proof.
  intros Hne Hg. unfold parse_volume_number. rewrite bool_decide_eq_false_2 by done.
  assert (strip g = g) as ->.
  { apply strip_no_space. eapply Forall_impl; [exact Hg|].
    intros c Hc. by apply decimal_digit_facts in Hc as [_ ?]. }
  assert (isdigit g = true) as ->; [|done].
  unfold isdigit. rewrite bool_decide_eq_false_2 by done. cbn [negb andb].
  apply forallb_forall. intros c Hc. apply list_elem_of_In in Hc.
  rewrite Forall_forall in Hg. by apply decimal_digit_facts, Hg.
Qed.

(** What the loop over [patterns] returns: nothing when no pattern
    matches; else the first pattern that matches decides, by the number
    its group 1 is parsed to, or with the exception that parsing raises. *)
Lemma extract_by_patterns_decided ps title :
  Forall captures_candidate ps ->
  match extract_by_patterns ps title with
  | Val None => Forall (fun p => Re.search true p title = None) ps
  | Val (Some res) =>
      exists before p after m v,
        ps = before ++ p :: after
        /\ Forall (fun p => Re.search true p title = None) before
        /\ Re.search true p title = Some m
        /\ parse_volume_number (Re.group 1 m) = Val (Some v)
        /\ res = (title_before title m, Some v)
  | Exn =>
      exists p m, p ∈ ps /\ Re.search true p title = Some m
                  /\ parse_volume_number (Re.group 1 m) = Exn
  end.
Proof.
  induction 1 as [|p ps Hp _ IH]; [constructor|]. cbn [extract_by_patterns].
  destruct (Re.search true p title) as [m|] eqn:Hs.
  - destruct (search_candidate _ _ _ _ Hp Hs) as [Hc Hne].
    destruct (parse_volume_number_candidate_cases _ Hc Hne) as [[Hexn _]|[n Hn]].
    + rewrite Hexn. cbn [mbind outcome_bind]. exists p, m.
      split; [by apply elem_of_cons; left|done].
    + rewrite Hn. cbn [mbind outcome_bind]. exists [], p, ps, m, n. by repeat split.
  - destruct (extract_by_patterns ps title) as [[res|]|].
    + destruct IH as (before & q & after & m & v & -> & Hb & Hq & Hv & ->).
      exists (p :: before), q, after, m, v. split; [done|]. split; [by constructor|done].
    + by constructor.
    + destruct IH as (q & m & Hin & Hq & Hv). exists q, m.
      split; [by apply elem_of_cons; right|done].
Qed.

(** What the extractor returns, and when it raises.  Without a volume the
    title comes back as it is, and then none of the rules with a keyword,
    a separator, a bracket or a [v] matches, and the digits at the end, if
    any, are more than four.  With a volume, the first rule that matches
    decides: the volume is the number its group 1 is parsed to, and the
    simplified title is what stands before the match, trimmed.  An
    exception comes from parsing group 1 of a matching rule. *)
Lemma extract_volume_decided title :
  match extract_volume_with_context title with
  | Val (simplified, None) =>
      simplified = title
      /\ Forall (unmatched title) ((false, pattern1) :: ((fun p => (true, p)) <$> patterns))
      /\ (unmatched title (false, digits_pattern)
          \/ exists m, Re.search false digits_pattern title = Some m
                       /\ (4 < length (Re.group 1 m))%nat)
  | Val (simplified, Some v) =>
      exists before rule after m,
        rules = before ++ rule :: after
        /\ Forall (unmatched title) before
        /\ Re.search rule.1 rule.2 title = Some m
        /\ parse_volume_number (Re.group 1 m) = Val (Some v)
        /\ simplified = title_before title m
  | Exn =>
      exists rule m, rule ∈ rules /\ Re.search rule.1 rule.2 title = Some m
                     /\ parse_volume_number (Re.group 1 m) = Exn
  end.
Proof.
  unfold extract_volume_with_context.
  assert (forall m, Re.search false pattern1 title = Some m ->
            match parse_volume_number (Re.group 1 m) with
            | Val (Some _) | Exn => True
            | Val None => False
            end) as Hnot_none.
  { intros m Hs. destruct (search_candidate _ _ _ _ pattern1_captures Hs) as [Hc Hne].
    by destruct (parse_volume_number_candidate_cases _ Hc Hne) as [[-> _]|[n ->]]. }
  destruct (Re.search false pattern1 title) as [m|] eqn:Hs1.
  { specialize (Hnot_none m eq_refl).
    destruct (parse_volume_number (Re.group 1 m)) as [[v|]|] eqn:Hv; [|done|];
      cbn [mbind outcome_bind].
    - exists [], (false, pattern1), (((fun p => (true, p)) <$> patterns)
                                      ++ [(false, digits_pattern)]), m.
      by repeat split.
    - exists (false, pattern1), m. split; [by apply elem_of_cons; left|done]. }
  clear Hnot_none. unfold extract_fallback.
  pose proof (extract_by_patterns_decided patterns title patterns_capture) as Hps.
  destruct (extract_by_patterns patterns title) as [[res|]|]; cbn [mbind outcome_bind].
  - destruct Hps as (before & p & after & m & v & Hpat & Hb & Hp & Hv & ->).
    exists ((false, pattern1) :: ((fun p => (true, p)) <$> before)), (true, p),
           (((fun p => (true, p)) <$> after) ++ [(false, digits_pattern)]), m.
    split; [|split; [|done]].
    + unfold rules. rewrite Hpat, fmap_app, fmap_cons, <- app_assoc. done.
    + constructor; [done|]. by apply Forall_fmap.
  - assert (Forall (unmatched title)
              ((false, pattern1) :: ((fun p => (true, p)) <$> patterns))) as Hnone.
    { constructor; [done|]. by apply Forall_fmap. }
    destruct (Re.search false digits_pattern title) as [m|] eqn:Hsd; [|by repeat split; try left].
    destruct (Nat.leb_spec (length (Re.group 1 m)) 4) as [Hle|Hgt].
    + assert (Re.group 1 m <> [] /\ Forall (fun c => isdecimal c = true) (Re.group 1 m))
        as [Hne Hd].
      { destruct (search_group1 false digits_pattern title m
                    (Re.Charset [] [] [Re.CatDigit] false, true) [] eq_refl Hsd) as [Hw Hne].
        split; [by apply Hne|].
        eapply Forall_impl; [exact Hw|]. intros c Hin. revert Hin.
        unfold Re.in_charset. cbn. by rewrite !orb_false_r. }
      pose proof (parse_volume_number_decimals _ Hne Hd) as Hparse.
      rewrite py_int_short in Hparse |- * by (unfold max_str_digits; lia).
      destruct (int_digits_total _ 0 Hd) as [n Hn]. rewrite Hn in Hparse |- *.
      cbn [mbind outcome_bind] in *.
      exists ((false, pattern1) :: ((fun p => (true, p)) <$> patterns)),
             (false, digits_pattern), [], m.
      by repeat split.
    + split; [done|]. split; [done|]. right. by exists m.
  - destruct Hps as (p & m & Hin & Hp & Hv). exists (true, p), m. split; [|done].
    apply elem_of_cons. right. apply elem_of_app. left.
    apply list_elem_of_fmap. by exists p.
Qed.

(** The shape of a result: the title as it is without a volume, or what
    stands before a match, trimmed, with a volume. *)
Lemma extract_volume_shape title r :
  extract_volume_with_context title = Val r -> extracted title r.
Proof.
  intros Hr. pose proof (extract_volume_decided title) as H. rewrite Hr in H.
  destruct r as [simplified [v|]].
  - destruct H as (_ & _ & _ & m & _ & _ & _ & _ & ->). right. eauto.
  - destruct H as (-> & _). by left.
Qed.

(** When the extractor raises, the title has more than [max_str_digits]
    characters. *)
Lemma extract_volume_raises_long title :
  extract_volume_with_context title = Exn ->
  (max_str_digits < Z.of_nat (length title))%Z.
Proof.
  intros Hr. pose proof (extract_volume_decided title) as H. rewrite Hr in H.
  destruct H as ([ic p] & m & Hin & Hs & Hexn). cbn [fst snd] in Hs.
  assert (captures_candidate p) as Hp.
  { unfold rules in Hin. apply elem_of_cons in Hin as [[= _ ->]|Hin];
      [apply pattern1_captures|].
    apply elem_of_app in Hin as [Hin|Hin].
    - apply list_elem_of_fmap in Hin as (q & [= _ ->] & Hq).
      pose proof patterns_capture as Hall. rewrite Forall_forall in Hall. by apply Hall.
    - apply list_elem_of_singleton in Hin as [= _ ->]. apply digits_pattern_captures. }
  destruct (search_candidate _ _ _ _ Hp Hs) as [Hc Hne].
  destruct (parse_volume_number_candidate_cases _ Hc Hne) as [[_ Hlong]|[n Hn]];
    [|congruence].
  pose proof (search_group1_length _ _ _ _ Hs). lia.
Qed.


(** ** Numeral parsing *)

(** Whatever non-empty text it is given, [parse_volume_number] never
    answers "no value": the Chinese conversion at its end accepts any text. *)
Lemma parse_volume_number_not_none (s : str) :
  s <> [] -> parse_volume_number s <> Val None.
Proof.
  intros Hs. unfold parse_volume_number.
  case_bool_decide; [done|].
  destruct (isdigit (strip s)).
  - destruct (py_int (strip s)); simpl; congruence.
  - destruct (Re.match_here _ _ _ _); congruence.
Qed.

(** C6, at the text [1一] (an Arabic digit followed by a Chinese numeral).
    The title [X第1一卷] matches the first pattern with that text as group 1;
    the text is not a decimal number, not a Roman numeral, and its first
    character is no Chinese numeral; [parse_volume_number] answers 0, and
    the extractor reports volume 0 for the title. *)
Theorem parse_volume_number_mixed_text :
  Re.search false pattern1 (utf8 "X第1一卷") = Some (Re.Match 1 [utf8 "1一"; []])
  /\ isdigit (utf8 "1一") = false
  /\ Re.match_here false roman_pattern (upper (utf8 "1一")) [] = None
  /\ CHINESE_NUMBERS !! utf8 "1一" = None
  /\ CHINESE_NUMBERS !! utf8 "1" = None
  /\ parse_volume_number (utf8 "1一") = Val (Some 0%Z)
  /\ extract_volume_with_context (utf8 "X第1一卷") = Val (utf8 "X", Some 0%Z).
Proof. vm_compute. repeat split. Qed.

(** C8. Formatting an integer from 0 to 99 as a Chinese numeral and parsing
    the text gives the integer back. *)
Theorem chinese_round_trip (n : Z) :
  (0 <= n <= 99)%Z -> chinese_to_int (int_to_chinese n) = n.
Proof.
  intros Hn.
  assert (forallb (fun k => (chinese_to_int (int_to_chinese (Z.of_nat k)) =? Z.of_nat k)%Z)
                  (seq 0 100) = true) as Hall by (vm_compute; reflexivity).
  rewrite forallb_forall in Hall.
  specialize (Hall (Z.to_nat n)). rewrite Z2Nat.id in Hall by lia.
  apply Z.eqb_eq, Hall, in_seq. lia.
Qed.

Lemma chinese_round_trip_witness :
  (0 <= 42 <= 99)%Z /\ chinese_to_int (int_to_chinese 42) = 42%Z.
Proof. split; [lia|]. apply (chinese_round_trip 42). lia. Defined.

(** ** Backtracking through the table of common subsequences *)

(** Each turn of the loop lowers [i + j], so [m + n] turns are enough: the
    loop has ended when [backtrack] returns. *)
Lemma backtrack_step_decreases s1 s2 dp st st' :
  backtrack_step s1 s2 dp st = Some st' ->
  (bt_i st' + bt_j st' < bt_i st + bt_j st)%nat.
Proof.
  unfold backtrack_step.
  destruct (0 <? bt_i st)%nat eqn:Hi; [|done].
  destruct (0 <? bt_j st)%nat eqn:Hj; [|done].
  apply Nat.ltb_lt in Hi, Hj. cbn [andb].
  destruct (s1 !! (bt_i st - 1)%nat) as [a|]; [|done].
  destruct (s2 !! (bt_j st - 1)%nat) as [b|]; [|done].
  destruct (a =? b)%N; [|destruct (_ <? _)%Z]; intros [= <-]; simpl; lia.
Qed.

Lemma backtrack_ends s1 s2 dp fuel st :
  (bt_i st + bt_j st <= fuel)%nat ->
  backtrack_step s1 s2 dp (backtrack fuel s1 s2 dp st) = None.
Proof.
  revert st. induction fuel as [|fuel IH]; intros st Hfuel; simpl.
  - unfold backtrack_step.
    destruct (0 <? bt_i st)%nat eqn:Hi; [|done]. apply Nat.ltb_lt in Hi. lia.
  - destruct (backtrack_step s1 s2 dp st) as [st'|] eqn:Hstep; [|done].
    apply IH. apply backtrack_step_decreases in Hstep. lia.
Qed.

(** C4, as the code has it.  When the two current characters differ and
    the cells [dp[i-1][j]] and [dp[i][j-1]] hold the same value, the loop
    lowers [j], the index into the second text, and keeps [i].  It does the
    same when [dp[i-1][j]] is the smaller of the two; it lowers [i], and
    keeps [j], only when [dp[i-1][j]] is strictly greater. *)
Theorem backtrack_tie_lowers_second_index (s1 s2 : str) (i j : nat) (chars : str) (a b : N) :
  (0 < i)%nat -> (0 < j)%nat ->
  s1 !! (i - 1)%nat = Some a -> s2 !! (j - 1)%nat = Some b -> a <> b ->
  let dp := lcs_table s1 s2 in
  (dp_get dp (i - 1) j = dp_get dp i (j - 1) ->
   backtrack_step s1 s2 dp (BtState i j chars) = Some (BtState i (j - 1) chars))
  /\ ((dp_get dp (i - 1) j < dp_get dp i (j - 1))%Z ->
      backtrack_step s1 s2 dp (BtState i j chars) = Some (BtState i (j - 1) chars))
  /\ ((dp_get dp i (j - 1) < dp_get dp (i - 1) j)%Z ->
      backtrack_step s1 s2 dp (BtState i j chars) = Some (BtState (i - 1) j chars)).
Proof.
  intros Hi Hj Ha Hb Hab dp. unfold backtrack_step. cbn [bt_i bt_j bt_chars].
  apply Nat.ltb_lt in Hi, Hj. rewrite Hi, Hj, Ha, Hb. cbn [andb].
  apply N.eqb_neq in Hab. rewrite Hab.
  split; [|split]; intros Hcells.
  - by rewrite Hcells, Z.ltb_irrefl.
  - by rewrite (proj2 (Z.ltb_ge _ _)) by lia.
  - by rewrite (proj2 (Z.ltb_lt _ _)) by lia.
Qed.

Lemma backtrack_tie_lowers_second_index_witness :
  let s1 := utf8 "ab" in
  let s2 := utf8 "ba" in
  ((0 < 2)%nat /\ s1 !! (2 - 1)%nat = Some 98%N /\ s2 !! (2 - 1)%nat = Some 97%N
   /\ 98%N <> 97%N
   /\ dp_get (lcs_table s1 s2) (2 - 1) 2 = dp_get (lcs_table s1 s2) 2 (2 - 1))
  /\ backtrack_step s1 s2 (lcs_table s1 s2) (BtState 2 2 [])
     = Some (BtState 2 (2 - 1) []).
Proof.
  intros s1 s2.
  assert (0 < 2)%nat as Hpos by lia.
  assert (s1 !! (2 - 1)%nat = Some 98%N) as Ha by reflexivity.
  assert (s2 !! (2 - 1)%nat = Some 97%N) as Hb by reflexivity.
  assert (98%N <> 97%N) as Hab by discriminate.
  assert (dp_get (lcs_table s1 s2) (2 - 1) 2 = dp_get (lcs_table s1 s2) 2 (2 - 1))
    as Htie by reflexivity.
  split; [exact (conj Hpos (conj Ha (conj Hb (conj Hab Htie))))|].
  exact (proj1 (backtrack_tie_lowers_second_index s1 s2 2 2 [] 98%N 97%N
                  Hpos Hpos Ha Hb Hab) Htie).
Defined.

(** The two strict cases, on texts of two characters.  For [xa] and [ay]
    at [i = j = 2], [dp[1][2] = 0] is below [dp[2][1] = 1]: the loop lowers
    [j], and the result is [a].  For [ax] and [ya], [dp[1][2] = 1] is above
    [dp[2][1] = 0]: the loop lowers [i], and the result is [a]. *)
Example backtrack_strict_cases :
  dp_get (lcs_table (utf8 "xa") (utf8 "ay")) 1 2 = 0%Z
  /\ dp_get (lcs_table (utf8 "xa") (utf8 "ay")) 2 1 = 1%Z
  /\ backtrack_step (utf8 "xa") (utf8 "ay") (lcs_table (utf8 "xa") (utf8 "ay"))
       (BtState 2 2 []) = Some (BtState 2 1 [])
  /\ longest_common_subsequence (utf8 "xa") (utf8 "ay") = utf8 "a"
  /\ dp_get (lcs_table (utf8 "ax") (utf8 "ya")) 1 2 = 1%Z
  /\ dp_get (lcs_table (utf8 "ax") (utf8 "ya")) 2 1 = 0%Z
  /\ backtrack_step (utf8 "ax") (utf8 "ya") (lcs_table (utf8 "ax") (utf8 "ya"))
       (BtState 2 2 []) = Some (BtState 1 2 [])
  /\ longest_common_subsequence (utf8 "ax") (utf8 "ya") = utf8 "a".
Proof. vm_compute. repeat split. Qed.

(** C4, as the claim words it, fails for the texts [ab] and [ba] at
    [i = j = 2]: the characters [b] and [a] differ, both neighbouring cells
    hold 1, and the loop goes to [(2, 1)], not to [(1, 2)]; the result is
    [b], where lowering [i] would have given [a]. *)
Lemma backtrack_tie_keeps_first_index :
  let s1 := utf8 "ab" in
  let s2 := utf8 "ba" in
  let dp := lcs_table s1 s2 in
  s1 !! 1%nat = Some 98%N /\ s2 !! 1%nat = Some 97%N
  /\ dp_get dp 1 2 = 1%Z /\ dp_get dp 2 1 = 1%Z
  /\ backtrack_step s1 s2 dp (BtState 2 2 []) = Some (BtState 2 1 [])
  /\ backtrack_step s1 s2 dp (BtState 2 2 []) <> Some (BtState 1 2 [])
  /\ longest_common_subsequence s1 s2 = utf8 "b".
Proof. vm_compute. repeat split; congruence. Qed.

(** ** Stable sorting *)

Section SortFacts.
Context {A : Type} (key : A -> Z).

Let le (x y : A) : bool := (key x <=? key y)%Z.







End SortFacts.

(** ** Volume sorting *)


Lemma books_with_volume_has db ids book_id mi :
  book_id ∈ ids -> db !! book_id = Some (Some mi) ->
  (book_id, match extract_volume_with_context (title mi) with
            | Val (_, volume) => default 0%Z volume
            | Exn => 0%Z
            end) ∈ books_with_volume db ids.
Proof.
  intros Hin Hdb. induction ids as [|x ids IH]; [by apply elem_of_nil in Hin|].
  simpl. apply elem_of_cons in Hin as [<-|Hin].
  - unfold get_metadata. rewrite Hdb.
    destruct (extract_volume_with_context (title mi)) as [[? ?]|];
      by apply elem_of_cons; left.
  - specialize (IH Hin). unfold get_metadata.
    destruct (db !! x) as [[mi'|]|]; [|done|by apply elem_of_cons; right].
    destruct (extract_volume_with_context (title mi')) as [[? ?]|];
      by apply elem_of_cons; right.
Qed.



(** ** Rename planning and the database *)

Section BatchFacts.
Variables (new_title_base author : str).
Variables (clear_tags clear_series clear_publisher : bool).
Variable volume_format : str.

Abbreviation loop := (batch_loop new_title_base author clear_tags clear_series
                             clear_publisher volume_format).
Abbreviation renewed mi total i :=
  (new_metadata mi (update_title new_title_base volume_format total i) author
                clear_tags clear_series clear_publisher).

(** Books outside the batch are left alone. *)
Lemma batch_loop_frame total items db count book_id :
  book_id ∉ items.*2 -> (loop total items db count).1 !! book_id = db !! book_id.
Proof.
  revert db count. induction items as [|[i x] items IH]; intros db count Hnot; [done|].
  simpl in *. apply not_elem_of_cons in Hnot as [Hne Hnot].
  unfold get_metadata. destruct (db !! x) as [[mi|]|] eqn:Hx; [|by apply IH..].
  rewrite IH by done. unfold set_metadata. by rewrite lookup_insert_ne.
Qed.

(** With distinct ids, the book at index [i] ends with the metadata
    built from its original metadata. *)
Lemma batch_loop_processed total items db count i book_id mi :
  NoDup items.*2 -> (i, book_id) ∈ items -> db !! book_id = Some (Some mi) ->
  (loop total items db count).1 !! book_id = Some (Some (renewed mi total i)).
Proof.
  revert db count. induction items as [|[k x] items IH]; intros db count Hnd Hin Hdb.
  { by apply elem_of_nil in Hin. }
  simpl in *. apply NoDup_cons in Hnd as [Hx Hnd].
  apply elem_of_cons in Hin as [[= -> ->]|Hin].
  - unfold get_metadata. rewrite Hdb. rewrite batch_loop_frame by done.
    unfold set_metadata. by rewrite lookup_insert_eq.
  - assert (book_id <> x) as Hne.
    { intros ->. apply Hx. apply list_elem_of_fmap. by exists (i, x). }
    unfold get_metadata. destruct (db !! x) as [[mi'|]|] eqn:Hdbx; [|by apply IH..].
    apply IH; [done..|]. unfold set_metadata. by rewrite lookup_insert_ne.
Qed.

End BatchFacts.

Lemma length_indexes n : length (indexes n) = n.
Proof. unfold indexes. by rewrite length_fmap, length_seq. Qed.

Lemma enumerate1_fst {A} (l : list A) : (enumerate1 l).*1 = indexes (length l).
Proof. unfold enumerate1. apply fst_zip. by rewrite (length_indexes (length l)). Qed.

Lemma enumerate1_snd {A} (l : list A) : (enumerate1 l).*2 = l.
Proof. unfold enumerate1. apply snd_zip. by rewrite (length_indexes (length l)). Qed.

Lemma enumerate1_lookup {A} (l : list A) k x :
  l !! k = Some x -> enumerate1 l !! k = Some (Z.of_nat (S k), x).
Proof.
  intros Hx. unfold enumerate1, indexes. rewrite lookup_zip_with, list_lookup_fmap.
  rewrite lookup_seq_lt by (by eapply lookup_lt_Some). simpl. by rewrite Hx.
Qed.

Section PlanFacts.
Variables (new_title_base author : str).
Variables (clear_tags clear_series clear_publisher : bool).
Variable volume_format : str.

(** The titles the update stores, in the order of the ids. *)
Lemma batch_update_titles db ids :
  NoDup ids -> all_present db ids ->
  stored_title
    (batch_update_metadata new_title_base author clear_tags clear_series
       clear_publisher volume_format db ids).1 <$> ids
  = (fun i => Some (update_title new_title_base volume_format
                      (Z.of_nat (length ids)) i)) <$> indexes (length ids).
Proof.
  intros Hnd Hall. apply list_eq. intros k.
  rewrite !list_lookup_fmap. unfold indexes. rewrite list_lookup_fmap.
  destruct (ids !! k) as [book_id|] eqn:Hk.
  - rewrite lookup_seq_lt by (by eapply lookup_lt_Some). simpl.
    destruct (Forall_lookup_1 _ _ _ _ Hall Hk) as [mi Hmi].
    unfold batch_update_metadata, stored_title.
    erewrite batch_loop_processed; [done| |by eapply list_elem_of_lookup_2, enumerate1_lookup|done].
    by rewrite enumerate1_snd.
  - apply lookup_ge_None in Hk. by rewrite lookup_seq_ge.
Qed.

(** Titles of at most [max_str_digits] characters are extractable. *)
Lemma extractable_short db ids :
  Forall (fun book_id =>
            forall mi, db !! book_id = Some (Some mi) ->
                       (Z.of_nat (length (title mi)) <= max_str_digits)%Z) ids ->
  extractable db ids.
Proof.
  intros Hall. eapply Forall_impl; [exact Hall|]. cbv beta.
  intros book_id Hshort mi Hmi Hexn.
  apply extract_volume_raises_long in Hexn. specialize (Hshort mi Hmi). lia.
Qed.

Lemma fetch_books_data_length db ids :
  all_present db ids -> extractable db ids ->
  length (fetch_books_data db ids) = length ids.
Proof.
  induction 1 as [|book_id ids Hmi _ IH]; simpl; [done|].
  intros [Hex Hrest]%Forall_cons.
  destruct Hmi as [mi Hmi]. unfold get_metadata. rewrite Hmi.
  specialize (Hex mi Hmi).
  destruct (extract_volume_with_context (title mi)) as [[s v]|]; [|done].
  simpl. by rewrite IH.
Qed.

(** The titles the preview shows, in the order of the ids. *)
Lemma preview_titles db ids :
  all_present db ids -> extractable db ids ->
  pv_new_title <$> preview_metadata_changes db ids new_title_base author volume_format
  = preview_title new_title_base volume_format (Z.of_nat (length ids))
      <$> indexes (length ids).
Proof.
  intros Hall Hex. unfold preview_metadata_changes.
  rewrite <- list_fmap_compose.
  rewrite <- (fetch_books_data_length db ids Hall Hex).
  rewrite <- (enumerate1_fst (fetch_books_data db ids)).
  rewrite <- list_fmap_compose. apply list_fmap_ext. by intros k [i bd] _.
Qed.

End PlanFacts.

Lemma number_is_not_chinese : utf8 "number" <> utf8 "chinese".
Proof. vm_compute. discriminate. Qed.

Lemma update_title_number base total i :
  update_title base (utf8 "number") total i
  = base ++ format_zero_padded i
              (if (total <? 10)%Z then 1 else if (total <? 100)%Z then 2 else 3)%Z.
Proof.
  unfold update_title. case_bool_decide as H; [|done].
  by destruct (number_is_not_chinese H).
Qed.

Lemma preview_title_number base total i :
  preview_title base (utf8 "number") total i
  = base ++ format_zero_padded i (ceil_log10 (total + 1)).
Proof.
  unfold preview_title. case_bool_decide as H; [|done].
  by destruct (number_is_not_chinese H).
Qed.

(** C1, as the code has it.  With the numeric style and distinct ids that
    all have metadata, on whose titles the extractor returns, a batch of 3
    gets the suffixes [1], [2], [3] (one digit, since the batch has fewer
    than 10 items), and a batch of 12 gets [01] to [12]; the update and the
    preview agree on them. *)
Theorem numeric_suffixes_of_3_and_12
    (base author : str) (clear_tags clear_series clear_publisher : bool)
    (db : database) (ids : list Z) :
  NoDup ids -> all_present db ids -> extractable db ids ->
  let db' := (batch_update_metadata base author clear_tags clear_series
                clear_publisher (utf8 "number") db ids).1 in
  let shown := pv_new_title
                 <$> preview_metadata_changes db ids base author (utf8 "number") in
  let suffixed := fun l : list string => (fun s => base ++ utf8 s) <$> l in
  (length ids = 3%nat ->
     stored_title db' <$> ids = Some <$> suffixed ["1"; "2"; "3"]%string
     /\ shown = suffixed ["1"; "2"; "3"]%string)
  /\ (length ids = 12%nat ->
        stored_title db' <$> ids
        = Some <$> suffixed ["01"; "02"; "03"; "04"; "05"; "06";
                             "07"; "08"; "09"; "10"; "11"; "12"]%string
        /\ shown = suffixed ["01"; "02"; "03"; "04"; "05"; "06";
                             "07"; "08"; "09"; "10"; "11"; "12"]%string).
Proof.
  intros Hnd Hall Hex db' shown suffixed. subst db' shown suffixed.
  rewrite batch_update_titles, preview_titles by done.
  split; intros ->; split.
  - change (indexes 3) with [1; 2; 3]%Z. simpl fmap.
    rewrite !update_title_number. reflexivity.
  - change (indexes 3) with [1; 2; 3]%Z. simpl fmap.
    rewrite !preview_title_number. reflexivity.
  - change (indexes 12) with [1; 2; 3; 4; 5; 6; 7; 8; 9; 10; 11; 12]%Z. simpl fmap.
    rewrite !update_title_number. reflexivity.
  - change (indexes 12) with [1; 2; 3; 4; 5; 6; 7; 8; 9; 10; 11; 12]%Z. simpl fmap.
    rewrite !preview_title_number. reflexivity.
Qed.

Lemma numeric_suffixes_of_3_and_12_witness :
  let db := library [(1%Z, "a"%string); (2%Z, "b"%string); (3%Z, "c"%string)] in
  let ids := [1; 2; 3]%Z in
  (NoDup ids /\ all_present db ids /\ extractable db ids /\ length ids = 3%nat)
  /\ stored_title
       (batch_update_metadata (utf8 "T") [] true true true (utf8 "number") db ids).1
       <$> ids
     = Some <$> ((fun s => utf8 "T" ++ utf8 s) <$> ["1"; "2"; "3"]%string)
  /\ pv_new_title <$> preview_metadata_changes db ids (utf8 "T") [] (utf8 "number")
     = (fun s => utf8 "T" ++ utf8 s) <$> ["1"; "2"; "3"]%string.
Proof.
  intros db ids.
  assert (NoDup ids) as Hnd.
  { apply (bool_decide_unpack _). vm_compute. exact I. }
  assert (all_present db ids) as Hall.
  { repeat constructor; eexists; vm_compute; reflexivity. }
  assert (extractable db ids) as Hex.
  { repeat constructor; intros mi Hmi; vm_compute in Hmi;
      injection Hmi as <-; vm_compute; discriminate. }
  split; [exact (conj Hnd (conj Hall (conj Hex eq_refl)))|].
  apply (numeric_suffixes_of_3_and_12 (utf8 "T") [] true true true db ids Hnd Hall Hex).
  reflexivity.
Defined.

(** C1, as the claim words it, fails for three books and the base [T]: the
    update stores, and the preview shows, [T1], [T2], [T3], not [T01],
    [T02], [T03]. *)
Lemma numeric_suffixes_of_3_are_not_padded :
  let db := library [(1%Z, "a"%string); (2%Z, "b"%string); (3%Z, "c"%string)] in
  let ids := [1; 2; 3]%Z in
  let stored :=
    stored_title
      (batch_update_metadata (utf8 "T") [] true true true (utf8 "number") db ids).1
      <$> ids in
  let shown :=
    pv_new_title <$> preview_metadata_changes db ids (utf8 "T") [] (utf8 "number") in
  stored = [Some (utf8 "T1"); Some (utf8 "T2"); Some (utf8 "T3")]
  /\ shown = [utf8 "T1"; utf8 "T2"; utf8 "T3"]
  /\ stored <> [Some (utf8 "T01"); Some (utf8 "T02"); Some (utf8 "T03")]
  /\ shown <> [utf8 "T01"; utf8 "T02"; utf8 "T03"].
Proof. vm_compute. repeat split; discriminate. Qed.

(** ** The preview against the update *)

(** [ceil_log10 x] is the least [k] with [x <= 10^k]. *)
Lemma ceil_log10_from_spec fuel k x :
  (0 <= k)%Z -> (x <= 10 ^ (k + Z.of_nat fuel))%Z -> (k = 0 \/ 10 ^ (k - 1) < x)%Z ->
  let r := ceil_log10_from fuel k (10 ^ k) x in
  (x <= 10 ^ r)%Z /\ (r = 0 \/ 10 ^ (r - 1) < x)%Z.
Proof.
  revert k. induction fuel as [|fuel IH]; intros k Hk Hfuel Hlow; simpl.
  - rewrite Z.add_0_r in Hfuel. by split.
  - destruct (Z.leb_spec x (10 ^ k)) as [Hle|Hgt]; [by split|].
    replace (10 ^ k * 10)%Z with (10 ^ (k + 1))%Z
      by (rewrite Z.pow_add_r by lia; lia).
    apply IH; [lia| |].
    + replace (k + 1 + Z.of_nat fuel)%Z with (k + Z.of_nat (S fuel))%Z by lia. done.
    + right. by replace (k + 1 - 1)%Z with k by lia.
Qed.

Lemma ceil_log10_spec x :
  (1 <= x)%Z ->
  (x <= 10 ^ ceil_log10 x)%Z /\ (ceil_log10 x = 0 \/ 10 ^ (ceil_log10 x - 1) < x)%Z.
Proof.
  intros Hx. unfold ceil_log10.
  apply (ceil_log10_from_spec _ 0 x); [lia| |by left].
  pose proof (Z.log2_spec x ltac:(lia)) as [_ Hlog].
  pose proof (Z.log2_nonneg x) as Hnn.
  rewrite Nat2Z.inj_succ, Z2Nat.id by lia. rewrite Z.add_0_l.
  etrans; [apply Z.lt_le_incl, Hlog|].
  apply Z.pow_le_mono_l. lia.
Qed.

Lemma digits_agree_below_1000 (total : Z) :
  (0 < total < 1000)%Z ->
  ceil_log10 (total + 1)
  = (if (total <? 10)%Z then 1 else if (total <? 100)%Z then 2 else 3)%Z.
Proof.
  intros Ht.
  assert (forallb (fun k => let t := Z.of_nat k in
                     (ceil_log10 (t + 1)
                      =? (if (t <? 10)%Z then 1 else if (t <? 100)%Z then 2 else 3))%Z)
                  (seq 1 999) = true) as Hall by (vm_compute; reflexivity).
  rewrite forallb_forall in Hall.
  specialize (Hall (Z.to_nat total)). cbv zeta in Hall. rewrite Z2Nat.id in Hall by lia.
  apply Z.eqb_eq, Hall, in_seq. lia.
Qed.

(** Below 1000 books (distinct, all with metadata and a title on which the
    extractor returns) the preview shows the titles that the update stores,
    in either numbering style. *)
Lemma preview_agrees_below_1000
    (base author volume_format : str) (clear_tags clear_series clear_publisher : bool)
    (db : database) (ids : list Z) :
  NoDup ids -> all_present db ids -> extractable db ids -> (length ids < 1000)%nat ->
  stored_title
    (batch_update_metadata base author clear_tags clear_series clear_publisher
       volume_format db ids).1 <$> ids
  = Some <$> (pv_new_title
                <$> preview_metadata_changes db ids base author volume_format).
Proof.
  intros Hnd Hall Hex Hlen. rewrite batch_update_titles, preview_titles by done.
  rewrite <- list_fmap_compose. apply list_fmap_ext. intros k i Hi. simpl. f_equal.
  unfold update_title, preview_title. case_bool_decide; [done|].
  rewrite digits_agree_below_1000; [done|].
  apply lookup_lt_Some in Hi. rewrite length_indexes in Hi. lia.
Qed.

(** C2, for a batch of 1000 books with the ids 1 to 1000, the base [T] and
    the numeric style, as the dialog calls the two functions.  The update
    pads to 3 digits and stores [T001] for the first book; the preview pads
    to 4 digits and shows [T0001].  The two lists differ at each of the
    first 999 positions. *)
Theorem preview_differs_at_1000 :
  let db := numbered_library 1000 in
  let ids := indexes 1000 in
  let stored :=
    stored_title
      (batch_update_metadata (utf8 "T") [] true true true (utf8 "number") db ids).1
      <$> ids in
  let shown :=
    pv_new_title <$> preview_metadata_changes db ids (utf8 "T") [] (utf8 "number") in
  NoDup ids /\ length stored = 1000%nat /\ length shown = 1000%nat
  /\ stored !! 0%nat = Some (Some (utf8 "T001")) /\ shown !! 0%nat = Some (utf8 "T0001")
  /\ stored !! 998%nat = Some (Some (utf8 "T999")) /\ shown !! 998%nat = Some (utf8 "T0999")
  /\ forallb (fun p => negb (bool_decide (fst p = Some (snd p))))
             (take 999 (zip stored shown)) = true.
Proof.
  intros db ids stored shown. split.
  - apply (bool_decide_unpack _). vm_compute. exact I.
  - vm_compute. repeat split.
Qed.

(** ** The clear flags *)

Section ClearFlags.
Variables (new_title_base author : str).
Variables (clear_tags clear_series clear_publisher : bool).
Variable volume_format : str.





End ClearFlags.


(** ** Determinism of the base title *)

Lemma elements_admissible : admissible elements.
Proof. by intros s. Qed.

Lemma reverse_iteration_admissible : admissible reverse_iteration.
Proof. intros s. unfold reverse_iteration. apply reverse_Permutation. Qed.

(** C9, for the titles [foo bar] and [bar foo].  No volume is found, the
    common prefix is empty and the longest common subsequence has 3
    characters, so the base title is made of the common words [foo] and
    [bar], which have the same length: it is [bar foo] for one iteration
    order of the set of common words and [foo bar] for the other. *)
Theorem base_title_follows_set_order :
  let titles := [utf8 "foo bar"; utf8 "bar foo"] in
  admissible elements /\ admissible reverse_iteration
  /\ find_common_words elements titles = [utf8 "bar"; utf8 "foo"]
  /\ find_common_words reverse_iteration titles = [utf8 "foo"; utf8 "bar"]
  /\ extract_base_title elements titles = Val (utf8 "bar foo")
  /\ extract_base_title reverse_iteration titles = Val (utf8 "foo bar")
  /\ extract_base_title elements titles <> extract_base_title reverse_iteration titles.
Proof.
  intros titles.
  split; [apply elements_admissible|]. split; [apply reverse_iteration_admissible|].
  vm_compute. repeat split. discriminate.
Qed.

(** * Further properties *)

(** ** Chinese numerals: the table and positional parsing *)

Lemma chinese_to_int_loop_cons char rest v :
  chinese_to_int_loop (char :: rest) v =
  match CHINESE_NUMBERS !! [char] with
  | Some num =>
      if (10 <=? num)%Z then
        chinese_to_int_loop rest
          (CnVars (cn_result v + (if (cn_temp v =? 0)%Z then 1 else cn_temp v) * num) 0 num)
      else chinese_to_int_loop rest (CnVars (cn_result v) num (cn_last_unit v))
  | None => v
  end.
Proof. reflexivity. Qed.

(** Facts about every entry of [CHINESE_NUMBERS], checked entry by entry:
    the value is not negative, the key is made of characters that are keys
    themselves, and positional parsing of the key gives the value. *)
Lemma chinese_table_entries k v :
  CHINESE_NUMBERS !! k = Some v ->
  (0 <= v)%Z
  /\ Forall (fun c => is_Some (CHINESE_NUMBERS !! [c])) k
  /\ positional_value k = v.
Proof.
  intros Hk. apply elem_of_map_to_list in Hk.
  assert (forallb (fun e =>
            (0 <=? snd e)%Z
            && forallb (fun c => bool_decide (is_Some (CHINESE_NUMBERS !! [c]))) (fst e)
            && (positional_value (fst e) =? snd e)%Z)
            (map_to_list CHINESE_NUMBERS) = true) as Hall by (vm_compute; reflexivity).
  rewrite forallb_forall in Hall. apply list_elem_of_In, Hall in Hk. cbn [fst snd] in Hk.
  apply andb_true_iff in Hk as [Hk Hloop]. apply andb_true_iff in Hk as [Hv Hchars].
  split; [by apply Z.leb_le|]. split; [|by apply Z.eqb_eq].
  apply Forall_forall. intros c Hc. rewrite forallb_forall in Hchars.
  eapply bool_decide_eq_true, Hchars. by apply list_elem_of_In.
Qed.

Lemma chinese_to_int_sum (s : str) : chinese_to_int s = positional_value s.
Proof.
  unfold chinese_to_int. case_bool_decide as Hs; [by subst s|].
  destruct (CHINESE_NUMBERS !! s) as [v|] eqn:Hv; [|done].
  by destruct (chinese_table_entries s v Hv) as (_ & _ & <-).
Qed.

(** The exact lookup at the end of [chinese_to_int] never changes the
    result: for every text, the answer is the total of the positional
    loop plus the pending digit. *)
Theorem chinese_to_int_positional (s : str) :
  chinese_to_int s = positional_value s.
Proof. apply chinese_to_int_sum. Qed.

Lemma chinese_to_int_loop_stops s c t v :
  CHINESE_NUMBERS !! [c] = None ->
  chinese_to_int_loop (s ++ c :: t) v = chinese_to_int_loop s v.
Proof.
  intros Hc. revert v. induction s as [|x s IH]; intros v.
  - rewrite app_nil_l, chinese_to_int_loop_cons. by rewrite Hc.
  - rewrite <- app_comm_cons, !chinese_to_int_loop_cons.
    destruct (CHINESE_NUMBERS !! [x]) as [num|]; [|done].
    destruct (10 <=? num)%Z; apply IH.
Qed.

(** Parsing stops at the first character that is not in the table: what
    follows it has no influence on the result. *)
Theorem chinese_to_int_stops_at_unknown (s t : str) (c : N) :
  CHINESE_NUMBERS !! [c] = None ->
  chinese_to_int (s ++ c :: t) = chinese_to_int s.
Proof.
  intros Hc. rewrite !chinese_to_int_sum. unfold positional_value.
  by rewrite chinese_to_int_loop_stops.
Qed.

Lemma chinese_to_int_stops_at_unknown_witness :
  CHINESE_NUMBERS !! [88%N] = None
  /\ chinese_to_int (utf8 "二十" ++ 88%N :: utf8 "五") = chinese_to_int (utf8 "二十").
Proof.
  split; [vm_compute; reflexivity|].
  apply (chinese_to_int_stops_at_unknown (utf8 "二十") (utf8 "五") 88%N).
  vm_compute. reflexivity.
Defined.

Lemma chinese_to_int_loop_nonneg s v :
  (0 <= cn_result v)%Z -> (0 <= cn_temp v)%Z ->
  (0 <= cn_result (chinese_to_int_loop s v))%Z
  /\ (0 <= cn_temp (chinese_to_int_loop s v))%Z.
Proof.
  revert v. induction s as [|x s IH]; intros v Hr Ht; [done|].
  rewrite chinese_to_int_loop_cons.
  destruct (CHINESE_NUMBERS !! [x]) as [num|] eqn:Hx; [|done].
  destruct (chinese_table_entries _ _ Hx) as (Hnum & _ & _).
  destruct (10 <=? num)%Z; apply IH; cbn [cn_result cn_temp]; try done.
  destruct (cn_temp v =? 0)%Z; nia.
Qed.

(** [chinese_to_int] never returns a negative number. *)
Theorem chinese_to_int_nonneg (s : str) : (0 <= chinese_to_int s)%Z.
Proof.
  rewrite chinese_to_int_sum. unfold positional_value.
  destruct (chinese_to_int_loop_nonneg s (CnVars 0 0 1)) as [Hr Ht];
    cbn [cn_result cn_temp]; lia.
Qed.

(** ** Decimal texts *)

Lemma int_digits_cons acc c s :
  int_digits acc (c :: s) =
  match decimal_value c with
  | Some d => int_digits (acc * 10 + d)%Z s
  | None => Exn
  end.
Proof. reflexivity. Qed.

Lemma int_digits_uint_acc u p :
  int_digits (Z.pos p) (uint_str u) = Val (Z.pos (Pos.of_uint_acc u p)).
Proof.
  revert p. induction u as [|u IH|u IH|u IH|u IH|u IH|u IH|u IH|u IH|u IH|u IH];
    intros p; [done|..]; cbn [uint_str Pos.of_uint_acc]; rewrite int_digits_cons.
  - change (decimal_value 48) with (Some 0%Z). rewrite <- IH. f_equal. lia.
  - change (decimal_value 49) with (Some 1%Z). rewrite <- IH. f_equal. lia.
  - change (decimal_value 50) with (Some 2%Z). rewrite <- IH. f_equal. lia.
  - change (decimal_value 51) with (Some 3%Z). rewrite <- IH. f_equal. lia.
  - change (decimal_value 52) with (Some 4%Z). rewrite <- IH. f_equal. lia.
  - change (decimal_value 53) with (Some 5%Z). rewrite <- IH. f_equal. lia.
  - change (decimal_value 54) with (Some 6%Z). rewrite <- IH. f_equal. lia.
  - change (decimal_value 55) with (Some 7%Z). rewrite <- IH. f_equal. lia.
  - change (decimal_value 56) with (Some 8%Z). rewrite <- IH. f_equal. lia.
  - change (decimal_value 57) with (Some 9%Z). rewrite <- IH. f_equal. lia.
Qed.

Lemma int_digits_uint u :
  int_digits 0 (uint_str u) = Val (Z.of_N (Pos.of_uint u)).
Proof.
  induction u as [|u IH|u IH|u IH|u IH|u IH|u IH|u IH|u IH|u IH|u IH];
    [done|..]; cbn [uint_str Pos.of_uint]; rewrite int_digits_cons.
  - change (decimal_value 48) with (Some 0%Z). exact IH.
  - change (decimal_value 49) with (Some 1%Z). apply int_digits_uint_acc.
  - change (decimal_value 50) with (Some 2%Z). apply int_digits_uint_acc.
  - change (decimal_value 51) with (Some 3%Z). apply int_digits_uint_acc.
  - change (decimal_value 52) with (Some 4%Z). apply int_digits_uint_acc.
  - change (decimal_value 53) with (Some 5%Z). apply int_digits_uint_acc.
  - change (decimal_value 54) with (Some 6%Z). apply int_digits_uint_acc.
  - change (decimal_value 55) with (Some 7%Z). apply int_digits_uint_acc.
  - change (decimal_value 56) with (Some 8%Z). apply int_digits_uint_acc.
  - change (decimal_value 57) with (Some 9%Z). apply int_digits_uint_acc.
Qed.

Lemma int_digits_zeros k s :
  int_digits 0 (replicate k 48%N ++ s) = int_digits 0 s.
Proof.
  induction k as [|k IH]; [done|].
  cbn [replicate app]. rewrite int_digits_cons.
  change (decimal_value 48) with (Some 0%Z). exact IH.
Qed.

Lemma to_int_nonneg n :
  (0 <= n)%Z -> exists u, Z.to_int n = Decimal.Pos u /\ Pos.of_uint u = Z.to_N n
                          /\ u <> Decimal.Nil.
Proof.
  intros Hn. destruct n as [|p|p]; [| |lia].
  - by exists Decimal.zero.
  - exists (Pos.to_uint p). split; [done|]. split.
    + apply Unsigned.of_to.
    + apply Unsigned.to_uint_nonnil.
Qed.

Lemma int_digits_zero_padded (i digits : Z) :
  (0 <= i)%Z -> int_digits 0 (format_zero_padded i digits) = Val i.
Proof.
  intros Hi. destruct (to_int_nonneg i Hi) as (u & Hu & Hof & _).
  unfold format_zero_padded. rewrite Hu.
  rewrite int_digits_zeros, int_digits_uint, Hof. f_equal; lia.
Qed.

Lemma int_digits_py_str (i : Z) : (0 <= i)%Z -> int_digits 0 (py_str i) = Val i.
Proof.
  intros Hi. destruct (to_int_nonneg i Hi) as (u & Hu & Hof & _).
  unfold py_str. rewrite Hu.
  rewrite int_digits_uint, Hof. f_equal; lia.
Qed.

(** The value of a decimal text is at least what stands before it, shifted
    by the length of the text. *)
Lemma int_digits_lower s acc v :
  int_digits acc s = Val v -> (0 <= acc)%Z ->
  (acc * 10 ^ Z.of_nat (length s) <= v)%Z.
Proof.
  revert acc. induction s as [|c s IH]; intros acc.
  - intros [= <-] _. simpl. lia.
  - rewrite int_digits_cons.
    destruct (decimal_value c) as [d|] eqn:Hd; [|done].
    assert (0 <= d)%Z as Hd0.
    { unfold decimal_value in Hd. destruct (List.find _ _); [|done].
      injection Hd as <-. apply N2Z.is_nonneg. }
    intros Hv Hacc. apply IH in Hv; [|lia].
    cbn [length]. rewrite Nat2Z.inj_succ, Z.pow_succ_r by lia.
    pose proof (Z.pow_pos_nonneg 10 (Z.of_nat (length s)) ltac:(lia) ltac:(lia)). nia.
Qed.

(** A decimal text without leading zero has no more digits than its value
    allows. *)
Lemma uint_str_magnitude u v :
  Decimal.unorm u = u -> u <> Decimal.zero ->
  int_digits 0 (uint_str u) = Val v ->
  (10 ^ (Z.of_nat (length (uint_str u)) - 1) <= v)%Z.
Proof.
  intros Hnorm Hnz.
  assert (forall d c u', (1 <= d)%Z -> decimal_value c = Some d ->
            int_digits 0 (c :: uint_str u') = Val v ->
            (10 ^ (Z.of_nat (length (c :: uint_str u')) - 1) <= v)%Z) as Hlead.
  { intros d c u' Hd Hc. rewrite int_digits_cons, Hc. intros Hv%int_digits_lower; [|lia].
    cbn [length]. replace (Z.of_nat (S (length (uint_str u'))) - 1)%Z
      with (Z.of_nat (length (uint_str u'))) by lia.
    pose proof (Z.pow_pos_nonneg 10 (Z.of_nat (length (uint_str u'))) ltac:(lia) ltac:(lia)).
    nia. }
  destruct u as [|u|u|u|u|u|u|u|u|u|u]; cbn [uint_str].
  - done.
  - exfalso. assert (u <> Decimal.Nil) as Hu by (by intros ->).
    pose proof (DecimalFacts.nb_digits_unorm u Hu) as Hlen.
    rewrite DecimalFacts.unorm_D0 in Hnorm. rewrite Hnorm in Hlen. simpl in Hlen. lia.
  - by apply (Hlead 1%Z).
  - by apply (Hlead 2%Z).
  - by apply (Hlead 3%Z).
  - by apply (Hlead 4%Z).
  - by apply (Hlead 5%Z).
  - by apply (Hlead 6%Z).
  - by apply (Hlead 7%Z).
  - by apply (Hlead 8%Z).
  - by apply (Hlead 9%Z).
Qed.

(** [str(n)] has at most [k] characters when [0 <= n < 10 ^ k]. *)
Lemma length_py_str (n k : Z) :
  (0 <= n < 10 ^ k)%Z -> (0 < k)%Z -> (Z.of_nat (length (py_str n)) <= k)%Z.
Proof.
  intros Hn Hk. destruct n as [|p|p]; [simpl; lia| |lia].
  pose proof (int_digits_py_str (Z.pos p) ltac:(lia)) as Hv.
  unfold py_str in *. cbn [Z.to_int] in *.
  apply uint_str_magnitude in Hv.
  - destruct (Z.le_gt_cases (Z.of_nat (length (uint_str (Pos.to_uint p)))) k) as [|Hgt];
      [done|].
    assert (10 ^ k <= 10 ^ (Z.of_nat (length (uint_str (Pos.to_uint p))) - 1))%Z
      by (apply Z.pow_le_mono_r; lia).
    lia.
  - rewrite <- (Unsigned.to_of (Pos.to_uint p)), Unsigned.of_to. done.
  - apply Unsigned.to_uint_nonzero.
Qed.

Lemma length_format_zero_padded (i digits k : Z) :
  (0 <= i < 10 ^ k)%Z -> (0 < k)%Z -> (digits <= k)%Z ->
  (Z.of_nat (length (format_zero_padded i digits)) <= k)%Z.
Proof.
  intros Hi Hk Hd. pose proof (length_py_str i k Hi Hk) as Hlen.
  destruct (to_int_nonneg i ltac:(lia)) as (u & Hu & _).
  unfold format_zero_padded, py_str in *. rewrite Hu in *.
  rewrite length_app, length_replicate. lia.
Qed.

Lemma py_int_zero_padded (i digits : Z) :
  (0 <= i < 10 ^ max_str_digits)%Z -> (digits <= max_str_digits)%Z ->
  py_int (format_zero_padded i digits) = Val i.
Proof.
  intros Hi Hd. rewrite py_int_short; [apply int_digits_zero_padded; lia|].
  by apply length_format_zero_padded.
Qed.

Lemma py_int_py_str (i : Z) :
  (0 <= i < 10 ^ max_str_digits)%Z -> py_int (py_str i) = Val i.
Proof.
  intros Hi. rewrite py_int_short; [apply int_digits_py_str; lia|].
  by apply length_py_str.
Qed.

(** [int(f"{i:0{digits}d}") == i] and [int(str(i)) == i] for [i >= 0], as
    long as the texts stay within [max_str_digits] digits. *)
Theorem zero_padded_round_trip (i digits : Z) :
  (0 <= i < 10 ^ max_str_digits)%Z -> (digits <= max_str_digits)%Z ->
  py_int (format_zero_padded i digits) = Val i /\ py_int (py_str i) = Val i.
Proof.
  intros Hi Hd. split; [by apply py_int_zero_padded|by apply py_int_py_str].
Qed.

(** [10 ^ max_str_digits] exceeds every number of at most 64 bits. *)
Lemma small_below_limit (n : Z) : (n < 2 ^ 64)%Z -> (n < 10 ^ max_str_digits)%Z.
Proof.
  intros Hn. unfold max_str_digits.
  assert (2 ^ 64 <= 10 ^ 20)%Z by (vm_compute; discriminate).
  assert (10 ^ 20 <= 10 ^ 4300)%Z by (apply Z.pow_le_mono_r; lia).
  lia.
Qed.

Lemma zero_padded_round_trip_witness :
  ((0 <= 7 < 10 ^ max_str_digits)%Z /\ (3 <= max_str_digits)%Z)
  /\ py_int (format_zero_padded 7 3) = Val 7%Z /\ py_int (py_str 7) = Val 7%Z.
Proof.
  assert (0 <= 7 < 10 ^ max_str_digits)%Z as Hi
    by (split; [lia|apply small_below_limit; lia]).
  assert (3 <= max_str_digits)%Z as Hd by (unfold max_str_digits; lia).
  split; [exact (conj Hi Hd)|]. exact (zero_padded_round_trip 7 3 Hi Hd).
Defined.

Lemma ascii_digit_facts c :
  (48 <= c <= 57)%N ->
  isdigit_cp c = true /\ isdecimal c = true /\ isspace c = false.
Proof.
  intros Hc.
  assert (c ∈ (fun k => (48 + N.of_nat k)%N) <$> seq 0 10) as Hin.
  { apply list_elem_of_fmap. exists (N.to_nat (c - 48)). split; [lia|].
    apply elem_of_seq. lia. }
  assert (forallb (fun c => isdigit_cp c && isdecimal c && negb (isspace c))
            ((fun k => (48 + N.of_nat k)%N) <$> seq 0 10) = true) as Hall
    by (vm_compute; reflexivity).
  rewrite forallb_forall in Hall. apply list_elem_of_In, Hall in Hin.
  apply andb_true_iff in Hin as [Hin Hs]. apply andb_true_iff in Hin as [Hd Hdec].
  by apply negb_true_iff in Hs.
Qed.

Lemma uint_str_digits u : Forall (fun c => (48 <= c <= 57)%N) (uint_str u).
Proof. induction u; cbn [uint_str]; constructor; (lia || done). Qed.

Lemma uint_str_nonnil u : u <> Decimal.Nil -> uint_str u <> [].
Proof. by destruct u. Qed.

Lemma forallb_Forall {A} (f : A -> bool) l :
  forallb f l = true <-> Forall (fun x => f x = true) l.
Proof.
  rewrite forallb_forall, Forall_forall. split; intros H x Hx; apply H.
  - by apply list_elem_of_In.
  - by apply list_elem_of_In.
Qed.

(** On the decimal text of [n >= 0], [parse_volume_number] is [int]. *)
Lemma parse_volume_number_py_str_int (n : Z) :
  (0 <= n)%Z -> parse_volume_number (py_str n) = v ← py_int (py_str n); Val (Some v).
Proof.
  intros Hn. destruct (to_int_nonneg n Hn) as (u & Hu & _ & Hnil).
  assert (py_str n = uint_str u) as Hstr by (unfold py_str; by rewrite Hu).
  pose proof (uint_str_digits u) as Hd. rewrite <- Hstr in Hd.
  apply parse_volume_number_decimals.
  - rewrite Hstr. by apply uint_str_nonnil.
  - eapply Forall_impl; [exact Hd|]. intros c Hc. by apply ascii_digit_facts.
Qed.

Lemma parse_volume_number_py_str (n : Z) :
  (0 <= n < 10 ^ max_str_digits)%Z -> parse_volume_number (py_str n) = Val (Some n).
Proof.
  intros Hn. rewrite parse_volume_number_py_str_int by lia.
  by rewrite py_int_py_str.
Qed.

(** A volume written in decimal digits is parsed to its value:
    [parse_volume_number(str(n)) == n] for [0 <= n < 10 ^ max_str_digits],
    the numbers that [str] converts. *)
Theorem parse_volume_number_decimal (n : Z) :
  (0 <= n < 10 ^ max_str_digits)%Z -> parse_volume_number (py_str n) = Val (Some n).
Proof. apply parse_volume_number_py_str. Qed.

Lemma parse_volume_number_decimal_witness :
  (0 <= 2024 < 10 ^ max_str_digits)%Z
  /\ parse_volume_number (py_str 2024) = Val (Some 2024%Z).
Proof.
  assert (0 <= 2024 < 10 ^ max_str_digits)%Z as Hn
    by (split; [lia|apply small_below_limit; lia]).
  split; [exact Hn|]. exact (parse_volume_number_decimal 2024 Hn).
Defined.

Lemma parse_int_to_chinese (n : Z) :
  (0 <= n < 10 ^ max_str_digits)%Z ->
  parse_volume_number (int_to_chinese n) = Val (Some n).
Proof.
  intros Hn. destruct (Z.ltb_spec n 100) as [Hlt|Hge].
  - assert (forallb (fun k =>
              match parse_volume_number (int_to_chinese (Z.of_nat k)) with
              | Val (Some v) => (v =? Z.of_nat k)%Z
              | _ => false
              end) (seq 0 100) = true) as Hall by (vm_compute; reflexivity).
    rewrite forallb_forall in Hall.
    specialize (Hall (Z.to_nat n)). rewrite Z2Nat.id in Hall by lia.
    destruct (parse_volume_number (int_to_chinese n)) as [[v|]|];
      try (discriminate Hall; apply in_seq; lia).
    f_equal. f_equal. apply Z.eqb_eq, Hall, in_seq. lia.
  - unfold int_to_chinese.
    rewrite (proj2 (Z.leb_gt n 0)), !(proj2 (Z.ltb_ge _ _)) by lia.
    by apply parse_volume_number_py_str.
Qed.

(** Every index below [10 ^ max_str_digits] that [int_to_chinese] formats
    is parsed back by [parse_volume_number]: as a Chinese numeral up to 99,
    and as the decimal text that [int_to_chinese] falls back to from 100
    on. *)
Theorem parse_volume_number_of_int_to_chinese (n : Z) :
  (0 <= n < 10 ^ max_str_digits)%Z ->
  parse_volume_number (int_to_chinese n) = Val (Some n).
Proof. apply parse_int_to_chinese. Qed.

Lemma parse_volume_number_of_int_to_chinese_witness :
  (0 <= 120 < 10 ^ max_str_digits)%Z
  /\ parse_volume_number (int_to_chinese 120) = Val (Some 120%Z).
Proof.
  assert (0 <= 120 < 10 ^ max_str_digits)%Z as Hn
    by (split; [lia|apply small_below_limit; lia]).
  split; [exact Hn|]. exact (parse_volume_number_of_int_to_chinese 120 Hn).
Defined.

Lemma decimal_value_None c : isdecimal c = false -> decimal_value c = None.
Proof.
  unfold isdecimal, in_ranges, decimal_value. intros Hc.
  destruct (List.find _ decimal_ranges) as [r|] eqn:Hf; [|done].
  apply find_some in Hf as [Hin Hr].
  assert (existsb (fun r => (fst r <=? c)%N && (c <=? snd r)%N) decimal_ranges = true)
    as Hex by (apply existsb_exists; eauto).
  congruence.
Qed.

Lemma int_digits_raises acc s :
  int_digits acc s = Exn <-> Exists (fun c => isdecimal c = false) s.
Proof.
  revert acc. induction s as [|c s IH]; intros acc.
  - split; [done|]. intros H. by apply Exists_nil in H.
  - rewrite int_digits_cons, Exists_cons. destruct (isdecimal c) eqn:Hc.
    + destruct (decimal_value_is_Some c Hc) as [d ->]. rewrite IH.
      split; [by right|]. by intros [?|?].
    + rewrite decimal_value_None by done. split; [by left|done].
Qed.

(** [parse_volume_number] raises exactly when the text, once stripped,
    passes [isdigit] and [int] rejects it: it has more than
    [max_str_digits] digits, or it holds a digit that is not a decimal digit
    (a superscript or circled digit).  The call is not inside the
    function's [try] blocks. *)
Theorem parse_volume_number_raises (s : str) :
  parse_volume_number s = Exn <->
  isdigit (strip s) = true
  /\ ((max_str_digits < Z.of_nat (length (strip s)))%Z
      \/ Exists (fun c => isdecimal c = false) (strip s)).
Proof.
  unfold parse_volume_number. case_bool_decide as Hs.
  - subst s. split; [done|]. by intros [? _].
  - destruct (isdigit (strip s)) eqn:Hd.
    + destruct (Z.ltb_spec max_str_digits (Z.of_nat (length (strip s)))) as [Hlong|Hshort].
      * rewrite py_int_long by done. split; [by auto|done].
      * rewrite py_int_short by done. rewrite <- (int_digits_raises 0).
        destruct (int_digits 0 (strip s)); simpl; split; try done.
        -- intros [_ [?|?]]; [lia|done].
        -- by auto.
    + destruct (Re.match_here _ _ _ _); split; try done; by intros [? _].
Qed.

Lemma parse_volume_number_raises_witness :
  (isdigit (strip [178%N]) = true
   /\ ((max_str_digits < Z.of_nat (length (strip [178%N])))%Z
       \/ Exists (fun c => isdecimal c = false) (strip [178%N])))
  /\ parse_volume_number [178%N] = Exn.
Proof.
  assert (isdigit (strip [178%N]) = true
          /\ ((max_str_digits < Z.of_nat (length (strip [178%N])))%Z
              \/ Exists (fun c => isdecimal c = false) (strip [178%N]))) as H.
  { split; [vm_compute; reflexivity|]. right. apply Exists_cons_hd. vm_compute. reflexivity. }
  split; [exact H|]. exact (proj2 (parse_volume_number_raises [178%N]) H).
Defined.

(** 4301 times the digit [1]: every character is a decimal digit, and
    parsing raises; with 4300 digits it returns. *)
Example parse_volume_number_long_text :
  parse_volume_number (replicate 4301 49%N) = Exn
  /\ Forall (fun c => isdecimal c = true) (replicate 4301 49%N)
  /\ exists v, parse_volume_number (replicate 4300 49%N) = Val (Some v).
Proof.
  split; [vm_compute; reflexivity|]. split.
  - apply Forall_replicate. vm_compute. reflexivity.
  - eexists. vm_compute. reflexivity.
Qed.

(** ** Matching, item by item *)

Section Matching.
Variable ignorecase : bool.

Lemma match_here_One cs p c s gs :
  Re.match_here ignorecase (Re.One cs :: p) (c :: s) gs
  = if Re.in_charset ignorecase cs c then Re.match_here ignorecase p s gs else None.
Proof. reflexivity. Qed.

Lemma match_here_Plus cs g p s gs :
  Re.match_here ignorecase (Re.Plus cs g :: p) s gs
  = Re.greedy_plus ignorecase cs
      (fun taken rest =>
         Re.match_here ignorecase p rest (if g then gs ++ [taken] else gs)) s [].
Proof. reflexivity. Qed.

Lemma match_here_LazyStar cs g p s gs :
  Re.match_here ignorecase (Re.LazyStar cs g :: p) s gs
  = Re.lazy_star ignorecase cs
      (fun taken rest =>
         Re.match_here ignorecase p rest (if g then gs ++ [taken] else gs)) s [].
Proof. reflexivity. Qed.

Lemma match_here_Eos p s gs :
  Re.match_here ignorecase (Re.Eos :: p) s gs
  = if Re.at_end s then Re.match_here ignorecase p s gs else None.
Proof. reflexivity. Qed.

Lemma greedy_plus_cons cs k c s taken :
  Re.greedy_plus ignorecase cs k (c :: s) taken
  = if Re.in_charset ignorecase cs c then
      match Re.greedy_plus ignorecase cs k s (taken ++ [c]) with
      | Some r => Some r
      | None => k (taken ++ [c]) s
      end
    else None.
Proof. reflexivity. Qed.

(** A greedy [+] takes a whole run of the class when the rest of the
    pattern matches after the run and the run cannot be extended. *)
Lemma greedy_plus_run cs k run rest taken r :
  run <> [] ->
  within ignorecase cs run ->
  match rest with [] => True | c :: _ => Re.in_charset ignorecase cs c = false end ->
  k (taken ++ run) rest = Some r ->
  Re.greedy_plus ignorecase cs k (run ++ rest) taken = Some r.
Proof.
  intros Hne Hrun Hstop. revert taken.
  induction Hrun as [|c run Hc Hrun IH]; [done|]. intros taken Hk.
  rewrite <- app_comm_cons, greedy_plus_cons, Hc.
  destruct run as [|c' run'].
  - rewrite app_nil_l.
    assert (Re.greedy_plus ignorecase cs k rest (taken ++ [c]) = None) as ->.
    { destruct rest as [|d rest']; [done|]. by rewrite greedy_plus_cons, Hstop. }
    done.
  - rewrite IH; [done|done|]. by rewrite <- app_assoc.
Qed.

Lemma lazy_star_cons cs k c s taken :
  Re.lazy_star ignorecase cs k (c :: s) taken
  = match k taken (c :: s) with
    | Some r => Some r
    | None =>
        if Re.in_charset ignorecase cs c
        then Re.lazy_star ignorecase cs k s (taken ++ [c]) else None
    end.
Proof. reflexivity. Qed.

Lemma in_charset_dot c : c <> 10%N -> Re.in_charset ignorecase Re.dot c = true.
Proof.
  intros Hc. unfold Re.in_charset, Re.dot.
  cbn [Re.cs_negated Re.cs_chars Re.cs_ranges Re.cs_cats].
  destruct ignorecase; cbn [existsb in_ranges orb].
  - assert ((fold_case 10 =? fold_case c)%N = false) as ->; [|done].
    apply N.eqb_neq. change (fold_case 10) with 10%N. unfold fold_case.
    destruct ((65 <=? c)%N && (c <=? 90)%N) eqn:H1.
    + apply andb_true_iff in H1 as [H1 _]. apply N.leb_le in H1. lia.
    + destruct ((c =? 304)%N || (c =? 305)%N); [lia|congruence].
  - rewrite bool_decide_eq_false_2; [done|].
    intros Hin. by apply list_elem_of_singleton in Hin.
Qed.

(** A lazy [.*?] before [$] runs to the end of a text without line feed. *)
Lemma lazy_dot_to_end (f : str -> list str) k s taken :
  (forall t r, k t r = if Re.at_end r then Some (f t) else None) ->
  Forall (fun c => c <> 10%N) s ->
  Re.lazy_star ignorecase Re.dot k s taken = Some (f (taken ++ s)).
Proof.
  intros Hk Hs. revert taken. induction Hs as [|c s Hc _ IH]; intros taken.
  - simpl. rewrite Hk. simpl. by rewrite app_nil_r.
  - rewrite lazy_star_cons, Hk.
    assert (Re.at_end (c :: s) = false) as ->.
    { unfold Re.at_end. rewrite !bool_decide_eq_false_2; [done| |done].
      intros [= -> _]. done. }
    rewrite in_charset_dot by done.
    rewrite IH. by rewrite <- app_assoc.
Qed.

(** [re.search] passes over a stretch of text in which the first item of
    the pattern matches nowhere. *)
Lemma search_from_skip cs p skipped rest pos :
  Forall (fun c => Re.in_charset ignorecase cs c = false) skipped ->
  Re.search_from ignorecase (Re.One cs :: p) (skipped ++ rest) pos
  = Re.search_from ignorecase (Re.One cs :: p) rest (pos + length skipped).
Proof.
  intros Hs. revert pos. induction Hs as [|c s Hc _ IH]; intros pos.
  - simpl. by rewrite Nat.add_0_r.
  - rewrite <- app_comm_cons. cbn [Re.search_from]. rewrite match_here_One, Hc.
    rewrite IH. simpl. f_equal. lia.
Qed.

End Matching.

(** ** The explicit marker *)

Lemma in_charset_single c x :
  Re.in_charset false (Re.chars [x]) c = bool_decide (c = x).
Proof.
  unfold Re.in_charset, Re.chars.
  cbn [Re.cs_negated Re.cs_chars Re.cs_ranges Re.cs_cats existsb in_ranges xorb].
  rewrite !orb_false_r. apply bool_decide_ext. apply list_elem_of_singleton.
Qed.

Lemma keyword_facts kw :
  kw ∈ VOLUME_KEYWORDS ->
  Re.in_charset false cs_keyword kw = true
  /\ Re.in_charset false cs_numeral_roman kw = false.
Proof.
  intros Hkw.
  assert (forallb (fun k => Re.in_charset false cs_keyword k
                            && negb (Re.in_charset false cs_numeral_roman k))
            VOLUME_KEYWORDS = true) as Hall by (vm_compute; reflexivity).
  rewrite forallb_forall in Hall. apply list_elem_of_In, Hall in Hkw.
  apply andb_true_iff in Hkw as [? ?%negb_true_iff]. done.
Qed.

Lemma pattern1_items :
  pattern1 = [Re.One (Re.chars [31532%N]); Re.Plus cs_numeral_roman true;
              Re.One cs_keyword; Re.LazyStar Re.dot true; Re.Eos].
Proof. reflexivity. Qed.

(** In [base 第 numeral keyword rest], where [base] holds no [第] (code
    point 31532) and [rest] no line feed, the first pattern matches at the
    [第], with the numeral as group 1. *)
Lemma search_pattern1_marker base num kw sfx :
  31532%N ∉ base -> num <> [] -> within false cs_numeral_roman num ->
  kw ∈ VOLUME_KEYWORDS -> Forall (fun c => c <> 10%N) sfx ->
  Re.search false pattern1 (base ++ 31532%N :: num ++ kw :: sfx)
  = Some (Re.Match (length base) [num; sfx]).
Proof.
  intros Hbase Hne Hnum Hkw Hsfx. destruct (keyword_facts kw Hkw) as [Hk1 Hk2].
  unfold Re.search. rewrite pattern1_items, search_from_skip.
  2:{ apply Forall_forall. intros c Hc. rewrite in_charset_single.
      apply bool_decide_eq_false_2. by intros ->. }
  cbn [Re.search_from]. rewrite match_here_One, in_charset_single.
  rewrite bool_decide_eq_true_2 by done. rewrite match_here_Plus.
  erewrite greedy_plus_run; [reflexivity|done|done|exact Hk2|].
  rewrite match_here_One, Hk1, match_here_LazyStar.
  rewrite (lazy_dot_to_end false (fun t => ([] ++ [num]) ++ [t])); [done| |done].
  intros t r. by rewrite match_here_Eos.
Qed.

Lemma extract_marker (base num sfx : str) (kw : N) :
  31532%N ∉ base -> num <> [] -> within false cs_numeral_roman num ->
  kw ∈ VOLUME_KEYWORDS -> Forall (fun c => c <> 10%N) sfx ->
  (forall v, parse_volume_number num = Val (Some v) ->
             extract_volume_with_context (base ++ utf8 "第" ++ num ++ kw :: sfx)
             = Val (rstrip_chars (utf8 " -_·・") base, Some v))
  /\ (parse_volume_number num = Exn ->
      extract_volume_with_context (base ++ utf8 "第" ++ num ++ kw :: sfx) = Exn).
Proof.
  intros Hbase Hne Hnum Hkw Hsfx.
  change (utf8 "第") with [31532%N]. cbn [app].
  unfold extract_volume_with_context.
  rewrite search_pattern1_marker by done.
  change (Re.group 1 (Re.Match (length base) [num; sfx])) with num.
  split.
  - intros v ->. simpl. unfold title_before. cbn [Re.m_start].
    by rewrite take_app_length.
  - by intros ->.
Qed.

Lemma within_numeral_candidate num :
  within false cs_numeral_roman num -> candidate num.
Proof.
  intros Hnum. eapply Forall_impl; [exact Hnum|]. intros c.
  apply in_charset_candidate, narrower_numeral_roman.
Qed.

(** A title of the form [base 第 numeral keyword rest] is split at the [第]:
    the volume is the value of the numeral, and the simplified title is
    [base] without its trailing separators.  Here [base] holds no [第], the
    numeral is a non-empty text of the pattern's characters, of at most
    [max_str_digits] characters, the keyword is one of [VOLUME_KEYWORDS],
    and [rest] has no line feed.  When parsing the numeral raises, as it
    does on more than [max_str_digits] digits, the extractor raises. *)
Theorem extract_explicit_marker (base num sfx : str) (kw : N) :
  31532%N ∉ base -> num <> [] -> within false cs_numeral_roman num ->
  kw ∈ VOLUME_KEYWORDS -> Forall (fun c => c <> 10%N) sfx ->
  ((Z.of_nat (length num) <= max_str_digits)%Z ->
   exists v,
     parse_volume_number num = Val (Some v)
     /\ extract_volume_with_context (base ++ utf8 "第" ++ num ++ kw :: sfx)
        = Val (rstrip_chars (utf8 " -_·・") base, Some v))
  /\ (parse_volume_number num = Exn ->
      extract_volume_with_context (base ++ utf8 "第" ++ num ++ kw :: sfx) = Exn).
Proof.
  intros Hbase Hne Hnum Hkw Hsfx.
  destruct (extract_marker base num sfx kw Hbase Hne Hnum Hkw Hsfx) as [Hval Hexn].
  split; [|done]. intros Hlen.
  destruct (parse_volume_number_candidate num (within_numeral_candidate _ Hnum) Hlen)
    as (v & Hv & Hsome).
  destruct (Hsome Hne) as [n ->]. exists n. split; [done|]. by apply Hval.
Qed.

Lemma extract_explicit_marker_witness :
  ((31532%N ∉ utf8 "海贼王 - ") /\ utf8 "十二" <> []
   /\ within false cs_numeral_roman (utf8 "十二")
   /\ (21367%N ∈ VOLUME_KEYWORDS) /\ Forall (fun c => c <> 10%N) (utf8 " 上")
   /\ (Z.of_nat (length (utf8 "十二")) <= max_str_digits)%Z)
  /\ exists v,
       parse_volume_number (utf8 "十二") = Val (Some v)
       /\ extract_volume_with_context
            (utf8 "海贼王 - " ++ utf8 "第" ++ utf8 "十二" ++ 21367%N :: utf8 " 上")
          = Val (rstrip_chars (utf8 " -_·・") (utf8 "海贼王 - "), Some v).
Proof.
  assert (31532%N ∉ utf8 "海贼王 - ") as H1.
  { apply (bool_decide_unpack _). vm_compute. exact I. }
  assert (utf8 "十二" <> []) as H2 by (vm_compute; discriminate).
  assert (within false cs_numeral_roman (utf8 "十二")) as H3.
  { apply forallb_Forall. vm_compute. reflexivity. }
  assert (21367%N ∈ VOLUME_KEYWORDS) as H4.
  { apply (bool_decide_unpack _). vm_compute. exact I. }
  assert (Forall (fun c => c <> 10%N) (utf8 " 上")) as H5.
  { apply (bool_decide_unpack _). vm_compute. exact I. }
  assert (Z.of_nat (length (utf8 "十二")) <= max_str_digits)%Z as H6
    by (vm_compute; discriminate).
  split; [exact (conj H1 (conj H2 (conj H3 (conj H4 (conj H5 H6)))))|].
  exact (proj1 (extract_explicit_marker _ _ _ _ H1 H2 H3 H4 H5) H6).
Defined.

(** The title [X第1...1卷] with 4301 digits: the extractor raises. *)
Example extract_volume_long_numeral :
  extract_volume_with_context (utf8 "X第" ++ replicate 4301 49%N ++ utf8 "卷") = Exn.
Proof.
  change (utf8 "X第" ++ replicate 4301 49%N ++ utf8 "卷")
    with (utf8 "X" ++ utf8 "第" ++ replicate 4301 49%N ++ 21367%N :: []).
  apply extract_marker.
  - apply (bool_decide_unpack _). vm_compute. exact I.
  - done.
  - apply Forall_replicate. vm_compute. reflexivity.
  - apply (bool_decide_unpack _). vm_compute. exact I.
  - constructor.
  - apply parse_volume_number_long_text.
Qed.

(** ** Titles in the Chinese style, read back *)

Lemma in_charset_numeral_digit ic c :
  isdecimal c = true -> Re.in_charset ic cs_numeral_roman c = true.
Proof.
  intros Hc. unfold Re.in_charset.
  change (Re.cs_negated cs_numeral_roman) with false.
  change (Re.cs_cats cs_numeral_roman) with [Re.CatDigit].
  cbn [xorb existsb Re.in_category]. rewrite Hc. by rewrite !orb_true_r.
Qed.

(** What [int_to_chinese] writes is a non-empty text of the characters
    that the first pattern takes for a numeral. *)
Lemma int_to_chinese_numeral n :
  (0 <= n)%Z ->
  int_to_chinese n <> [] /\ within false cs_numeral_roman (int_to_chinese n).
Proof.
  intros Hn. destruct (Z.ltb_spec n 100) as [Hlt|Hge].
  - assert (forallb (fun k =>
              let t := int_to_chinese (Z.of_nat k) in
              negb (bool_decide (t = []))
              && forallb (Re.in_charset false cs_numeral_roman) t)
              (seq 0 100) = true) as Hall by (vm_compute; reflexivity).
    rewrite forallb_forall in Hall.
    specialize (Hall (Z.to_nat n)). rewrite Z2Nat.id in Hall by lia.
    cbv zeta in Hall. assert (In (Z.to_nat n) (seq 0 100)) as Hin by (apply in_seq; lia).
    apply Hall, andb_true_iff in Hin as [Hne Hin].
    split; [|by apply forallb_Forall].
    apply negb_true_iff in Hne. by apply bool_decide_eq_false in Hne.
  - unfold int_to_chinese.
    rewrite (proj2 (Z.leb_gt n 0)), !(proj2 (Z.ltb_ge _ _)) by lia.
    destruct (to_int_nonneg n Hn) as (u & Hu & _ & Hnil).
    unfold py_str. rewrite Hu. split; [by apply uint_str_nonnil|].
    eapply Forall_impl; [apply uint_str_digits|].
    intros c Hc. apply in_charset_numeral_digit. by apply ascii_digit_facts.
Qed.

Lemma extract_chinese_title (base : str) (total i : Z) :
  31532%N ∉ base -> (0 <= i < 10 ^ max_str_digits)%Z ->
  extract_volume_with_context (update_title base (utf8 "chinese") total i)
  = Val (rstrip_chars (utf8 " -_·・") base, Some i).
Proof.
  intros Hbase Hi.
  unfold update_title. rewrite bool_decide_eq_true_2 by done.
  unfold chinese_suffix. change (utf8 "卷") with [21367%N].
  destruct (int_to_chinese_numeral i ltac:(lia)) as [Hne Hnum].
  destruct (extract_marker base (int_to_chinese i) [] 21367%N) as [Hval _];
    [done..| |constructor|].
  { apply (bool_decide_unpack _). vm_compute. exact I. }
  apply Hval. by apply parse_int_to_chinese.
Qed.

(** A title that the rename planner writes in the Chinese style is read
    back by the extractor: the volume is the index, and the simplified
    title is the base title without its trailing separators.  The base
    title must not contain [第] (code point 31532), and the index is below
    [10 ^ max_str_digits], as every index that [str] converts is.  The
    update and the preview write the same title in this style. *)
Theorem chinese_title_round_trip (base : str) (total i : Z) :
  31532%N ∉ base -> (0 <= i < 10 ^ max_str_digits)%Z ->
  extract_volume_with_context (update_title base (utf8 "chinese") total i)
  = Val (rstrip_chars (utf8 " -_·・") base, Some i)
  /\ preview_title base (utf8 "chinese") total i
     = update_title base (utf8 "chinese") total i.
Proof.
  intros Hbase Hi. split; [by apply extract_chinese_title|].
  unfold update_title, preview_title. by rewrite bool_decide_eq_true_2.
Qed.

Lemma chinese_title_round_trip_witness :
  ((31532%N ∉ utf8 "海贼王 ") /\ (0 <= 12 < 10 ^ max_str_digits)%Z)
  /\ extract_volume_with_context (update_title (utf8 "海贼王 ") (utf8 "chinese") 20 12)
     = Val (rstrip_chars (utf8 " -_·・") (utf8 "海贼王 "), Some 12%Z)
  /\ preview_title (utf8 "海贼王 ") (utf8 "chinese") 20 12
     = update_title (utf8 "海贼王 ") (utf8 "chinese") 20 12.
Proof.
  assert (31532%N ∉ utf8 "海贼王 ") as H1.
  { apply (bool_decide_unpack _). vm_compute. exact I. }
  assert (0 <= 12 < 10 ^ max_str_digits)%Z as H2
    by (split; [lia|apply small_below_limit; lia]).
  split; [exact (conj H1 H2)|]. exact (chinese_title_round_trip _ 20 12 H1 H2).
Defined.

(** ** Sorting again after a rename *)

Lemma insert_by_first {A} (key : A -> Z) x l :
  Forall (fun y => (key x <= key y)%Z) l ->
  insert_by (fun a b => (key a <=? key b)%Z) x l = x :: l.
Proof.
  intros Hl. destruct Hl as [|y l Hy _]; [done|]. simpl.
  by rewrite (proj2 (Z.leb_le _ _) Hy).
Qed.

(** A list that is ascending by key is left as it is. *)
Lemma sorted_by_key_ascending {A} (key : A -> Z) l :
  ascending key l -> sorted_by_key key l = l.
Proof.
  unfold ascending, sorted_by_key, sort_by.
  induction 1 as [|x l _ IH Hx]; [done|]. simpl. rewrite IH. by apply insert_by_first.
Qed.

Lemma zip_indexes_ascending {A} (l : list A) a n :
  ascending snd (zip l (Z.of_nat <$> seq a n)).
Proof.
  unfold ascending. revert a n. induction l as [|x l IH]; intros a n; [constructor|].
  destruct n as [|n]; [constructor|]. simpl. constructor; [apply IH|].
  apply Forall_forall. intros [y v] Hin.
  apply elem_of_zip_r, list_elem_of_fmap in Hin as (k & -> & Hk).
  apply elem_of_seq in Hk. simpl. lia.
Qed.

Lemma books_with_volume_known db ids vols :
  Forall2 (fun book_id v =>
             exists mi s, db !! book_id = Some (Some mi)
                          /\ extract_volume_with_context (title mi) = Val (s, Some v))
          ids vols ->
  books_with_volume db ids = zip ids vols.
Proof.
  induction 1 as [|book_id v ids vols (mi & s & Hdb & Hex) _ IH]; [done|].
  simpl. unfold get_metadata. rewrite Hdb, Hex, IH. done.
Qed.

(** After a batch update in the Chinese style, detecting and sorting the
    same books again gives them in the order of the batch, each with its
    index as volume.  The ids are distinct and all have metadata, the base
    title does not contain [第], and the batch has fewer than
    [10 ^ max_str_digits] books, so that every index is a number that [str]
    and [int] convert. *)
Theorem sort_after_chinese_rename
    (base author : str) (clear_tags clear_series clear_publisher : bool)
    (db : database) (ids : list Z) :
  NoDup ids -> all_present db ids -> 31532%N ∉ base ->
  (Z.of_nat (length ids) < 10 ^ max_str_digits)%Z ->
  detect_and_sort_books_by_volume
    (batch_update_metadata base author clear_tags clear_series clear_publisher
       (utf8 "chinese") db ids).1 ids
  = zip ids (indexes (length ids)).
Proof.
  intros Hnd Hall Hbase Hfew. unfold detect_and_sort_books_by_volume.
  rewrite (books_with_volume_known _ ids (indexes (length ids))).
  { apply sorted_by_key_ascending, zip_indexes_ascending. }
  apply Forall2_same_length_lookup_2; [by rewrite length_indexes|].
  intros k book_id v Hk Hv. unfold indexes in Hv.
  rewrite list_lookup_fmap in Hv.
  rewrite lookup_seq_lt in Hv by (by eapply lookup_lt_Some). simpl in Hv.
  injection Hv as <-.
  destruct (Forall_lookup_1 _ _ _ _ Hall Hk) as [mi Hmi].
  eexists _, _. split.
  - unfold batch_update_metadata.
    eapply batch_loop_processed; [by rewrite enumerate1_snd| |done].
    by eapply list_elem_of_lookup_2, enumerate1_lookup.
  - cbn [title new_metadata].
    apply lookup_lt_Some in Hk.
    apply (extract_chinese_title base (Z.of_nat (length ids)) (Z.of_nat (S k)));
      [done|lia].
Qed.

Lemma sort_after_chinese_rename_witness :
  let db := library [(5%Z, "b 2"%string); (3%Z, "b 1"%string)] in
  let ids := [5; 3]%Z in
  (NoDup ids /\ all_present db ids /\ (31532%N ∉ utf8 "T")
   /\ (Z.of_nat (length ids) < 10 ^ max_str_digits)%Z)
  /\ detect_and_sort_books_by_volume
       (batch_update_metadata (utf8 "T") [] true true true (utf8 "chinese") db ids).1 ids
     = zip ids (indexes (length ids)).
Proof.
  intros db ids.
  assert (NoDup ids) as Hnd by (apply (bool_decide_unpack _); vm_compute; exact I).
  assert (all_present db ids) as Hall
    by (repeat constructor; eexists; vm_compute; reflexivity).
  assert (31532%N ∉ utf8 "T") as Hb by (apply (bool_decide_unpack _); vm_compute; exact I).
  assert (Z.of_nat (length ids) < 10 ^ max_str_digits)%Z as Hfew
    by (apply small_below_limit; simpl; lia).
  split; [exact (conj Hnd (conj Hall (conj Hb Hfew)))|].
  exact (sort_after_chinese_rename (utf8 "T") [] true true true db ids Hnd Hall Hb Hfew).
Defined.

(** ** Titles without numeral characters *)

Section FirstGroup.
Variable ignorecase : bool.

(** A match of a pattern whose first group is a [+] has found a character
    of that group's class in the text. *)
Lemma match_here_finds cs rest p s gs r :
  capturing p = (cs, true) :: rest ->
  Re.match_here ignorecase p s gs = Some r ->
  exists c, c ∈ s /\ Re.in_charset ignorecase cs c = true.
Proof.
  revert s gs r. induction p as [|it p IH]; intros s gs r Hcap; [done|].
  destruct it as [cs'|cs'|cs' g|cs' g|].
  - destruct s as [|c s]; [done|]. rewrite match_here_One.
    destruct (Re.in_charset ignorecase cs' c); [|done].
    intros Hm. destruct (IH _ _ _ Hcap Hm) as (x & Hx & Hin).
    exists x. split; [by apply elem_of_cons; right|done].
  - simpl. destruct s as [|c s]; [by apply IH|].
    destruct (Re.in_charset ignorecase cs' c); [|by apply IH].
    destruct (Re.match_here ignorecase p s gs) eqn:Hm; [|by apply IH].
    intros _. destruct (IH _ _ _ Hcap Hm) as (x & Hx & Hin).
    exists x. split; [by apply elem_of_cons; right|done].
  - rewrite match_here_Plus. intros Hg.
    apply greedy_plus_inv in Hg as (extra & tail & He & Hne & -> & Hk).
    destruct g.
    + injection Hcap as -> _. destruct extra as [|c extra]; [done|].
      exists c. split; [by apply elem_of_cons; left|]. by inversion He.
    + destruct (IH _ _ _ Hcap Hk) as (x & Hx & Hin).
      exists x. split; [by apply elem_of_app; right|done].
  - rewrite match_here_LazyStar. intros Hl.
    apply lazy_star_inv in Hl as (extra & tail & He & -> & Hk).
    destruct g; [done|].
    destruct (IH _ _ _ Hcap Hk) as (x & Hx & Hin).
    exists x. split; [by apply elem_of_app; right|done].
  - rewrite match_here_Eos. destruct (Re.at_end s); [by apply IH|done].
Qed.

Lemma search_from_finds cs rest p s pos m :
  capturing p = (cs, true) :: rest ->
  Re.search_from ignorecase p s pos = Some m ->
  exists c, c ∈ s /\ Re.in_charset ignorecase cs c = true.
Proof.
  intros Hcap. revert pos. induction s as [|c s IH]; intros pos; simpl.
  - destruct (Re.match_here ignorecase p [] []) eqn:Hm; [|done].
    intros _. by eapply match_here_finds.
  - destruct (Re.match_here ignorecase p (c :: s) []) eqn:Hm.
    + intros _. by eapply match_here_finds.
    + intros Hs. destruct (IH _ Hs) as (x & Hx & Hin).
      exists x. split; [by apply elem_of_cons; right|done].
Qed.

End FirstGroup.

Lemma search_no_candidate ic p title :
  captures_candidate p ->
  Forall (fun c => Re.in_charset true cs_numeral_roman c = false) title ->
  Re.search ic p title = None.
Proof.
  intros (cs & rest & Hcap & Hcs) Htitle.
  destruct (Re.search ic p title) as [m|] eqn:Hs; [|done].
  destruct (search_from_finds ic cs rest p title 0 m Hcap Hs) as (c & Hc & Hin).
  apply (in_charset_candidate ic cs c Hcs) in Hin.
  rewrite Forall_forall in Htitle. unfold candidate_char in Hin.
  rewrite (Htitle c Hc) in Hin. done.
Qed.

Lemma extract_by_patterns_no_candidate ps title :
  Forall captures_candidate ps ->
  Forall (fun c => Re.in_charset true cs_numeral_roman c = false) title ->
  extract_by_patterns ps title = Val None.
Proof.
  intros Hps Htitle. induction Hps as [|p ps Hp _ IH]; [done|].
  simpl. by rewrite search_no_candidate.
Qed.

(** A title without any numeral character (no Chinese numeral of the
    patterns, no decimal digit, no letter I V X L C D M in either case) is
    returned as it is, without a volume. *)
Theorem extract_without_numeral_chars (title : str) :
  Forall (fun c => Re.in_charset true cs_numeral_roman c = false) title ->
  extract_volume_with_context title = Val (title, None).
Proof.
  intros Htitle. unfold extract_volume_with_context, extract_fallback.
  rewrite (search_no_candidate false pattern1) by (done || apply pattern1_captures).
  rewrite extract_by_patterns_no_candidate by (done || apply patterns_capture).
  simpl.
  by rewrite (search_no_candidate false digits_pattern)
    by (done || apply digits_pattern_captures).
Qed.

Lemma extract_without_numeral_chars_witness :
  Forall (fun c => Re.in_charset true cs_numeral_roman c = false) (utf8 "海贼王 Works")
  /\ extract_volume_with_context (utf8 "海贼王 Works") = Val (utf8 "海贼王 Works", None).
Proof.
  assert (Forall (fun c => Re.in_charset true cs_numeral_roman c = false)
            (utf8 "海贼王 Works")) as H.
  { apply Forall_forall. intros c Hc.
    assert (forallb (fun c => negb (Re.in_charset true cs_numeral_roman c))
              (utf8 "海贼王 Works") = true) as Hall by (vm_compute; reflexivity).
    rewrite forallb_forall in Hall. apply negb_true_iff, Hall. by apply list_elem_of_In. }
  split; [exact H|]. exact (extract_without_numeral_chars _ H).
Defined.

(** ** The longest common subsequence is a common subsequence *)

Section Backtrack.
Variables (s1 s2 : str) (dp : list (list Z)).

Lemma backtrack_step_collected st st' :
  backtrack_step s1 s2 dp st = Some st' -> collected s1 s2 st -> collected s1 s2 st'.
Proof.
  unfold backtrack_step, collected. intros Hstep [H1 H2].
  destruct (0 <? bt_i st)%nat eqn:Hi; [|done].
  destruct (0 <? bt_j st)%nat eqn:Hj; [|done].
  apply Nat.ltb_lt in Hi, Hj. cbn [andb] in Hstep.
  destruct (s1 !! (bt_i st - 1)%nat) as [a|] eqn:Ha; [|done].
  destruct (s2 !! (bt_j st - 1)%nat) as [b|] eqn:Hb; [|done].
  apply drop_S in Ha, Hb.
  replace (S (bt_i st - 1)) with (bt_i st) in Ha by lia.
  replace (S (bt_j st - 1)) with (bt_j st) in Hb by lia.
  destruct (N.eqb_spec a b) as [<-|_].
  - injection Hstep as <-. cbn [bt_i bt_j bt_chars].
    rewrite reverse_app, Ha, Hb. simpl. split; by apply sublist_skip.
  - destruct (_ <? _)%Z; injection Hstep as <-; cbn [bt_i bt_j bt_chars].
    + rewrite Ha. split; [by apply sublist_cons|done].
    + rewrite Hb. split; [done|by apply sublist_cons].
Qed.

Lemma backtrack_collected fuel st :
  collected s1 s2 st -> collected s1 s2 (backtrack fuel s1 s2 dp st).
Proof.
  revert st. induction fuel as [|fuel IH]; intros st Hst; [done|]. simpl.
  destruct (backtrack_step s1 s2 dp st) as [st'|] eqn:Hstep; [|done].
  by eapply IH, backtrack_step_collected.
Qed.

End Backtrack.

Lemma lcs_sublist (s1 s2 : str) :
  longest_common_subsequence s1 s2 `sublist_of` s1
  /\ longest_common_subsequence s1 s2 `sublist_of` s2.
Proof.
  unfold longest_common_subsequence.
  destruct (backtrack_collected s1 s2 (lcs_table s1 s2) (length s1 + length s2)
              (BtState (length s1) (length s2) [])) as [H1 H2].
  { split; apply sublist_nil_l. }
  split; [etrans; [exact H1|apply sublist_drop]|etrans; [exact H2|apply sublist_drop]].
Qed.

(** The text returned by [longest_common_subsequence] is a subsequence of
    both arguments: its characters occur in each of them, in the same
    order. *)
Theorem longest_common_subsequence_common (s1 s2 : str) :
  longest_common_subsequence s1 s2 `sublist_of` s1
  /\ longest_common_subsequence s1 s2 `sublist_of` s2.
Proof. apply lcs_sublist. Qed.

Lemma fold_lcs_common lcs titles r :
  fold_lcs lcs titles = Some r ->
  r `sublist_of` lcs /\ Forall (fun t => r `sublist_of` t) titles.
Proof.
  revert lcs. induction titles as [|t titles IH]; intros lcs; simpl.
  - intros [= <-]. by split.
  - case_bool_decide; [done|]. intros Hr. apply IH in Hr as [Hr Hall].
    destruct (lcs_sublist lcs t) as [Hl Ht].
    split; [by etrans|]. constructor; [by etrans|done].
Qed.

(** When [find_longest_common_subsequence] returns a text, the text has at
    least 5 characters and is a subsequence of every title. *)
Theorem find_longest_common_subsequence_common (titles : list str) (r : str) :
  find_longest_common_subsequence titles = Some r ->
  (5 <= length r)%nat /\ Forall (fun t => r `sublist_of` t) titles.
Proof.
  unfold find_longest_common_subsequence. destruct titles as [|base rest]; [done|].
  destruct (fold_lcs base rest) as [lcs|] eqn:Hf; [|done]. cbn [mbind option_bind].
  destruct (5 <=? length lcs)%nat eqn:H5; [|done]. intros [= <-].
  apply Nat.leb_le in H5.
  apply fold_lcs_common in Hf as [Hb Hrest]. split; [done|by constructor].
Qed.

Lemma find_longest_common_subsequence_common_witness :
  find_longest_common_subsequence [utf8 "Foo Bar Alpha"; utf8 "Foo Bar Beta"]
  = Some (utf8 "Foo Bar a")
  /\ (5 <= length (utf8 "Foo Bar a"))%nat
  /\ Forall (fun t => utf8 "Foo Bar a" `sublist_of` t)
            [utf8 "Foo Bar Alpha"; utf8 "Foo Bar Beta"].
Proof.
  assert (find_longest_common_subsequence [utf8 "Foo Bar Alpha"; utf8 "Foo Bar Beta"]
          = Some (utf8 "Foo Bar a")) as H by (vm_compute; reflexivity).
  split; [exact H|]. exact (find_longest_common_subsequence_common _ _ H).
Defined.

(** ** The common prefix *)

Lemma str_ltb_cons x a y b :
  str_ltb (x :: a) (y :: b)
  = if (x <? y)%N then true else if (y <? x)%N then false else str_ltb a b.
Proof. reflexivity. Qed.

Lemma str_ltb_irrefl a : str_ltb a a = false.
Proof.
  induction a as [|x a IH]; [done|]. rewrite str_ltb_cons, N.ltb_irrefl. done.
Qed.

Lemma str_ltb_asym a b : str_ltb a b = true -> str_ltb b a = false.
Proof.
  revert b. induction a as [|x a IH]; intros [|y b]; try done.
  rewrite !str_ltb_cons.
  destruct (N.ltb_spec x y), (N.ltb_spec y x); try done; try lia. apply IH.
Qed.

(** [a <= b <= c] gives [a <= c], where [a <= b] reads [str_ltb b a = false]. *)
Lemma str_le_trans a b c :
  str_ltb b a = false -> str_ltb c b = false -> str_ltb c a = false.
Proof.
  revert b c. induction a as [|x a IH]; intros b c.
  - by destruct c.
  - destruct b as [|y b]; [done|]. destruct c as [|z c]; [by destruct b|].
    rewrite !str_ltb_cons.
    destruct (N.ltb_spec y x), (N.ltb_spec x y), (N.ltb_spec z y), (N.ltb_spec y z),
      (N.ltb_spec z x), (N.ltb_spec x z); try done; try lia.
    apply IH.
Qed.

Lemma py_min_least h t :
  let m := py_min h t in
  m ∈ h :: t /\ Forall (fun x => str_ltb x m = false) (h :: t).
Proof.
  unfold py_min. revert h. induction t as [|x t IH]; intros h.
  - simpl. split; [by apply elem_of_cons; left|]. constructor; [|done].
    apply str_ltb_irrefl.
  - simpl. destruct (str_ltb x h) eqn:Hxh.
    + destruct (IH x) as [Hin Hall]. split.
      { apply elem_of_cons. right. exact Hin. }
      apply Forall_cons in Hall as [Hx Ht].
      constructor; [|by constructor].
      eapply str_le_trans; [exact Hx|]. by apply str_ltb_asym.
    + destruct (IH h) as [Hin Hall]. split.
      { apply elem_of_cons in Hin as [->|Hin]; [by apply elem_of_cons; left|].
        apply elem_of_cons. right. by apply elem_of_cons; right. }
      apply Forall_cons in Hall as [Hh Ht].
      constructor; [done|]. constructor; [|done].
      by eapply str_le_trans.
Qed.

Lemma py_max_greatest h t :
  let m := py_max h t in
  m ∈ h :: t /\ Forall (fun x => str_ltb m x = false) (h :: t).
Proof.
  unfold py_max. revert h. induction t as [|x t IH]; intros h.
  - simpl. split; [by apply elem_of_cons; left|]. constructor; [|done].
    apply str_ltb_irrefl.
  - simpl. destruct (str_ltb h x) eqn:Hhx.
    + destruct (IH x) as [Hin Hall]. split.
      { apply elem_of_cons. right. exact Hin. }
      apply Forall_cons in Hall as [Hx Ht].
      constructor; [|by constructor].
      eapply str_le_trans; [|exact Hx]. by apply str_ltb_asym.
    + destruct (IH h) as [Hin Hall]. split.
      { apply elem_of_cons in Hin as [->|Hin]; [by apply elem_of_cons; left|].
        apply elem_of_cons. right. by apply elem_of_cons; right. }
      apply Forall_cons in Hall as [Hh Ht].
      constructor; [done|]. constructor; [|done].
      by eapply str_le_trans.
Qed.

(** The common head of [a] and [b] is a prefix of every text between them. *)
Lemma common_head_between a x b :
  str_ltb x a = false -> str_ltb b x = false -> common_head a b `prefix_of` x.
Proof.
  revert x b. induction a as [|c a IH]; intros x b.
  - intros _ _. apply prefix_nil.
  - destruct b as [|d b]; [intros _ _; apply prefix_nil|]. simpl.
    destruct (N.eqb_spec c d) as [<-|Hcd]; [|intros _ _; apply prefix_nil].
    destruct x as [|e x]; [done|]. rewrite !str_ltb_cons.
    destruct (N.ltb_spec e c), (N.ltb_spec c e); try done; try lia.
    assert (e = c) as -> by lia. intros Ha Hb. apply prefix_cons. by apply IH.
Qed.

Lemma common_head_greatest p a b :
  p `prefix_of` a -> p `prefix_of` b -> p `prefix_of` common_head a b.
Proof.
  revert a b. induction p as [|c p IH]; intros a b; [intros; apply prefix_nil|].
  intros [a' ->] [b' ->]. simpl. rewrite N.eqb_refl. apply prefix_cons.
  apply IH; by eexists.
Qed.

(** [os.path.commonprefix] returns the longest text that is a prefix of
    every text of the list. *)
Theorem commonprefix_longest (m : list str) :
  Forall (fun x => commonprefix m `prefix_of` x) m
  /\ (forall p, m <> [] -> Forall (fun x => p `prefix_of` x) m ->
                p `prefix_of` commonprefix m).
Proof.
  destruct m as [|h t]; [split; [constructor|done]|].
  unfold commonprefix.
  destruct (py_min_least h t) as [Hmin_in Hmin], (py_max_greatest h t) as [Hmax_in Hmax].
  split.
  - rewrite Forall_forall in Hmin, Hmax. apply Forall_forall. intros x Hx.
    apply common_head_between; [by apply Hmin|by apply Hmax].
  - intros p _ Hp. rewrite Forall_forall in Hp.
    apply common_head_greatest; by apply Hp.
Qed.

Lemma commonprefix_longest_witness :
  let m := [utf8 "abcx"; utf8 "abd"; utf8 "abcy"] in
  (m <> [] /\ Forall (fun x => utf8 "ab" `prefix_of` x) m)
  /\ utf8 "ab" `prefix_of` commonprefix m.
Proof.
  intros m.
  assert (m <> []) as Hne by done.
  assert (Forall (fun x => utf8 "ab" `prefix_of` x) m) as Hp.
  { repeat constructor; eexists; reflexivity. }
  split; [by split|].
  destruct (commonprefix_longest m) as [_ H]. exact (H (utf8 "ab") Hne Hp).
Defined.

(** ** Trimming to a word boundary *)

Lemma trim_scan_prefix text k : trim_scan text k `prefix_of` text.
Proof.
  induction k as [|i IH]; simpl; [done|].
  destruct (text !! i) as [c|]; [|done]. case_bool_decide; [|done].
  unfold rstrip.
  destruct (rstrip_by_split isspace (take i text)) as (dropped & Hsplit & _).
  etrans; [|apply (prefix_take text i)]. by exists dropped.
Qed.

Lemma trim_scan_no_boundary text k :
  Forall (fun c => c ∉ word_boundaries) text -> trim_scan text k = text.
Proof.
  intros Htext. induction k as [|i IH]; simpl; [done|].
  destruct (text !! i) as [c|] eqn:Hc; [|done].
  rewrite bool_decide_eq_false_2; [done|].
  by eapply Forall_lookup_1 in Htext.
Qed.

Lemma trim_scan_cut head c tail n :
  c ∈ word_boundaries -> Forall (fun x => x ∉ word_boundaries) tail ->
  (n <= length tail)%nat ->
  trim_scan (head ++ c :: tail) (S (length head) + n) = rstrip head.
Proof.
  intros Hc Htail. induction n as [|n IH]; intros Hn.
  - rewrite Nat.add_0_r. cbn [trim_scan]. rewrite list_lookup_middle by done.
    rewrite bool_decide_eq_true_2 by done. by rewrite take_app_length.
  - replace (S (length head) + S n)%nat with (S (S (length head) + n)) by lia.
    cbn [trim_scan].
    destruct (lookup_lt_is_Some_2 tail n) as [x Hx]; [lia|].
    assert ((head ++ c :: tail) !! (S (length head) + n)%nat = Some x) as ->.
    { rewrite lookup_app_r by lia.
      replace (S (length head) + n - length head)%nat with (S n) by lia. done. }
    rewrite bool_decide_eq_false_2 by (by eapply Forall_lookup_1 in Htail).
    apply IH. lia.
Qed.

(** [trim_to_word_boundary] cuts a text at its last boundary character:
    that character and what follows it are dropped, and so is white space
    at the end of what is left.  A text without boundary character is
    returned as it is. *)
Theorem trim_to_word_boundary_cuts_at_last (head tail : str) (c : N) :
  c ∈ word_boundaries -> Forall (fun x => x ∉ word_boundaries) tail ->
  trim_to_word_boundary (head ++ c :: tail) = rstrip head
  /\ trim_to_word_boundary tail = tail.
Proof.
  intros Hc Htail. split; [|by apply trim_scan_no_boundary].
  unfold trim_to_word_boundary. rewrite length_app. cbn [length].
  replace (length head + S (length tail))%nat with (S (length head) + length tail)%nat
    by lia.
  by apply trim_scan_cut.
Qed.

Lemma trim_to_word_boundary_cuts_at_last_witness :
  ((45%N ∈ word_boundaries) /\ Forall (fun x => x ∉ word_boundaries) (utf8 "Two"))
  /\ trim_to_word_boundary (utf8 "Part One " ++ 45%N :: utf8 "Two") = rstrip (utf8 "Part One ")
  /\ trim_to_word_boundary (utf8 "Two") = utf8 "Two".
Proof.
  assert (45%N ∈ word_boundaries) as Hc.
  { apply (bool_decide_unpack _). vm_compute. exact I. }
  assert (Forall (fun x => x ∉ word_boundaries) (utf8 "Two")) as Htail.
  { apply Forall_forall. intros x Hx. apply (bool_decide_unpack _).
    revert x Hx. apply Forall_forall. repeat constructor; vm_compute; exact I. }
  split; [by split|].
  exact (trim_to_word_boundary_cuts_at_last (utf8 "Part One ") (utf8 "Two") 45%N Hc Htail).
Defined.

(** ** The most frequent title *)

Section MostCommon.
Variable whole : list str.

Abbreviation count_lt := (fewer whole).
Abbreviation count_le := (no_more whole).
Abbreviation most_common_step := (most_common_step_in whole).

Lemma most_common_loop rest seen1 b seen2 t :
  Forall (fun x => count_lt x b) seen1 ->
  Forall (fun x => count_le x b) seen2 ->
  foldl most_common_step (Some b) rest = Some t ->
  exists l1 l2,
    seen1 ++ b :: seen2 ++ rest = l1 ++ t :: l2
    /\ Forall (fun x => count_lt x t) l1 /\ Forall (fun x => count_le x t) l2.
Proof.
  revert seen1 b seen2. induction rest as [|x rest IH]; intros seen1 b seen2 H1 H2; simpl.
  - intros [= <-]. exists seen1, seen2. by rewrite app_nil_r.
  - destruct (Nat.ltb_spec (occurrences b whole) (occurrences x whole)) as [Hlt|Hge].
    + intros Hfold. destruct (IH (seen1 ++ b :: seen2) x [] ) as (l1 & l2 & Heq & Hl1 & Hl2);
        [| constructor | exact Hfold |].
      * apply Forall_app. split.
        { eapply Forall_impl; [exact H1|]. unfold fewer. intros; lia. }
        constructor; [done|].
        eapply Forall_impl; [exact H2|]. unfold no_more, fewer. intros; lia.
      * exists l1, l2. split; [|done]. rewrite <- Heq. by rewrite <- !app_assoc.
    + intros Hfold. destruct (IH seen1 b (seen2 ++ [x])) as (l1 & l2 & Heq & Hl1 & Hl2);
        [done| | exact Hfold |].
      * apply Forall_app. split; [done|]. constructor; [done|constructor].
      * exists l1, l2. split; [|done]. rewrite <- Heq. by rewrite <- !app_assoc.
Qed.

End MostCommon.

(** [Counter(l).most_common(1)] picks a title that no other title exceeds
    in count, and among the titles of that count the one that occurs first:
    every title before its first occurrence is strictly less frequent. *)
Theorem most_common_first_maximum (l : list str) (t : str) :
  most_common l = Some t ->
  exists l1 l2,
    l = l1 ++ t :: l2
    /\ Forall (fun x => fewer l x t) l1 /\ Forall (fun x => no_more l x t) l2.
Proof.
  unfold most_common. destruct l as [|x rest]; [done|]. cbn [foldl].
  remember (x :: rest) as l eqn:Hl. intros Hfold.
  destruct (most_common_loop l rest [] x [] t) as (l1 & l2 & Heq & H1 & H2).
  - constructor.
  - constructor.
  - exact Hfold.
  - exists l1, l2. split; [|done]. rewrite <- Heq. by rewrite Hl.
Qed.

Lemma most_common_first_maximum_witness :
  let l := [utf8 "a"; utf8 "b"; utf8 "b"; utf8 "a"] in
  most_common l = Some (utf8 "a")
  /\ exists l1 l2,
       l = l1 ++ utf8 "a" :: l2
       /\ Forall (fun x => fewer l x (utf8 "a")) l1
       /\ Forall (fun x => no_more l x (utf8 "a")) l2.
Proof.
  intros l.
  assert (most_common l = Some (utf8 "a")) as H by (vm_compute; reflexivity).
  split; [exact H|]. exact (most_common_first_maximum l (utf8 "a") H).
Defined.

Lemma most_common_loop_is_Some whole rest b :
  is_Some (foldl (most_common_step_in whole) (Some b) rest).
Proof.
  revert b. induction rest as [|y rest IH]; intros b; [by eexists|].
  cbn [foldl most_common_step_in]. destruct (_ <? _)%nat; apply IH.
Qed.

Lemma most_common_is_Some l : l <> [] -> is_Some (most_common l).
Proof.
  destruct l as [|x rest]; [done|]. intros _.
  apply (most_common_loop_is_Some (x :: rest) rest x).
Qed.

(** ** Sorting by any total order *)

Section SortAny.
Context {A : Type} (le : A -> A -> bool).

Lemma insert_by_perm_any x l : insert_by le x l ≡ₚ x :: l.
Proof.
  induction l as [|y l IH]; simpl; [done|].
  destruct (le x y); [done|]. rewrite IH. apply Permutation_swap.
Qed.

Lemma sort_by_perm_any l : sort_by le l ≡ₚ l.
Proof.
  induction l as [|x l IH]; [done|].
  unfold sort_by in *. simpl. rewrite insert_by_perm_any. by rewrite IH.
Qed.

Hypothesis le_total : forall x y, le x y = true \/ le y x = true.
Hypothesis le_trans : forall x y z, le x y = true -> le y z = true -> le x z = true.

Lemma insert_by_sorted_any x l :
  StronglySorted (fun a b => le a b = true) l ->
  StronglySorted (fun a b => le a b = true) (insert_by le x l).
Proof using le_total le_trans.
  induction 1 as [|y l Hl IH Hy]; simpl.
  - repeat constructor.
  - destruct (le x y) eqn:Hxy.
    + constructor; [by constructor|]. constructor; [done|].
      eapply Forall_impl; [exact Hy|]. simpl. intros z Hz. by eapply le_trans.
    + constructor; [done|]. rewrite insert_by_perm_any.
      constructor; [|done]. destruct (le_total x y); congruence.
Qed.

Lemma sort_by_sorted_any l : StronglySorted (fun a b => le a b = true) (sort_by le l).
Proof using le_total le_trans.
  induction l as [|x l IH]; [constructor|].
  unfold sort_by in *. simpl. by apply insert_by_sorted_any.
Qed.

End SortAny.


(** ** Common words *)




(** ** Authors *)

Lemma str_ltb_connected a b : str_ltb a b = false -> str_ltb b a = false -> a = b.
Proof.
  revert b. induction a as [|x a IH]; intros [|y b]; try done.
  rewrite !str_ltb_cons.
  destruct (N.ltb_spec x y), (N.ltb_spec y x); try done; try lia.
  assert (x = y) as -> by lia. intros Ha Hb. f_equal. by apply IH.
Qed.

Lemma str_leb_total a b : str_leb a b = true \/ str_leb b a = true.
Proof.
  unfold str_leb. destruct (str_ltb b a) eqn:Hba; [|by left].
  right. by rewrite (str_ltb_asym _ _ Hba).
Qed.

Lemma str_leb_trans a b c :
  str_leb a b = true -> str_leb b c = true -> str_leb a c = true.
Proof.
  unfold str_leb. rewrite !negb_true_iff. apply str_le_trans.
Qed.

Lemma str_leb_antisym : AntiSymm (=) (fun a b => str_leb a b = true).
Proof.
  intros a b. unfold str_leb. rewrite !negb_true_iff. intros Hab Hba.
  by apply str_ltb_connected.
Qed.

(** [get_all_authors] returns the stripped, non-empty author names of the
    books, each once, in ascending order; the result is the same for every
    iteration order of the set it sorts. *)
Theorem get_all_authors_sorted_set (iter1 iter2 : set_iteration) (books : list Metadata) :
  admissible iter1 -> admissible iter2 ->
  let names := get_all_authors iter1 books in
  (forall a, a ∈ names <->
             a <> [] /\ exists book author,
                          book ∈ books /\ author ∈ authors book /\ a = strip author)
  /\ NoDup names
  /\ StronglySorted (fun a b => str_leb a b = true) names
  /\ get_all_authors iter2 books = names.
Proof.
  intros H1 H2 names. subst names. unfold get_all_authors.
  set (s := list_to_set (clean_authors books) : gset str).
  assert (forall iter, admissible iter -> sort_by str_leb (iter s) ≡ₚ elements s) as Hperm.
  { intros iter Hiter. rewrite sort_by_perm_any. apply Hiter. }
  assert (forall iter, StronglySorted (fun a b => str_leb a b = true)
                         (sort_by str_leb (iter s))) as Hsorted.
  { intros iter. apply sort_by_sorted_any; [apply str_leb_total|apply str_leb_trans]. }
  split; [|split; [|split]].
  - intros a. rewrite (Hperm iter1 H1), elem_of_elements. unfold s.
    rewrite elem_of_list_to_set. unfold clean_authors.
    rewrite list_elem_of_filter, list_elem_of_fmap.
    split.
    + intros [Hne (x & -> & Hx)]. split; [done|].
      apply list_elem_of_bind in Hx as (book & Hx & Hbook). by exists book, x.
    + intros [Hne (book & x & Hbook & Hx & ->)]. split; [done|].
      exists x. split; [done|]. apply list_elem_of_bind. by exists book.
  - rewrite (Hperm iter1 H1). apply NoDup_elements.
  - apply Hsorted.
  - pose proof str_leb_antisym as Hanti.
    apply (StronglySorted_unique (fun a b => str_leb a b = true)); [apply Hsorted..|].
    by rewrite (Hperm iter1), (Hperm iter2).
Qed.

Lemma get_all_authors_sorted_set_witness :
  let books := [authored_book (utf8 "X") [utf8 " B "; utf8 "A"];
                authored_book (utf8 "Y") [utf8 "A"; utf8 "  "]] in
  (admissible elements /\ admissible reverse_iteration)
  /\ (forall a, a ∈ get_all_authors elements books <->
                a <> [] /\ exists book author,
                             book ∈ books /\ author ∈ authors book /\ a = strip author)
  /\ NoDup (get_all_authors elements books)
  /\ StronglySorted (fun a b => str_leb a b = true) (get_all_authors elements books)
  /\ get_all_authors reverse_iteration books = get_all_authors elements books.
Proof.
  intros books.
  split; [split; [apply elements_admissible|apply reverse_iteration_admissible]|].
  exact (get_all_authors_sorted_set elements reverse_iteration books
           elements_admissible reverse_iteration_admissible).
Defined.

Example get_all_authors_sample :
  get_all_authors elements [authored_book (utf8 "X") [utf8 " B "; utf8 "A"];
                            authored_book (utf8 "Y") [utf8 "A"; utf8 "  "]]
  = [utf8 "A"; utf8 "B"].
Proof. vm_compute. reflexivity. Qed.

(** ** The base title is derived from the titles *)

Lemma strip_sublist s : strip s `sublist_of` s.
Proof.
  unfold strip.
  destruct (lstrip_by_suffix isspace s) as [pre Hpre].
  destruct (rstrip_by_split isspace (lstrip_by isspace s)) as (dropped & Hsplit & _).
  rewrite Hpre at 2. rewrite Hsplit at 2.
  by apply sublist_inserts_l, sublist_inserts_r.
Qed.

Lemma extracted_sublist title r : extracted title r -> fst r `sublist_of` title.
Proof.
  intros [->|(m & v & ->)]; [done|]. simpl. unfold title_before, rstrip_chars.
  destruct (rstrip_by_split (fun c => bool_decide (c ∈ utf8 " -_·・"))
              (take (Re.m_start m) title)) as (dropped & Hsplit & _).
  etrans; [|apply sublist_take]. rewrite Hsplit at 2. by apply sublist_inserts_r.
Qed.

Lemma simplify_titles_raises titles :
  simplify_titles titles = Exn
  <-> Exists (fun t => extract_volume_with_context t = Exn) titles.
Proof.
  induction titles as [|t titles IH]; simpl.
  - split; [done|]. intros H. by apply Exists_nil in H.
  - rewrite Exists_cons, <- IH.
    destruct (extract_volume_with_context t) as [r|]; cbn [mbind outcome_bind];
      [|by split; [left|]].
    destruct (simplify_titles titles) as [more|]; cbn [mbind outcome_bind].
    + case_bool_decide; split; try done; by intros [?|?].
    + split; [by right|done].
Qed.

Lemma simplify_titles_sublists titles simplified :
  simplify_titles titles = Val simplified ->
  Forall (fun s => exists t, t ∈ titles /\ s `sublist_of` t) simplified.
Proof.
  revert simplified. induction titles as [|t titles IH]; intros simplified; simpl.
  - intros [= <-]. constructor.
  - destruct (extract_volume_with_context t) as [r|] eqn:Hr; [|done].
    destruct (simplify_titles titles) as [more|]; [|done]. cbn [mbind outcome_bind].
    assert (Forall (fun s => exists t0, t0 ∈ t :: titles /\ s `sublist_of` t0) more)
      as Hall'.
    { eapply Forall_impl; [exact (IH more eq_refl)|]. intros s (t0 & Ht0 & Hsub).
      exists t0. split; [by apply elem_of_cons; right|done]. }
    case_bool_decide; intros [= <-]; [done|]. constructor; [|done].
    exists t. split; [by apply elem_of_cons; left|].
    etrans; [apply strip_sublist|]. by apply extracted_sublist, extract_volume_shape.
Qed.

Lemma simplify_titles_returns titles :
  Forall (fun t => extract_volume_with_context t <> Exn) titles ->
  exists simplified, simplify_titles titles = Val simplified.
Proof.
  intros Hall. destruct (simplify_titles titles) as [simplified|] eqn:Hs; [by eexists|].
  apply simplify_titles_raises, Exists_exists in Hs as (t & Hin & Hexn).
  rewrite Forall_forall in Hall. by destruct (Hall t Hin).
Qed.

Lemma commonprefix_prefix (m : list str) :
  Forall (fun x => commonprefix m `prefix_of` x) m.
Proof.
  destruct m as [|h t]; [constructor|].
  unfold commonprefix.
  destruct (py_min_least h t) as [Hmin_in Hmin], (py_max_greatest h t) as [Hmax_in Hmax].
  rewrite Forall_forall in Hmin, Hmax. apply Forall_forall. intros x Hx.
  apply common_head_between; [by apply Hmin|by apply Hmax].
Qed.

Lemma most_common_elem_of (l : list str) (t : str) : most_common l = Some t -> t ∈ l.
Proof.
  unfold most_common. destruct l as [|x rest]; [done|]. cbn [foldl].
  remember (x :: rest) as l eqn:Hl. intros Hfold.
  destruct (most_common_loop l rest [] x [] t) as (l1 & l2 & Heq & _).
  - constructor.
  - constructor.
  - exact Hfold.
  - rewrite Hl. change (x :: rest) with ([] ++ x :: [] ++ rest). rewrite Heq.
    apply elem_of_app. right. by apply elem_of_cons; left.
Qed.

Lemma base_of_simplified_derived (iter : set_iteration) (titles used : list str) :
  used <> [] ->
  let r := base_of_simplified iter titles used in
  Forall (fun s => r `sublist_of` s) used
  \/ r = join_space (find_common_words iter used)
  \/ r ∈ used.
Proof.
  intros Hused r. subst r. unfold base_of_simplified.
  destruct used as [|only [|second more]]; [done| |].
  { right. right. by apply elem_of_cons; left. }
  remember (only :: second :: more) as l eqn:Hl. clear Hl. rename l into used.
  destruct ((3 <=? length (commonprefix used))%nat
            && (3 <=? length (trim_to_word_boundary (commonprefix used)))%nat).
  { left. eapply Forall_impl; [apply commonprefix_prefix|]. intros s Hp.
    assert (trim_to_word_boundary (commonprefix used) `prefix_of` s) as [k ->]
      by (etrans; [apply trim_scan_prefix|done]).
    by apply sublist_inserts_r. }
  destruct (find_longest_common_subsequence used) as [lcs|] eqn:Hlcs.
  { left. revert Hlcs. unfold find_longest_common_subsequence.
    destruct used as [|base rest]; [done|].
    destruct (fold_lcs base rest) as [l|] eqn:Hf; [|done]. cbn [mbind option_bind].
    destruct (5 <=? length l)%nat; [|done]. intros [= <-].
    apply fold_lcs_common in Hf as [Hb Hrest]. by constructor. }
  destruct (find_common_words iter used) as [|w ws] eqn:Hw; [|by right; left].
  destruct (most_common_is_Some used Hused) as [t Hmc]. rewrite Hmc.
  right. right. by apply most_common_elem_of.
Qed.

Lemma extract_base_title_raises (iter : set_iteration) (titles : list str) :
  extract_base_title iter titles = Exn
  <-> Exists (fun t => extract_volume_with_context t = Exn) titles.
Proof.
  rewrite <- simplify_titles_raises. unfold extract_base_title.
  case_bool_decide as Ht; [by subst titles|].
  by destruct (simplify_titles titles).
Qed.

(** [extract_base_title] raises exactly when the extractor raises on one of
    the titles: its first loop calls the extractor outside any [try].
    Otherwise, with [used] the simplified titles it works on (the titles
    themselves when every simplified title is empty), each of which is a
    subsequence of one of the titles, the result is a subsequence of every
    text of [used], or the common words of [used] joined by spaces, or one
    of the texts of [used]. *)
Theorem extract_base_title_derived (iter : set_iteration) (titles : list str) :
  (extract_base_title iter titles = Exn
   <-> Exists (fun t => extract_volume_with_context t = Exn) titles)
  /\ (Forall (fun t => extract_volume_with_context t <> Exn) titles ->
      exists simplified r,
        simplify_titles titles = Val simplified
        /\ extract_base_title iter titles = Val r
        /\ let used := if bool_decide (simplified = []) then titles else simplified in
           Forall (fun s => exists t, t ∈ titles /\ s `sublist_of` t) used
           /\ (Forall (fun s => r `sublist_of` s) used
               \/ r = join_space (find_common_words iter used)
               \/ r ∈ used)).
Proof.
  split; [apply extract_base_title_raises|].
  intros Hret.
  - destruct (simplify_titles_returns titles Hret) as (simplified & Hs).
    pose proof (simplify_titles_sublists _ _ Hs) as Hall.
    exists simplified. unfold extract_base_title. case_bool_decide as Ht.
    { subst titles. injection Hs as <-. exists []. repeat split; [constructor|].
      left. constructor. }
    rewrite Hs. cbn [mbind outcome_bind].
    set (used := if bool_decide (simplified = []) then titles else simplified).
    exists (base_of_simplified iter titles used). split; [done|]. split; [done|].
    assert (used <> []) as Hused by (unfold used; by case_bool_decide).
    split.
    { unfold used. case_bool_decide; [|done].
      apply Forall_forall. intros t Hin. by exists t. }
    by apply base_of_simplified_derived.
Qed.

Lemma extract_base_title_derived_witness :
  let titles := [utf8 "海贼王 第1卷"; utf8 "海贼王 第2卷"] in
  Forall (fun t => extract_volume_with_context t <> Exn) titles
  /\ exists simplified r,
       simplify_titles titles = Val simplified
       /\ extract_base_title elements titles = Val r
       /\ let used := if bool_decide (simplified = []) then titles else simplified in
          Forall (fun s => exists t, t ∈ titles /\ s `sublist_of` t) used
          /\ (Forall (fun s => r `sublist_of` s) used
              \/ r = join_space (find_common_words elements used)
              \/ r ∈ used).
Proof.
  intros titles.
  assert (Forall (fun t => extract_volume_with_context t <> Exn) titles) as H
    by (repeat constructor; vm_compute; discriminate).
  split; [exact H|]. exact (proj2 (extract_base_title_derived elements titles) H).
Defined.

(** The single title [第1...1卷] with 4301 digits: [extract_base_title]
    raises. *)
Example extract_base_title_long_numeral :
  extract_base_title elements [utf8 "第" ++ replicate 4301 49%N ++ utf8 "卷"] = Exn.
Proof.
  apply extract_base_title_raises. apply Exists_cons_hd.
  change (utf8 "第" ++ replicate 4301 49%N ++ utf8 "卷")
    with ([] ++ utf8 "第" ++ replicate 4301 49%N ++ 21367%N :: []).
  apply extract_marker.
  - apply not_elem_of_nil.
  - done.
  - apply Forall_replicate. vm_compute. reflexivity.
  - apply (bool_decide_unpack _). vm_compute. exact I.
  - constructor.
  - apply parse_volume_number_long_text.
Qed.

(** ** Reordering the list of the dialog *)

Lemma position_Some {A} (l : list A) index p :
  position l index = Some p ->
  (p < length l)%nat
  /\ Z.of_nat p = (if (0 <=? index)%Z then index else Z.of_nat (length l) + index)%Z.
Proof.
  unfold position. cbv zeta.
  destruct (Z.leb_spec 0 index).
  - destruct (Z.ltb_spec index (Z.of_nat (length l))); intros [= <-]. lia.
  - destruct (Z.leb_spec 0 (Z.of_nat (length l) + index)); intros [= <-]. lia.
Qed.

Lemma position_in_range {A} (l : list A) index :
  (- Z.of_nat (length l) <= index < Z.of_nat (length l))%Z ->
  is_Some (position l index).
Proof.
  intros H. unfold position. cbv zeta.
  destruct (Z.leb_spec 0 index).
  - rewrite (proj2 (Z.ltb_lt _ _)) by lia. by eexists.
  - rewrite (proj2 (Z.leb_le _ _)) by lia. by eexists.
Qed.

Lemma position_length {A B} (l : list A) (k : list B) index :
  length l = length k -> position l index = position k index.
Proof. unfold position. by intros ->. Qed.

Lemma insert_cons_perm {A} (l : list A) q x y :
  l !! q = Some x -> x :: <[q := y]> l ≡ₚ y :: l.
Proof.
  revert q. induction l as [|z l IH]; intros [|q] Hq; try done; simpl in *.
  - injection Hq as ->. apply Permutation_swap.
  - rewrite (Permutation_swap z x), (IH q Hq). apply Permutation_swap.
Qed.

Lemma swapped_perm {A} (l : list A) p1 p2 x1 x2 :
  l !! p1 = Some x1 -> l !! p2 = Some x2 -> <[p2 := x1]> (<[p1 := x2]> l) ≡ₚ l.
Proof.
  revert p1 p2. induction l as [|z l IH]; intros [|p1] [|p2] H1 H2; try done; simpl in *.
  - injection H1 as ->. by injection H2 as ->.
  - injection H1 as ->. by apply insert_cons_perm.
  - injection H2 as ->. by apply insert_cons_perm.
  - by rewrite IH.
Qed.

Lemma swapped_back {A} (l : list A) p1 p2 x1 x2 :
  l !! p1 = Some x1 -> l !! p2 = Some x2 ->
  let l' := <[p2 := x1]> (<[p1 := x2]> l) in
  exists y1 y2, l' !! p1 = Some y1 /\ l' !! p2 = Some y2
                /\ <[p2 := y1]> (<[p1 := y2]> l') = l.
Proof.
  intros H1 H2 l'.
  pose proof (lookup_lt_Some _ _ _ H1) as Hp1. pose proof (lookup_lt_Some _ _ _ H2) as Hp2.
  destruct (decide (p1 = p2)) as [->|Hne].
  - assert (x1 = x2) as -> by congruence.
    assert (l' = l) as Hl'.
    { unfold l'. by rewrite list_insert_insert_eq, list_insert_id. }
    exists x2, x2. rewrite Hl'. split; [done|]. split; [done|].
    by rewrite list_insert_insert_eq, list_insert_id.
  - exists x2, x1. unfold l'. split; [|split].
    + rewrite list_lookup_insert_ne by done. apply list_lookup_insert_eq. lia.
    + apply list_lookup_insert_eq. by rewrite length_insert.
    + apply list_eq. intros k.
      destruct (decide (k = p2)) as [->|Hk2].
      { rewrite list_lookup_insert_eq by (by rewrite !length_insert). done. }
      rewrite list_lookup_insert_ne by done.
      destruct (decide (k = p1)) as [->|Hk1].
      { rewrite list_lookup_insert_eq by (by rewrite !length_insert). done. }
      by rewrite !list_lookup_insert_ne by done.
Qed.

(** What an exchange at two admissible indexes does to one list. *)
Lemma swap_entries_in_range {A} (l : list A) index1 index2 :
  is_Some (position l index1) -> is_Some (position l index2) ->
  exists l', swap_entries l index1 index2 = Val l'
             /\ l' ≡ₚ l /\ length l' = length l
             /\ swap_entries l' index1 index2 = Val l.
Proof.
  intros [p1 Hp1] [p2 Hp2].
  destruct (position_Some _ _ _ Hp1) as [Hlt1 _], (position_Some _ _ _ Hp2) as [Hlt2 _].
  destruct (lookup_lt_is_Some_2 l p1 Hlt1) as [x1 H1].
  destruct (lookup_lt_is_Some_2 l p2 Hlt2) as [x2 H2].
  unfold swap_entries at 1. rewrite Hp1, Hp2, H1, H2. eexists. split; [done|].
  split; [by apply swapped_perm|]. split; [by rewrite !length_insert|].
  destruct (swapped_back l p1 p2 x1 x2 H1 H2) as (y1 & y2 & Hy1 & Hy2 & Hback).
  unfold swap_entries.
  rewrite !(position_length (<[p2:=x1]> (<[p1:=x2]> l)) l) by (by rewrite !length_insert).
  by rewrite Hp1, Hp2, Hy1, Hy2, Hback.
Qed.

(** Two lists of the same length that are related position by position
    stay so when the same exchange is made in both. *)
Lemma swap_entries_Forall2 {A B} (R : A -> B -> Prop) (l l' : list A) (k k' : list B)
    index1 index2 :
  Forall2 R l k ->
  swap_entries l index1 index2 = Val l' -> swap_entries k index1 index2 = Val k' ->
  Forall2 R l' k'.
Proof.
  intros HR. unfold swap_entries.
  rewrite !(position_length l k) by (by eapply Forall2_length).
  destruct (position k index2) as [p2|]; [|done].
  destruct (position k index1) as [p1|]; [|done].
  destruct (l !! p2) as [x2|] eqn:Hx2; [|done]. destruct (l !! p1) as [x1|] eqn:Hx1; [|done].
  destruct (k !! p2) as [y2|] eqn:Hy2; [|done]. destruct (k !! p1) as [y1|] eqn:Hy1; [|done].
  intros [= <-] [= <-].
  apply Forall2_insert; [apply Forall2_insert; [done|]|]; by eapply Forall2_lookup_lr.
Qed.

Lemma swap_entries_comm {A} (l : list A) index1 index2 :
  swap_entries l index1 index2 = swap_entries l index2 index1.
Proof.
  unfold swap_entries.
  destruct (position l index2) as [p2|], (position l index1) as [p1|]; try done.
  destruct (l !! p2) as [x2|] eqn:H2, (l !! p1) as [x1|] eqn:H1; try done.
  f_equal. destruct (decide (p1 = p2)) as [->|Hne].
  - by replace x1 with x2 by congruence.
  - by apply list_insert_insert_ne.
Qed.

Lemma swap_book_items_comm d index1 index2 :
  swap_book_items d index1 index2 = swap_book_items d index2 index1.
Proof.
  unfold swap_book_items.
  by rewrite (swap_entries_comm (valid_book_ids d)), (swap_entries_comm (books d)),
    (swap_entries_comm (titles d)).
Qed.

Lemma aligned_lengths d :
  aligned d ->
  length (valid_book_ids d) = length (books d) /\ length (titles d) = length (books d).
Proof.
  intros (_ & Hb & Ht). apply Forall2_length in Hb, Ht. lia.
Qed.

Lemma swap_book_items_in_range (d : dialog) (index1 index2 : Z) :
  aligned d ->
  (- Z.of_nat (length (books d)) <= index1 < Z.of_nat (length (books d)))%Z ->
  (- Z.of_nat (length (books d)) <= index2 < Z.of_nat (length (books d)))%Z ->
  exists d',
    swap_book_items d index1 index2 = Val d'
    /\ swap_entries (valid_book_ids d) index1 index2 = Val (valid_book_ids d')
    /\ aligned d'
    /\ valid_book_ids d' ≡ₚ valid_book_ids d
    /\ length (books d') = length (books d)
    /\ books_dict d' = books_dict d /\ book_id_to_title d' = book_id_to_title d
    /\ swap_book_items d' index1 index2 = Val d.
Proof.
  intros Hal H1 H2. destruct (aligned_lengths d Hal) as [Hli Hlt].
  destruct Hal as (Hids & Hbooks & Htitles).
  destruct (swap_entries_in_range (valid_book_ids d) index1 index2)
    as (ids & Hi & Hiperm & _ & Hiback); [apply position_in_range; lia..|].
  destruct (swap_entries_in_range (books d) index1 index2)
    as (bs & Hb & _ & Hblen & Hbback); [apply position_in_range; lia..|].
  destruct (swap_entries_in_range (titles d) index1 index2)
    as (ts & Ht & _ & _ & Htback); [apply position_in_range; lia..|].
  unfold swap_book_items. rewrite Hi, Hb, Ht. cbn [mbind outcome_bind].
  eexists. split; [done|]. cbn [valid_book_ids books titles books_dict book_id_to_title].
  split; [done|]. split.
  { split; [done|]. cbn [valid_book_ids books titles books_dict book_id_to_title].
    split; eapply swap_entries_Forall2; eauto. }
  split; [done|]. split; [done|]. split; [done|]. split; [done|].
  rewrite Hiback, Hbback, Htback. cbn [mbind outcome_bind].
  destruct d; cbn in *. by subst.
Qed.

(** Exchanging two rows of an aligned dialog raises nothing when both
    indexes are in the range of the list (a negative index counting from
    the end).  The dialog stays aligned, the ids are the same ids in
    another order, the tables are untouched, and the same exchange again
    restores the dialog. *)
Theorem swap_book_items_aligned (d : dialog) (index1 index2 : Z) :
  aligned d ->
  (- Z.of_nat (length (books d)) <= index1 < Z.of_nat (length (books d)))%Z ->
  (- Z.of_nat (length (books d)) <= index2 < Z.of_nat (length (books d)))%Z ->
  exists d',
    swap_book_items d index1 index2 = Val d'
    /\ aligned d'
    /\ valid_book_ids d' ≡ₚ valid_book_ids d
    /\ books_dict d' = books_dict d /\ book_id_to_title d' = book_id_to_title d
    /\ swap_book_items d' index1 index2 = Val d.
Proof.
  intros Hal H1 H2.
  destruct (swap_book_items_in_range d index1 index2 Hal H1 H2)
    as (d' & Hs & _ & Hal' & Hperm & _ & Hd & Ht & Hback).
  by exists d'.
Qed.

(** Moving a row up and then down again, or down and then up again,
    restores the dialog and the current row; in between the dialog is
    aligned and lists the same ids.  Moving row [r] up and moving row
    [r - 1] down give the same dialog. *)
Theorem move_book_up_and_down (d : dialog) (current_row : Z) :
  aligned d -> (0 < current_row < Z.of_nat (length (books d)))%Z ->
  exists d',
    move_book_up current_row d = Val (d', (current_row - 1)%Z)
    /\ move_book_down (current_row - 1) d = Val (d', current_row)
    /\ aligned d' /\ valid_book_ids d' ≡ₚ valid_book_ids d
    /\ move_book_down (current_row - 1) d' = Val (d, current_row)
    /\ move_book_up current_row d' = Val (d, (current_row - 1)%Z).
Proof.
  intros Hal Hrow.
  destruct (swap_book_items_in_range d current_row (current_row - 1) Hal)
    as (d' & Hs & _ & Hal' & Hperm & Hlen & _ & _ & Hback); [lia..|].
  exists d'. unfold move_book_up, move_book_down.
  rewrite (proj2 (Z.ltb_lt 0 current_row)) by lia.
  rewrite !(proj2 (Z.ltb_lt (current_row - 1) _)) by lia.
  replace (current_row - 1 + 1)%Z with current_row by lia.
  rewrite !(swap_book_items_comm _ (current_row - 1) current_row), Hs, Hback.
  done.
Qed.

(** With no current row (the list widget reports [-1]) and at least two
    books, [move_book_down] passes its check and exchanges the last book
    with the first; row 0 is current afterwards. *)
Theorem move_book_down_without_row (d : dialog) (first_id last_id : Z) (middle : list Z) :
  aligned d -> valid_book_ids d = first_id :: middle ++ [last_id] ->
  exists d',
    move_book_down (-1) d = Val (d', 0%Z)
    /\ valid_book_ids d' = last_id :: middle ++ [first_id]
    /\ aligned d'.
Proof.
  intros Hal Hids. destruct (aligned_lengths d Hal) as [Hli _].
  assert (length (books d) = S (S (length middle))) as Hn.
  { rewrite <- Hli, Hids. simpl. rewrite length_app. simpl. lia. }
  destruct (swap_book_items_in_range d (-1) (-1 + 1) Hal)
    as (d' & Hs & Hi & Hal' & _); [lia..|].
  exists d'. unfold move_book_down.
  rewrite (proj2 (Z.ltb_lt (-1) _)) by lia. rewrite Hs. split; [done|]. split; [|done].
  revert Hi. unfold swap_entries, position. rewrite Hids. cbv zeta.
  replace (length (first_id :: middle ++ [last_id])) with (S (S (length middle)))
    by (simpl; rewrite length_app; simpl; lia).
  change (-1 + 1)%Z with 0%Z. change (0 <=? 0)%Z with true. change (0 <=? -1)%Z with false.
  rewrite (proj2 (Z.ltb_lt 0 _)) by lia. rewrite (proj2 (Z.leb_le 0 _)) by lia.
  replace (Z.to_nat (Z.of_nat (S (S (length middle))) + -1)) with (S (length middle)) by lia.
  change (Z.to_nat 0) with 0%nat.
  change ((first_id :: middle ++ [last_id]) !! 0%nat) with (Some first_id).
  change ((first_id :: middle ++ [last_id]) !! S (length middle))
    with ((middle ++ [last_id]) !! length middle).
  assert ((middle ++ [last_id]) !! length middle = Some last_id) as Hlast.
  { rewrite lookup_app_r by lia. by rewrite Nat.sub_diag. }
  rewrite Hlast. intros [= <-]. cbn [insert list_insert]. f_equal.
  replace (length middle) with (length middle + 0)%nat at 1 by lia.
  by rewrite insert_app_r.
Qed.

(** ** Opening the dialog *)

(** The loop of [fetch_books_metadata] leaves the lists alone. *)
Lemma fetch_loop_lists db ids d :
  let d' := fetch_loop db ids d in
  book_ids d' = book_ids d /\ valid_book_ids d' = valid_book_ids d
  /\ books d' = books d /\ titles d' = titles d.
Proof.
  revert d. induction ids as [|x ids IH]; intros d; [done|]. simpl.
  unfold get_metadata. destruct (db !! x) as [[mi|]|]; [|apply IH..].
  destruct (negb _); [|apply IH].
  destruct (IH {| book_ids := book_ids d;
                  books_dict := <[x := mi]> (books_dict d);
                  book_id_to_title := <[x := title mi]> (book_id_to_title d);
                  valid_book_ids := valid_book_ids d;
                  books := books d;
                  titles := titles d |}) as (? & ? & ? & ?).
  done.
Qed.

(** What the loop of [fetch_books_metadata] makes of the two tables at an
    id: both keep their entry, or both get the metadata of the database
    and its title. *)
Lemma fetch_loop_tables db ids d book_id :
  let d' := fetch_loop db ids d in
  (books_dict d' !! book_id = books_dict d !! book_id
   /\ book_id_to_title d' !! book_id = book_id_to_title d !! book_id
   /\ ~ (book_id ∈ ids
         /\ exists mi, db !! book_id = Some (Some mi) /\ title mi <> []))
  \/ (exists mi,
        book_id ∈ ids /\ db !! book_id = Some (Some mi) /\ title mi <> []
        /\ books_dict d' !! book_id = Some mi
        /\ book_id_to_title d' !! book_id = Some (title mi)).
Proof.
  revert d. induction ids as [|x ids IH]; intros d.
  { left. split; [done|]. split; [done|]. intros [Hin _]. by apply elem_of_nil in Hin. }
  simpl. unfold get_metadata.
  assert (forall d0,
    (~ exists mi, db !! x = Some (Some mi) /\ title mi <> []) ->
    let d' := fetch_loop db ids d0 in
    (books_dict d' !! book_id = books_dict d0 !! book_id
     /\ book_id_to_title d' !! book_id = book_id_to_title d0 !! book_id
     /\ ~ (book_id ∈ x :: ids
           /\ exists mi, db !! book_id = Some (Some mi) /\ title mi <> []))
    \/ (exists mi,
          book_id ∈ x :: ids /\ db !! book_id = Some (Some mi) /\ title mi <> []
          /\ books_dict d' !! book_id = Some mi
          /\ book_id_to_title d' !! book_id = Some (title mi))) as Hskip.
  { intros d0 Hx. destruct (IH d0) as [(Hb & Ht & Hnot)|(mi & Hin & Hrest)].
    - left. split; [done|]. split; [done|]. intros [Hin Hgood].
      apply elem_of_cons in Hin as [->|Hin]; [done|]. by apply Hnot.
    - right. exists mi. split; [by apply elem_of_cons; right|done]. }
  destruct (db !! x) as [[mi|]|] eqn:Hx.
  - case_bool_decide as Ht; cbn [negb].
    + apply Hskip. intros (mi' & [= <-] & Hne). done.
    + match goal with |- context [fetch_loop db ids ?d0] => destruct (IH d0) as
        [(Hb & Htt & Hnot)|(mi' & Hin & Hrest)] end.
      * cbn [books_dict book_id_to_title] in Hb, Htt.
        destruct (decide (book_id = x)) as [->|Hne].
        -- right. exists mi. rewrite Hb, Htt, !lookup_insert_eq.
           split; [by apply elem_of_cons; left|done].
        -- left. rewrite Hb, Htt, !lookup_insert_ne by done.
           split; [done|]. split; [done|]. intros [Hin Hgood].
           apply elem_of_cons in Hin as [->|Hin]; [done|]. by apply Hnot.
      * right. exists mi'. split; [by apply elem_of_cons; right|done].
  - apply Hskip. by intros (mi' & [=] & _).
  - apply Hskip. by intros (mi' & [=] & _).
Qed.

(** The tables of a freshly fetched dialog: an id has an entry exactly when
    it is selected and the database has metadata with a non-empty title
    for it; the entries are that metadata and its title. *)
Lemma fetch_books_metadata_tables db selected book_id :
  let d := fetch_books_metadata db (new_dialog selected) in
  book_ids d = selected /\ valid_book_ids d = [] /\ books d = [] /\ titles d = []
  /\ (forall mi,
        books_dict d !! book_id = Some mi <->
        book_id ∈ selected /\ db !! book_id = Some (Some mi) /\ title mi <> [])
  /\ book_id_to_title d !! book_id = title <$> books_dict d !! book_id.
Proof.
  unfold fetch_books_metadata. cbn [book_ids new_dialog].
  destruct (fetch_loop_lists db selected (new_dialog selected)) as (? & ? & ? & ?).
  do 4 (split; [done|]).
  destruct (fetch_loop_tables db selected (new_dialog selected) book_id)
    as [(Hb & Ht & Hnot)|(mi & Hin & Hdb & Hne & Hb & Ht)].
  - cbn [books_dict book_id_to_title new_dialog] in Hb, Ht.
    rewrite Hb, Ht, !lookup_empty. split; [|done].
    intros mi. split; [done|]. intros (Hin & Hdb & Hne). destruct Hnot. eauto.
  - rewrite Hb, Ht. split; [|done]. intros mi'. split.
    + by intros [= <-].
    + intros (_ & Hdb' & _). congruence.
Qed.

(** The first loop of [organize_book_data], when each id of [books_dict] has
    a title in [book_id_to_title]: no [KeyError], and the three lists
    grow by the sorted ids that [books_dict] knows, their metadata and
    their titles. *)
Lemma append_sorted_known sorted_books d :
  (forall book_id, is_Some (books_dict d !! book_id) ->
                   is_Some (book_id_to_title d !! book_id)) ->
  exists d',
    append_sorted sorted_books d = Val d'
    /\ book_ids d' = book_ids d
    /\ books_dict d' = books_dict d /\ book_id_to_title d' = book_id_to_title d
    /\ valid_book_ids d'
       = valid_book_ids d
         ++ filter (fun book_id => is_Some (books_dict d !! book_id)) sorted_books.*1
    /\ exists new_books new_titles,
         books d' = books d ++ new_books /\ titles d' = titles d ++ new_titles
         /\ Forall2 (fun book_id mi => books_dict d !! book_id = Some mi)
              (filter (fun book_id => is_Some (books_dict d !! book_id)) sorted_books.*1)
              new_books
         /\ Forall2 (fun book_id t => book_id_to_title d !! book_id = Some t)
              (filter (fun book_id => is_Some (books_dict d !! book_id)) sorted_books.*1)
              new_titles.
Proof.
  revert d. induction sorted_books as [|[book_id v] rest IH]; intros d Htables.
  { exists d. simpl. rewrite app_nil_r. do 5 (split; [done|]).
    exists [], []. by rewrite !app_nil_r. }
  cbn [append_sorted fmap list_fmap fst]. rewrite filter_cons.
  destruct (books_dict d !! book_id) as [mi|] eqn:Hmi.
  - destruct (Htables book_id) as [t Ht]; [by rewrite Hmi|]. rewrite Ht.
    rewrite decide_True by (by eexists).
    match goal with |- context [append_sorted rest ?d0] => destruct (IH d0)
      as (d' & -> & Hids & Hbd & Hbt & Hv & bs & ts & Hb & Htt & Hfb & Hft) end;
      [done|].
    cbn [book_ids books_dict book_id_to_title valid_book_ids books titles] in *.
    exists d'. do 4 (split; [done|]). split.
    { rewrite Hv. by rewrite <- app_assoc. }
    exists (mi :: bs), (t :: ts). rewrite Hb, Htt, <- !app_assoc.
    split; [done|]. split; [done|]. split; by constructor.
  - rewrite decide_False by (by intros [? ?]). by apply IH.
Qed.

Lemma Forall2_agree {A B C} (P : A -> B -> Prop) (Q : A -> C -> Prop) (f : B -> C)
    l bs ts :
  (forall x b t, P x b -> Q x t -> t = f b) ->
  Forall2 P l bs -> Forall2 Q l ts -> ts = f <$> bs.
Proof.
  intros Hf HP. revert ts. induction HP as [|x b l bs Hxb _ IH]; intros ts HQ.
  - by apply Forall2_nil_inv_l in HQ as ->.
  - apply Forall2_cons_inv_l in HQ as (t & ts' & Hxt & HQ & ->).
    simpl. f_equal; [by eapply Hf|by apply IH].
Qed.

Lemma detect_and_sort_ids db ids book_id :
  book_id ∈ (detect_and_sort_books_by_volume db ids).*1
  <-> book_id ∈ (books_with_volume db ids).*1.
Proof.
  unfold detect_and_sort_books_by_volume, sorted_by_key.
  by rewrite sort_by_perm_any.
Qed.

Lemma books_with_volume_lists db ids book_id mi :
  book_id ∈ ids -> db !! book_id = Some (Some mi) ->
  book_id ∈ (books_with_volume db ids).*1.
Proof.
  intros Hin Hdb. apply list_elem_of_fmap. eexists (book_id, _). split; [done|].
  by eapply books_with_volume_has.
Qed.

(** What [__init__] does before it infers the base title: it ends with the
    first or the second error message, or it has set up an aligned dialog
    and goes on to [extract_base_title] on the titles of that dialog. *)
Lemma init_cases
    (iter_words iter_authors : set_iteration) (db : database) (selected : list Z) :
  (selected = [] /\ __init__ iter_words iter_authors db selected = Val NoSelection)
  \/ (Forall (fun book_id =>
                ~ exists mi, db !! book_id = Some (Some mi) /\ title mi <> [])
             selected
      /\ __init__ iter_words iter_authors db selected = Val NothingFetched)
  \/ exists d,
       __init__ iter_words iter_authors db selected
       = (base_title ← extract_base_title iter_words (titles d);
          Val (Ready d base_title (get_all_authors iter_authors (books d))))
       /\ aligned d
       /\ valid_book_ids d <> []
       /\ valid_book_ids d
          = filter (fun book_id => is_Some (books_dict d !! book_id))
                   (detect_and_sort_books_by_volume db selected).*1
       /\ (forall book_id mi,
             books_dict d !! book_id = Some mi <->
             book_id ∈ selected /\ db !! book_id = Some (Some mi) /\ title mi <> [])
       /\ (forall book_id,
             book_id ∈ valid_book_ids d <-> is_Some (books_dict d !! book_id))
       /\ titles d = title <$> books d.
Proof.
  unfold __init__. case_bool_decide as Hsel; [by left|]. right.
  pose proof (fetch_books_metadata_tables db selected) as Hfetch.
  set (d0 := fetch_books_metadata db (new_dialog selected)) in *. cbv zeta in Hfetch.
  destruct (Hfetch 0%Z) as (Hids0 & Hv0 & Hb0 & Ht0 & _).
  assert (forall book_id mi,
            books_dict d0 !! book_id = Some mi <->
            book_id ∈ selected /\ db !! book_id = Some (Some mi) /\ title mi <> [])
    as Hdict by (intros book_id; apply Hfetch).
  assert (forall book_id,
            book_id_to_title d0 !! book_id = title <$> books_dict d0 !! book_id)
    as Htitle by (intros book_id; apply Hfetch).
  clearbody d0. clear Hfetch.
  case_bool_decide as Hempty.
  { left. split; [|done]. apply Forall_forall.
    intros book_id Hin (mi & Hdb & Hne).
    assert (books_dict d0 !! book_id = Some mi) as Hl by (by apply Hdict).
    by rewrite Hempty, lookup_empty in Hl. }
  right. unfold organize_book_data. rewrite Hids0.
  destruct (append_sorted_known (detect_and_sort_books_by_volume db selected) d0)
    as (d1 & -> & Hids1 & Hbd & Hbt & Hv1 & bs & ts & Hb1 & Ht1 & Hfb & Hft).
  { intros book_id [mi Hmi]. rewrite Htitle, Hmi. by eexists. }
  rewrite Hv0 in Hv1. rewrite Hb0 in Hb1. rewrite Ht0 in Ht1. cbn [app] in Hv1, Hb1, Ht1.
  cbn [mbind outcome_bind].
  assert (lengths_agree d1 = true) as ->.
  { unfold lengths_agree. rewrite Hv1, Hb1, Ht1.
    apply Forall2_length in Hfb, Hft. rewrite <- Hfb, <- Hft.
    by rewrite !bool_decide_eq_true_2. }
  cbn [mbind outcome_bind].
  assert (forall book_id,
            book_id ∈ valid_book_ids d1 <-> is_Some (books_dict d0 !! book_id)) as Hmem.
  { intros book_id. rewrite Hv1, list_elem_of_filter. split; [by intros [? _]|].
    intros [mi Hmi]. split; [by eexists|].
    apply Hdict in Hmi as (Hin & Hdb & _).
    apply detect_and_sort_ids. by eapply books_with_volume_lists. }
  case_bool_decide as Hvalid.
  { exfalso. destruct (map_choose _ Hempty) as (book_id & mi & Hmi).
    assert (book_id ∈ valid_book_ids d1) as Hin by (apply Hmem; by eexists).
    rewrite Hvalid in Hin. by apply elem_of_nil in Hin. }
  exists {| book_ids := valid_book_ids d1;
            books_dict := books_dict d1;
            book_id_to_title := book_id_to_title d1;
            valid_book_ids := valid_book_ids d1;
            books := books d1;
            titles := titles d1 |}.
  split; [reflexivity|].
  cbn [valid_book_ids books titles books_dict book_id_to_title book_ids].
  rewrite Hbd, Hbt. split.
  { split; [done|]. cbn [valid_book_ids books titles books_dict book_id_to_title].
    rewrite Hv1, Hb1, Ht1. by split. }
  split; [done|]. split; [done|]. split; [done|]. split; [done|].
  rewrite Hb1, Ht1. refine (Forall2_agree _ _ title _ bs ts _ Hfb Hft).
  intros book_id mi t Hmi Ht. rewrite Htitle, Hmi in Ht. by injection Ht as <-.
Qed.

(** The titles of an aligned dialog whose dictionary holds the selected
    books with a non-empty title are the titles of those books. *)
Lemma aligned_titles (db : database) (selected : list Z) (d : dialog) (t : str) :
  aligned d ->
  (forall book_id mi,
     books_dict d !! book_id = Some mi <->
     book_id ∈ selected /\ db !! book_id = Some (Some mi) /\ title mi <> []) ->
  (forall book_id, book_id ∈ valid_book_ids d <-> is_Some (books_dict d !! book_id)) ->
  titles d = title <$> books d ->
  t ∈ titles d <->
  exists book_id mi,
    book_id ∈ selected /\ db !! book_id = Some (Some mi) /\ title mi <> []
    /\ t = title mi.
Proof.
  intros (_ & Hfb & _) Hdict Hmem ->. rewrite list_elem_of_fmap. split.
  - intros (mi & -> & Hmi). apply list_elem_of_lookup in Hmi as [k Hk].
    destruct (Forall2_lookup_r _ _ _ _ _ Hfb Hk) as (book_id & _ & Hl).
    apply Hdict in Hl as (? & ? & ?). by exists book_id, mi.
  - intros (book_id & mi & Hin & Hdb & Hne & ->).
    assert (books_dict d !! book_id = Some mi) as Hl by (by apply Hdict).
    assert (book_id ∈ valid_book_ids d) as Hv by (apply Hmem; by eexists).
    apply list_elem_of_lookup in Hv as [k Hk].
    destruct (Forall2_lookup_l _ _ _ _ _ Hfb Hk) as (mi' & Hk' & Hl').
    assert (mi' = mi) as -> by congruence.
    exists mi. split; [done|]. by eapply list_elem_of_lookup_2.
Qed.

(** What [__init__] returns: of its three error messages the last (no
    valid data) never appears, and the dialog it sets up is aligned. *)
Lemma init_result
    (iter_words iter_authors : set_iteration) (db : database) (selected : list Z) r :
  __init__ iter_words iter_authors db selected = Val r ->
  match r with
  | NoSelection => selected = []
  | NothingFetched =>
      Forall (fun book_id =>
                ~ exists mi, db !! book_id = Some (Some mi) /\ title mi <> [])
             selected
  | NoValidData => False
  | Ready d base_title all_authors =>
      aligned d
      /\ valid_book_ids d <> []
      /\ valid_book_ids d
         = filter (fun book_id => is_Some (books_dict d !! book_id))
                  (detect_and_sort_books_by_volume db selected).*1
      /\ (forall book_id mi,
            books_dict d !! book_id = Some mi <->
            book_id ∈ selected /\ db !! book_id = Some (Some mi) /\ title mi <> [])
      /\ (forall book_id,
            book_id ∈ valid_book_ids d <-> is_Some (books_dict d !! book_id))
      /\ titles d = title <$> books d
  end.
Proof.
  destruct (init_cases iter_words iter_authors db selected)
    as [[Hsel ->]|[[Hnone ->]|(d & -> & Hd)]].
  - by intros [= <-].
  - by intros [= <-].
  - destruct (extract_base_title iter_words (titles d)); [|done].
    cbn [mbind outcome_bind]. by intros [= <-].
Qed.

Lemma init_raises
    (iter_words iter_authors : set_iteration) (db : database) (selected : list Z) :
  __init__ iter_words iter_authors db selected = Exn
  <-> exists book_id mi,
        book_id ∈ selected /\ db !! book_id = Some (Some mi) /\ title mi <> []
        /\ extract_volume_with_context (title mi) = Exn.
Proof.
  destruct (init_cases iter_words iter_authors db selected)
    as [[Hsel ->]|[[Hnone ->]|(d & -> & Hal & _ & _ & Hdict & Hmem & Ht)]].
  - split; [done|]. intros (book_id & _ & Hin & _). subst selected.
    by apply elem_of_nil in Hin.
  - split; [done|]. intros (book_id & mi & Hin & Hdb & Hne & _).
    rewrite Forall_forall in Hnone. destruct (Hnone book_id Hin). eauto.
  - transitivity (extract_base_title iter_words (titles d) = Exn).
    { by destruct (extract_base_title iter_words (titles d)). }
    rewrite extract_base_title_raises, Exists_exists. split.
    + intros (t & Hin & Hexn).
      apply (aligned_titles db selected d t Hal Hdict Hmem Ht) in Hin
        as (book_id & mi & ? & ? & ? & ->).
      by exists book_id, mi.
    + intros (book_id & mi & Hin & Hdb & Hne & Hexn). exists (title mi).
      split; [|done]. apply (aligned_titles db selected d _ Hal Hdict Hmem Ht).
      by exists book_id, mi.
Qed.

(** [__init__] raises exactly when the extractor raises on the title of a
    selected book that has metadata with a non-empty title:
    [extract_base_title] runs on these titles outside any [try].  When it
    returns, of its three error messages the last (no valid data) never
    appears.  The dialog it sets up is aligned; its list holds, in the
    order of [detect_and_sort_books_by_volume], the selected ids for which
    the database has metadata with a non-empty title, and beside each its
    metadata and title as the database has them. *)
Theorem init_sets_up_aligned_dialog
    (iter_words iter_authors : set_iteration) (db : database) (selected : list Z) :
  (__init__ iter_words iter_authors db selected = Exn
   <-> exists book_id mi,
         book_id ∈ selected /\ db !! book_id = Some (Some mi) /\ title mi <> []
         /\ extract_volume_with_context (title mi) = Exn)
  /\ forall r,
       __init__ iter_words iter_authors db selected = Val r ->
       match r with
       | NoSelection => selected = []
       | NothingFetched =>
           Forall (fun book_id =>
                     ~ exists mi, db !! book_id = Some (Some mi) /\ title mi <> [])
                  selected
       | NoValidData => False
       | Ready d base_title all_authors =>
           aligned d
           /\ valid_book_ids d <> []
           /\ valid_book_ids d
              = filter (fun book_id => is_Some (books_dict d !! book_id))
                       (detect_and_sort_books_by_volume db selected).*1
           /\ (forall book_id mi,
                 books_dict d !! book_id = Some mi <->
                 book_id ∈ selected /\ db !! book_id = Some (Some mi) /\ title mi <> [])
           /\ (forall book_id,
                 book_id ∈ valid_book_ids d <-> is_Some (books_dict d !! book_id))
           /\ titles d = title <$> books d
       end.
Proof.
  split; [apply init_raises|]. intros r. apply init_result.
Qed.

(** ** The three lists of the dialog *)








(** ** The batch update: count, frame and fields *)

Section BatchMore.
Variables (new_title_base author : str).
Variables (clear_tags clear_series clear_publisher : bool).
Variable volume_format : str.

Lemma fetchable_set_metadata db x mi book_id :
  fetchable db x -> fetchable (set_metadata db x mi) book_id <-> fetchable db book_id.
Proof.
  intros Hx. unfold fetchable, set_metadata. destruct (decide (book_id = x)) as [->|Hne].
  - rewrite lookup_insert_eq. split; [done|]. intros _. by eexists.
  - by rewrite lookup_insert_ne.
Qed.

Lemma batch_loop_count total items db count :
  let r := batch_loop new_title_base author clear_tags clear_series clear_publisher
             volume_format total items db count in
  r.2 = (count + Z.of_nat (length (filter (fetchable db) items.*2)))%Z
  /\ forall book_id,
       (book_id ∉ items.*2 \/ ~ fetchable db book_id -> r.1 !! book_id = db !! book_id)
       /\ (fetchable r.1 book_id <-> fetchable db book_id).
Proof.
  revert db count. induction items as [|[i x] items IH]; intros db count.
  { simpl. split; [lia|]. done. }
  cbn [batch_loop fmap list_fmap snd]. rewrite filter_cons. unfold get_metadata.
  destruct (db !! x) as [[mi|]|] eqn:Hx.
  - assert (fetchable db x) as Hfx by (unfold fetchable; rewrite Hx; by eexists).
    rewrite decide_True by done.
    match goal with |- context [batch_loop _ _ _ _ _ _ _ _ (set_metadata db x ?m) _] =>
      set (mi' := m); destruct (IH (set_metadata db x mi') (count + 1)%Z) as [Hc Hf] end.
    cbv zeta. split.
    + rewrite Hc. rewrite (list_filter_iff (fetchable (set_metadata db x mi')) (fetchable db))
        by (intros book_id; by apply fetchable_set_metadata).
      cbn [length]. lia.
    + intros book_id. destruct (Hf book_id) as [Hframe Hiff]. split.
      * intros Hout. assert (book_id <> x) as Hne.
        { intros ->. destruct Hout as [Hout|Hout]; [|done].
          apply Hout, elem_of_cons. by left. }
        rewrite Hframe.
        -- unfold set_metadata. by rewrite lookup_insert_ne.
        -- destruct Hout as [Hout|Hout].
           ++ left. intros Hin. apply Hout, elem_of_cons. by right.
           ++ right. by rewrite fetchable_set_metadata.
      * by rewrite Hiff, fetchable_set_metadata.
  - assert (~ fetchable db x) as Hfx by (unfold fetchable; rewrite Hx; by intros [? ?]).
    rewrite decide_False by done. destruct (IH db count) as [Hc Hf]. split; [done|].
    intros book_id. destruct (Hf book_id) as [Hframe Hiff]. split; [|done].
    intros Hout. apply Hframe. destruct Hout as [Hout|Hout]; [|by right].
    left. intros Hin. apply Hout, elem_of_cons. by right.
  - assert (~ fetchable db x) as Hfx by (unfold fetchable; rewrite Hx; by intros [? ?]).
    rewrite decide_False by done. destruct (IH db count) as [Hc Hf]. split; [done|].
    intros book_id. destruct (Hf book_id) as [Hframe Hiff]. split; [|done].
    intros Hout. apply Hframe. destruct Hout as [Hout|Hout]; [|by right].
    left. intros Hin. apply Hout, elem_of_cons. by right.
Qed.

Lemma batch_update_count_frame_aux (db : database) (ids : list Z) :
  let r := batch_update_metadata new_title_base author clear_tags clear_series
             clear_publisher volume_format db ids in
  r.2 = Z.of_nat (length (filter (fetchable db) ids))
  /\ (forall book_id,
        book_id ∉ ids \/ ~ fetchable db book_id -> r.1 !! book_id = db !! book_id)
  /\ (forall book_id, fetchable r.1 book_id <-> fetchable db book_id).
Proof.
  unfold batch_update_metadata.
  destruct (batch_loop_count (Z.of_nat (length ids)) (enumerate1 ids) db 0) as [Hc Hf].
  rewrite enumerate1_snd in Hc. cbv zeta. split; [by rewrite Hc|].
  split; intros book_id; destruct (Hf book_id) as [Hframe Hiff]; [|done].
  by rewrite enumerate1_snd in Hframe.
Qed.

(** The number that [batch_update_metadata] returns is the number of ids
    of the list, repetitions counted, for which the database has
    metadata.  A book outside the list, or one without metadata, is left
    as it is, and the database has metadata for the same ids afterwards
    as before. *)
Theorem batch_update_count_and_frame (db : database) (ids : list Z) :
  let r := batch_update_metadata new_title_base author clear_tags clear_series
             clear_publisher volume_format db ids in
  r.2 = Z.of_nat (length (filter (fetchable db) ids))
  /\ (forall book_id,
        book_id ∉ ids \/ ~ fetchable db book_id -> r.1 !! book_id = db !! book_id)
  /\ (forall book_id, fetchable r.1 book_id <-> fetchable db book_id).
Proof. apply batch_update_count_frame_aux. Qed.

End BatchMore.

Lemma own_author_strip author :
  negb (bool_decide (author = [])) && negb (bool_decide (strip author = []))
  = negb (bool_decide (strip author = [])).
Proof.
  case_bool_decide as Ha; [|done]. subst author.
  by rewrite bool_decide_eq_true_2 by reflexivity.
Qed.

(** With distinct ids, the record that the batch stores for the book at
    position [k] is built from the record this book had before the batch:
    the title carries the index [k + 1]; the authors and their sort form
    are the given author, stripped, unless that is blank, in which case
    the book keeps its own; a non-empty sort title is kept, an empty one
    becomes the new title; the comments and the six copied fields are
    carried over. *)
Theorem batch_update_builds_from_own_record
    (new_title_base author : str) (clear_tags clear_series clear_publisher : bool)
    (volume_format : str) (db : database) (ids : list Z) (k : nat) (book_id : Z)
    (mi : Metadata) :
  NoDup ids -> ids !! k = Some book_id -> db !! book_id = Some (Some mi) ->
  exists mi',
    (batch_update_metadata new_title_base author clear_tags clear_series
       clear_publisher volume_format db ids).1 !! book_id = Some (Some mi')
    /\ title mi' = update_title new_title_base volume_format
                     (Z.of_nat (length ids)) (Z.of_nat (S k))
    /\ authors mi'
       = (if bool_decide (strip author = []) then authors mi else [strip author])
    /\ sort_authors mi'
       = (if bool_decide (strip author = []) then sort_authors mi else [strip author])
    /\ sort_title mi'
       = (if truthy (sort_title mi) then sort_title mi else PText (title mi'))
    /\ comments mi' = comments mi
    /\ (identifiers mi', languages mi', pubdate mi',
        timestamp mi', last_modified mi', rating mi')
       = (identifiers mi, languages mi, pubdate mi,
          timestamp mi, last_modified mi, rating mi).
Proof.
  intros Hnd Hk Hdb. eexists. split.
  { unfold batch_update_metadata.
    eapply batch_loop_processed; [by rewrite enumerate1_snd| |done].
    by eapply list_elem_of_lookup_2, enumerate1_lookup. }
  cbn [title authors sort_authors sort_title comments identifiers languages pubdate
       timestamp last_modified rating new_metadata copy_value].
  rewrite own_author_strip. split; [done|].
  by destruct (bool_decide (strip author = [])).
Qed.

(** [int_to_chinese] writes different texts for different indexes. *)
Lemma int_to_chinese_inj i j :
  (0 <= i)%Z -> (0 <= j)%Z -> int_to_chinese i = int_to_chinese j -> i = j.
Proof.
  pose (read := fun s : str =>
                  match int_digits 0 s with Val v => v | Exn => chinese_to_int s end).
  assert (forall n, (0 <= n)%Z -> read (int_to_chinese n) = n) as Hread.
  { intros n Hn. destruct (Z.ltb_spec n 100) as [Hlt|Hge].
    - assert (forallb (fun k => (read (int_to_chinese (Z.of_nat k)) =? Z.of_nat k)%Z)
                (seq 0 100) = true) as Hall by (vm_compute; reflexivity).
      rewrite forallb_forall in Hall.
      specialize (Hall (Z.to_nat n)). rewrite Z2Nat.id in Hall by lia.
      apply Z.eqb_eq, Hall, in_seq. lia.
    - unfold int_to_chinese.
      rewrite (proj2 (Z.leb_gt n 0)), !(proj2 (Z.ltb_ge _ _)) by lia.
      unfold read. by rewrite int_digits_py_str. }
  intros Hi Hj Heq. rewrite <- (Hread i Hi), <- (Hread j Hj). by rewrite Heq.
Qed.

Lemma update_title_inj base volume_format total i j :
  (0 <= i)%Z -> (0 <= j)%Z ->
  update_title base volume_format total i = update_title base volume_format total j ->
  i = j.
Proof.
  intros Hi Hj. unfold update_title. intros H. apply app_inv_head in H.
  case_bool_decide.
  - unfold chinese_suffix in H. apply app_inv_head, app_inv_tail in H.
    by apply int_to_chinese_inj.
  - match type of H with format_zero_padded _ ?w = _ =>
      pose proof (int_digits_zero_padded i w Hi) as Hpi; rewrite H in Hpi;
      rewrite (int_digits_zero_padded j w Hj) in Hpi end.
    by injection Hpi.
Qed.

(** With distinct ids that all have metadata, no two books of a batch get
    the same title. *)
Theorem batch_update_titles_distinct
    (new_title_base author : str) (clear_tags clear_series clear_publisher : bool)
    (volume_format : str) (db : database) (ids : list Z) :
  NoDup ids -> all_present db ids ->
  NoDup (stored_title
           (batch_update_metadata new_title_base author clear_tags clear_series
              clear_publisher volume_format db ids).1 <$> ids).
Proof.
  intros Hnd Hall. rewrite batch_update_titles by done.
  apply NoDup_fmap_2_strong.
  - intros i j Hi Hj [= Heq]. unfold indexes in Hi, Hj.
    apply list_elem_of_fmap in Hi as (a & -> & _), Hj as (b & -> & _).
    apply update_title_inj in Heq; [done|lia..].
  - unfold indexes. apply NoDup_fmap_2; [apply Nat2Z.inj'|apply NoDup_seq].
Qed.

(** ** The preview *)

Lemma fetch_books_data_previewable db ids :
  bd_id <$> fetch_books_data db ids = filter (previewable db) ids
  /\ Forall (fun bd => db !! bd_id bd = Some (Some (bd_mi bd))) (fetch_books_data db ids).
Proof.
  induction ids as [|x ids [IHid IHmi]]; [by split|].
  cbn [fetch_books_data]. rewrite filter_cons. unfold get_metadata.
  destruct (db !! x) as [[mi|]|] eqn:Hx.
  - destruct (extract_volume_with_context (title mi)) as [[s v]|] eqn:Hex.
    + assert (previewable db x) as Hp.
      { unfold previewable. rewrite Hx. cbn. by rewrite Hex. }
      rewrite decide_True by done.
      cbn [fmap list_fmap bd_id]. rewrite <- IHid. split; [done|]. by constructor.
    + assert (~ previewable db x) as Hp.
      { unfold previewable. rewrite Hx. cbn. rewrite Hex. by intros []. }
      by rewrite decide_False by done.
  - assert (~ previewable db x) as Hp by (unfold previewable; rewrite Hx; by intros []).
    by rewrite decide_False by done.
  - assert (~ previewable db x) as Hp by (unfold previewable; rewrite Hx; by intros []).
    by rewrite decide_False by done.
Qed.

Lemma length_enumerate1 {A} (l : list A) : length (enumerate1 l) = length l.
Proof. by rewrite <- (length_fmap snd), enumerate1_snd. Qed.

(** Where the extractor returns on every title, the preview lists every
    book that has metadata. *)
Lemma previewable_extractable db ids :
  extractable db ids -> filter (previewable db) ids = filter (fetchable db) ids.
Proof.
  induction 1 as [|book_id ids Hex _ IH]; [done|]. rewrite !filter_cons, IH.
  assert (previewable db book_id <-> fetchable db book_id) as Hiff.
  { unfold previewable, fetchable.
    destruct (db !! book_id) as [[mi|]|]; cbn; [|by split; [|intros [? ?]]..].
    specialize (Hex mi eq_refl).
    destruct (extract_volume_with_context (title mi)); [|done].
    split; [by eexists|done]. }
  destruct (decide (previewable db book_id)) as [Hp|Hp].
  - by rewrite decide_True by (by apply Hiff).
  - by rewrite decide_False by (by rewrite <- Hiff).
Qed.

(** The preview has one entry for each id of the list for which the
    database has metadata and on whose title the extractor returns, in the
    order of the list, numbered from 1 without gaps; a book on whose title
    the extractor raises is left out, and where it raises on no title the
    entries are the ids that have metadata.  An entry shows the title and
    the authors that the database has for the book. *)
Theorem preview_lists_fetchable_books
    (db : database) (ids : list Z) (new_title_base author volume_format : str) :
  let previews := preview_metadata_changes db ids new_title_base author volume_format in
  pv_book_id <$> previews = filter (previewable db) ids
  /\ (extractable db ids -> pv_book_id <$> previews = filter (fetchable db) ids)
  /\ pv_index <$> previews = indexes (length previews)
  /\ Forall (fun p => exists mi,
               db !! pv_book_id p = Some (Some mi)
               /\ pv_old_title p = title mi /\ pv_old_authors p = authors mi
               /\ pv_new_author p = author
               /\ pv_new_title p
                  = preview_title new_title_base volume_format
                      (Z.of_nat (length previews)) (pv_index p))
            previews.
Proof.
  unfold preview_metadata_changes.
  destruct (fetch_books_data_previewable db ids) as [Hid Hmi].
  set (books_data := fetch_books_data db ids) in *. cbv zeta.
  rewrite length_fmap, length_enumerate1.
  assert (pv_book_id <$> ((fun '(i, bd) =>
             {| pv_book_id := bd_id bd;
                pv_old_title := title (bd_mi bd);
                pv_new_title :=
                  preview_title new_title_base volume_format
                    (Z.of_nat (length books_data)) i;
                pv_old_authors := authors (bd_mi bd);
                pv_new_author := author;
                pv_index := i |}) <$> enumerate1 books_data)
          = filter (previewable db) ids) as Hlisted.
  { rewrite <- Hid. rewrite <- (enumerate1_snd books_data) at 2.
    rewrite <- !list_fmap_compose. apply list_fmap_ext. by intros k [i bd] _. }
  split; [exact Hlisted|]. split; [|split].
  - intros Hex. by rewrite Hlisted, previewable_extractable.
  - rewrite <- (enumerate1_fst books_data).
    rewrite <- !list_fmap_compose. apply list_fmap_ext. by intros k [i bd] _.
  - apply Forall_fmap, Forall_forall. intros [i bd] Hin.
    assert (bd ∈ books_data) as Hbd.
    { rewrite <- (enumerate1_snd books_data). apply list_elem_of_fmap. by exists (i, bd). }
    rewrite Forall_forall in Hmi. exists (bd_mi bd). split; [by apply Hmi|done].
Qed.

(** Two books, the second with a title of 4301 digits after [第]: the
    preview lists the first only. *)
Example preview_drops_long_numeral :
  let db : database :=
    <[2%Z := Some (blank_book (utf8 "X第" ++ replicate 4301 49%N ++ utf8 "卷"))]>
      (library [(1%Z, "X第1卷"%string)]) in
  pv_book_id <$> preview_metadata_changes db [1; 2]%Z (utf8 "T") [] (utf8 "number")
  = [1%Z].
Proof. vm_compute. reflexivity. Qed.

Lemma preview_lists_previewable_aux
    (db : database) (ids : list Z) (new_title_base author volume_format : str) :
  pv_book_id <$> preview_metadata_changes db ids new_title_base author volume_format
  = filter (previewable db) ids.
Proof.
  unfold preview_metadata_changes.
  destruct (fetch_books_data_previewable db ids) as [Hid _].
  rewrite <- Hid.
  rewrite <- (enumerate1_snd (fetch_books_data db ids)) at 2.
  rewrite <- !list_fmap_compose. apply list_fmap_ext. by intros k [i bd] _.
Qed.

Lemma filter_all {A} (P : A -> Prop) `{!forall x, Decision (P x)} (l : list A) :
  Forall P l -> filter P l = l.
Proof.
  induction 1 as [|x l Hx _ IH]; [done|]. by rewrite filter_cons, decide_True, IH.
Qed.

Lemma fmap_eq_Forall {A B} (f g : A -> B) (l : list A) :
  f <$> l = g <$> l -> Forall (fun x => f x = g x) l.
Proof.
  induction l as [|x l IH]; [constructor|]. intros [= Hx Hl]. constructor; auto.
Qed.

Lemma all_present_fetchable db ids : all_present db ids -> Forall (fetchable db) ids.
Proof.
  intros Hall. eapply Forall_impl; [exact Hall|].
  intros book_id [mi Hmi]. unfold fetchable. rewrite Hmi. by eexists.
Qed.

(** With fewer than 1000 distinct listed books that all have metadata and
    a title on which the extractor returns, a non-blank title field, and an
    author or the consent to go on without one: the preview window has one entry for each listed book, in the
    order of the list, and the new title it shows is the title that
    [accept] stores for the book; [accept] reports all listed books
    as updated. *)
Theorem preview_changes_shows_what_accept_writes
    (db : database) (d : dialog) (f : form) :
  NoDup (valid_book_ids d) -> all_present db (valid_book_ids d) ->
  extractable db (valid_book_ids d) ->
  length (valid_book_ids d) = length (books d) ->
  (length (valid_book_ids d) < 1000)%nat ->
  strip (title_edit f) <> [] ->
  strip (author_combo f) <> [] \/ continue_without_author f = true ->
  exists previews db',
    preview_changes db d f = Previews previews
    /\ accept db d f = Updated db' (Z.of_nat (length (valid_book_ids d)))
    /\ pv_book_id <$> previews = valid_book_ids d
    /\ Forall (fun p => stored_title db' (pv_book_id p) = Some (pv_new_title p)) previews.
Proof.
  intros Hnd Hall Hex Hlen Hlt Htitle Hauthor.
  unfold preview_changes, accept. cbv zeta.
  rewrite (bool_decide_eq_true_2 (length (valid_book_ids d) = length (books d))) by done.
  rewrite !(bool_decide_eq_false_2 (strip (title_edit f) = [])) by done.
  cbn [negb].
  assert (bool_decide (strip (author_combo f) = []) && negb (continue_without_author f)
          = false) as ->.
  { destruct Hauthor as [Ha| ->]; [by rewrite bool_decide_eq_false_2|].
    by rewrite andb_false_r. }
  pose proof (preview_agrees_below_1000 (strip (title_edit f)) (strip (author_combo f))
                (utf8 "number") (clear_tags_check f) (clear_series_check f)
                (clear_publisher_check f) db (valid_book_ids d) Hnd Hall Hex Hlt) as Hagree.
  destruct (batch_update_count_frame_aux (strip (title_edit f)) (strip (author_combo f))
              (clear_tags_check f) (clear_series_check f) (clear_publisher_check f)
              (utf8 "number") db (valid_book_ids d)) as [Hcount _].
  pose proof (preview_lists_previewable_aux db (valid_book_ids d) (strip (title_edit f))
                (strip (author_combo f)) (utf8 "number")) as Hids.
  rewrite previewable_extractable in Hids by done.
  rewrite (filter_all (fetchable db)) in Hcount, Hids by (by apply all_present_fetchable).
  destruct (batch_update_metadata _ _ _ _ _ _ _ _) as [db' n]. cbn [fst snd] in *.
  eexists _, db'. split; [done|]. split; [by rewrite Hcount|]. split; [done|].
  rewrite <- Hids in Hagree at 1. rewrite <- !list_fmap_compose in Hagree.
  by apply fmap_eq_Forall in Hagree.
Qed.

(** ** Numeric suffixes are read back *)

Lemma match_here_accepts ic p s gs r :
  Re.match_here ic p s gs = Some r -> accepts ic p s.
Proof.
  revert s gs r. induction p as [|it p IH]; intros s gs r; [done|].
  destruct it as [cs|cs|cs g|cs g|].
  - rewrite ?match_here_One. destruct s as [|c s]; [done|]. rewrite match_here_One.
    destruct (Re.in_charset ic cs c) eqn:Hc; [|done]. intros H%IH.
    by exists c, s.
  - cbn [Re.match_here accepts]. destruct s as [|c s]; [intros H%IH; by left|].
    destruct (Re.in_charset ic cs c) eqn:Hc; [|intros H%IH; by left].
    destruct (Re.match_here ic p s gs) as [r'|] eqn:Hm; [|intros H%IH; by left].
    intros _. right. exists c, s. split; [done|]. split; [done|]. by eapply IH.
  - rewrite match_here_Plus. intros H.
    apply greedy_plus_inv in H as (run & rest & Hw & Hne & -> & Hk).
    exists run, rest. split; [done|]. split; [done|]. split; [done|]. by eapply IH.
  - rewrite match_here_LazyStar. intros H.
    apply lazy_star_inv in H as (run & rest & Hw & -> & Hk).
    exists run, rest. split; [done|]. split; [done|]. by eapply IH.
  - rewrite match_here_Eos. destruct (Re.at_end s) eqn:He; [|done].
    intros H%IH. by split.
Qed.

Lemma search_from_accepts ic p s pos m :
  Re.search_from ic p s pos = Some m ->
  exists pre s', s = pre ++ s' /\ accepts ic p s'.
Proof.
  revert pos. induction s as [|c s IH]; intros pos; simpl.
  - destruct (Re.match_here ic p [] []) eqn:Hm; [|done]. intros _.
    exists [], []. split; [done|]. by eapply match_here_accepts.
  - destruct (Re.match_here ic p (c :: s) []) eqn:Hm.
    + intros _. exists [], (c :: s). split; [done|]. by eapply match_here_accepts.
    + intros (pre & s' & -> & Ha)%IH. by exists (c :: pre), s'.
Qed.

Lemma search_rejects ic p s :
  (forall pre s', s = pre ++ s' -> ~ accepts ic p s') -> Re.search ic p s = None.
Proof.
  intros Hno. unfold Re.search. destruct (Re.search_from ic p s 0) as [m|] eqn:Hs; [|done].
  apply search_from_accepts in Hs as (pre & s' & Heq & Ha). by destruct (Hno pre s').
Qed.

Lemma search_from_later ic p pre s pos :
  (forall a b, pre = a ++ b -> b <> [] -> ~ accepts ic p (b ++ s)) ->
  Re.search_from ic p (pre ++ s) pos = Re.search_from ic p s (pos + length pre).
Proof.
  revert pos. induction pre as [|c pre IH]; intros pos Hno.
  { simpl. by rewrite Nat.add_0_r. }
  cbn [app Re.search_from].
  destruct (Re.match_here ic p (c :: pre ++ s) []) eqn:Hm.
  { apply match_here_accepts in Hm. by destruct (Hno [] (c :: pre)). }
  rewrite IH.
  - f_equal. simpl. lia.
  - intros a b -> Hb. by apply (Hno (c :: a) b).
Qed.

(** ** The simplified title *)






Lemma digit_char_facts c :
  (48 <= c <= 57)%N ->
  isdecimal c = true
  /\ Re.in_charset true cs_separator c = false
  /\ Re.in_charset true cs_keyword c = false
  /\ Re.in_charset true (Re.chars (utf8 "）)")) c = false
  /\ Re.in_charset true (Re.chars (utf8 "】〕")) c = false
  /\ Re.in_charset true (Re.chars (utf8 "v")) c = false
  /\ Re.in_charset true (Re.chars (utf8 "分")) c = false.
Proof.
  intros Hc.
  assert (c ∈ (fun k => (48 + N.of_nat k)%N) <$> seq 0 10) as Hin.
  { apply list_elem_of_fmap. exists (N.to_nat (c - 48)). split; [lia|].
    apply elem_of_seq. lia. }
  assert (forallb (fun c =>
            isdecimal c
            && negb (Re.in_charset true cs_separator c)
            && negb (Re.in_charset true cs_keyword c)
            && negb (Re.in_charset true (Re.chars (utf8 "）)")) c)
            && negb (Re.in_charset true (Re.chars (utf8 "】〕")) c)
            && negb (Re.in_charset true (Re.chars (utf8 "v")) c)
            && negb (Re.in_charset true (Re.chars (utf8 "分")) c))
            ((fun k => (48 + N.of_nat k)%N) <$> seq 0 10) = true) as Hall
    by (vm_compute; reflexivity).
  rewrite forallb_forall in Hall. apply list_elem_of_In, Hall in Hin.
  repeat (apply andb_true_iff in Hin as [Hin ?%negb_true_iff]). done.
Qed.

Lemma at_end_cases r : Re.at_end r = true -> r = [] \/ r = [10%N].
Proof.
  unfold Re.at_end. intros [H|H]%orb_true_iff; apply bool_decide_eq_true in H; auto.
Qed.

Lemma nonempty_snoc {A} (l : list A) : l <> [] -> exists l' x, l = l' ++ [x].
Proof.
  intros Hl. destruct (last l) as [x|] eqn:Hx.
  - apply last_Some in Hx as [l' ->]. by exists l', x.
  - by apply last_None in Hx.
Qed.

Lemma fold_case_marker c : fold_case c = 31532%N -> c = 31532%N.
Proof.
  unfold fold_case.
  destruct (N.leb_spec 65 c), (N.leb_spec c 90); cbn [andb]; try lia;
    destruct (N.eqb_spec c 304), (N.eqb_spec c 305); cbn [orb]; lia.
Qed.

Lemma in_charset_marker ic c :
  Re.in_charset ic (Re.chars [31532%N]) c = true -> c = 31532%N.
Proof.
  destruct ic; [|rewrite in_charset_single; by intros ?%bool_decide_eq_true].
  unfold Re.in_charset, Re.chars.
  cbn [Re.cs_negated Re.cs_chars Re.cs_ranges Re.cs_cats existsb in_ranges xorb].
  rewrite !orb_false_r. intros H%N.eqb_eq. symmetry in H.
  apply fold_case_marker in H. done.
Qed.

Lemma in_charset_v_candidate c :
  Re.in_charset true (Re.chars (utf8 "v")) c = true -> candidate_char c.
Proof.
  unfold Re.in_charset, Re.chars. change (utf8 "v") with [118%N].
  cbn [Re.cs_negated Re.cs_chars Re.cs_ranges Re.cs_cats existsb in_ranges xorb].
  rewrite !orb_false_r. intros H. apply candidate_char_intro. left.
  apply existsb_exists. exists 86%N. split; [|exact H].
  apply list_elem_of_In, (bool_decide_unpack _). vm_compute. exact I.
Qed.

Lemma patterns_items :
  patterns =
  [ [Re.Plus cs_separator false; Re.Plus cs_numeral_roman true;
     Re.Opt cs_keyword; Re.Eos];
    [Re.One (Re.chars (utf8 "（(")); Re.Plus cs_numeral_roman true;
     Re.Opt cs_keyword; Re.One (Re.chars (utf8 "）)")); Re.Eos];
    [Re.One (Re.chars (utf8 "【〔")); Re.Plus cs_numeral_roman true;
     Re.Opt cs_keyword; Re.One (Re.chars (utf8 "】〕")); Re.Eos];
    [Re.One (Re.chars (utf8 "v")); Re.Plus cs_numeral true; Re.Eos];
    [Re.One (Re.chars [31532%N]); Re.Plus cs_numeral true;
     Re.One (Re.chars (utf8 "部")); Re.One (Re.chars (utf8 "分")); Re.Eos] ].
Proof. reflexivity. Qed.

Lemma search_from_here ic p s pos gs :
  Re.match_here ic p s [] = Some gs ->
  Re.search_from ic p s pos = Some (Re.Match pos gs).
Proof. intros Hm. destruct s; cbn [Re.search_from]; by rewrite Hm. Qed.

Section NumericSuffix.
Variables (base D : str).
Hypothesis no_marker : 31532%N ∉ base.
Hypothesis plain : plain_end base.
Hypothesis D_nonempty : D <> [].
Hypothesis D_digits : ascii_digits D.

Lemma suffix_last pre r :
  base ++ D = pre ++ r -> r <> [] -> exists d, last r = Some d /\ (48 <= d <= 57)%N.
Proof using D_nonempty D_digits.
  intros Heq Hr.
  destruct (nonempty_snoc D D_nonempty) as (D' & d & HD).
  destruct (nonempty_snoc r Hr) as (r' & x & ->).
  rewrite HD in Heq. rewrite !app_assoc in Heq. apply app_inj_tail in Heq as [_ <-].
  exists d. split; [by rewrite last_snoc|].
  unfold ascii_digits in D_digits. rewrite HD, Forall_app, Forall_singleton in D_digits.
  by destruct D_digits.
Qed.

Lemma at_end_suffix pre r : base ++ D = pre ++ r -> Re.at_end r = true -> r = [].
Proof using D_nonempty D_digits.
  intros Heq [->| ->]%at_end_cases; [done|].
  destruct (suffix_last pre [10%N] Heq) as (d & [= <-] & Hd); [done|lia].
Qed.

(** A character of the title that is directly followed by the end of the
    title is a digit. *)
Lemma closing_rejected ic cs pre c r :
  base ++ D = pre ++ c :: r -> Re.at_end r = true ->
  Re.in_charset ic cs c = true ->
  (forall d, (48 <= d <= 57)%N -> Re.in_charset ic cs d = false) -> False.
Proof using D_nonempty D_digits.
  intros Heq Hend Hc Hcs.
  assert (r = []) as ->.
  { apply (at_end_suffix (pre ++ [c])); [|done]. by rewrite <- app_assoc. }
  destruct (suffix_last pre [c] Heq) as (d & [= <-] & Hd); [done|].
  by rewrite Hcs in Hc.
Qed.

(** A character of the title that is followed by candidate characters up
    to the end of the title is a digit of the suffix or the last character
    of the base. *)
Lemma before_final_run pre c run :
  base ++ D = pre ++ c :: run -> Forall candidate_char run ->
  c ∈ D \/ last base = Some c.
Proof using plain.
  intros Heq Hrun. symmetry in Heq.
  apply app_eq_app in Heq as [l [[-> HD]|[Hb Hl]]].
  - left. rewrite HD. apply elem_of_app. right. by apply elem_of_cons; left.
  - destruct l as [|c' l];
      [left; cbn [app] in Hl; rewrite <- Hl; by apply elem_of_cons; left|].
    injection Hl as <- ->.
    destruct (decide (l = [])) as [->|Hne].
    + right. by rewrite Hb, last_snoc.
    + destruct (nonempty_snoc l Hne) as (l' & z & ->).
      assert (last base = Some z) as Hz.
      { rewrite Hb. change (pre ++ c :: l' ++ [z]) with (pre ++ (c :: l') ++ [z]).
        by rewrite app_assoc, last_snoc. }
      destruct (plain z Hz) as [Hcand _]. destruct Hcand.
      rewrite !Forall_app, Forall_singleton in Hrun. by destruct Hrun as [[_ ?] _].
Qed.

Lemma marker_not_in_title : 31532%N ∉ base ++ D.
Proof using no_marker D_digits.
  intros [H|H]%elem_of_app; [done|].
  unfold ascii_digits in D_digits. rewrite Forall_forall in D_digits.
  apply D_digits in H. lia.
Qed.

Lemma rejects_marker ic p :
  Re.search ic (Re.One (Re.chars [31532%N]) :: p) (base ++ D) = None.
Proof using no_marker D_digits.
  apply search_rejects. intros pre s' Heq (c & s'' & -> & Hc%in_charset_marker & _).
  subst c. apply marker_not_in_title. rewrite Heq.
  apply elem_of_app. right. by apply elem_of_cons; left.
Qed.

Lemma rejects_separated :
  Re.search true [Re.Plus cs_separator false; Re.Plus cs_numeral_roman true;
                  Re.Opt cs_keyword; Re.Eos] (base ++ D) = None.
Proof using plain D_nonempty D_digits.
  apply search_rejects. intros pre s' Heq Ha. cbn [accepts] in Ha.
  destruct Ha as (run1 & s1 & -> & Hne1 & Hw1 & run2 & s2 & -> & Hne2 & Hw2 & Htail).
  destruct Htail as [[Hend _]|(k & s3 & -> & Hk & Hend & _)].
  - assert (s2 = []) as ->.
    { apply (at_end_suffix (pre ++ run1 ++ run2)); [|done]. by rewrite <- !app_assoc. }
    rewrite app_nil_r in Heq.
    destruct (nonempty_snoc run1 Hne1) as (run1' & c & ->).
    unfold within in Hw1. rewrite Forall_app, Forall_singleton in Hw1.
    destruct Hw1 as [_ Hc].
    destruct (before_final_run (pre ++ run1') c run2) as [Hin|Hlast];
      [by rewrite Heq, <- !app_assoc|done| |].
    + unfold ascii_digits in D_digits. rewrite Forall_forall in D_digits.
      apply D_digits, digit_char_facts in Hin as (_ & Hsep & _). congruence.
    + destruct (plain c Hlast) as [_ Hsep]. congruence.
  - eapply (closing_rejected true cs_keyword (pre ++ run1 ++ run2) k s3);
      [by rewrite Heq, <- !app_assoc|done..|].
    intros d Hd. by apply digit_char_facts in Hd as (_ & _ & ? & _).
Qed.

Lemma rejects_bracketed opening closing :
  (forall d, (48 <= d <= 57)%N -> Re.in_charset true (Re.chars closing) d = false) ->
  Re.search true [Re.One (Re.chars opening); Re.Plus cs_numeral_roman true;
                  Re.Opt cs_keyword; Re.One (Re.chars closing); Re.Eos]
            (base ++ D) = None.
Proof using D_nonempty D_digits.
  intros Hclosing. apply search_rejects. intros pre s' Heq Ha. cbn [accepts] in Ha.
  destruct Ha as (o & s1 & -> & _ & run & s2 & -> & _ & _ & Htail).
  destruct Htail as [(cl & s3 & -> & Hcl & Hend & _)
                    |(k & s3 & -> & _ & cl & s4 & -> & Hcl & Hend & _)].
  - eapply (closing_rejected true (Re.chars closing) (pre ++ o :: run) cl s3);
      [by rewrite Heq, <- !app_assoc|done..].
  - eapply (closing_rejected true (Re.chars closing) (pre ++ o :: run ++ [k]) cl s4);
      [by rewrite Heq, <- !app_assoc; cbn [app]; rewrite <- !app_assoc|done..].
Qed.

Lemma rejects_v :
  Re.search true [Re.One (Re.chars (utf8 "v")); Re.Plus cs_numeral true; Re.Eos]
            (base ++ D) = None.
Proof using plain D_nonempty D_digits.
  apply search_rejects. intros pre s' Heq Ha. cbn [accepts] in Ha.
  destruct Ha as (v & s1 & -> & Hv & run & s2 & -> & _ & Hw & Hend & _).
  assert (s2 = []) as ->.
  { apply (at_end_suffix (pre ++ v :: run)); [|done]. by rewrite Heq, <- !app_assoc. }
  rewrite app_nil_r in Heq.
  destruct (before_final_run pre v run Heq) as [Hin|Hlast].
  - eapply Forall_impl; [exact Hw|]. intros c. apply in_charset_candidate, narrower_numeral.
  - unfold ascii_digits in D_digits. rewrite Forall_forall in D_digits.
    apply D_digits, digit_char_facts in Hin as (_ & _ & _ & _ & _ & Hnv & _). congruence.
  - destruct (plain v Hlast) as [Hcand _]. by apply Hcand, in_charset_v_candidate.
Qed.

Lemma rejects_patterns : Forall (fun p => Re.search true p (base ++ D) = None) patterns.
Proof using no_marker plain D_nonempty D_digits.
  rewrite patterns_items. repeat constructor.
  - apply rejects_separated.
  - apply rejects_bracketed. intros d Hd.
    by apply digit_char_facts in Hd as (_ & _ & _ & ? & _).
  - apply rejects_bracketed. intros d Hd.
    by apply digit_char_facts in Hd as (_ & _ & _ & _ & ? & _).
  - apply rejects_v.
  - apply rejects_marker.
Qed.

Lemma within_digits : within false (Re.Charset [] [] [Re.CatDigit] false) D.
Proof using D_digits.
  eapply Forall_impl; [exact D_digits|]. intros c Hc.
  apply digit_char_facts in Hc as (Hdec & _).
  unfold Re.in_charset.
  cbn [Re.cs_negated Re.cs_chars Re.cs_ranges Re.cs_cats existsb in_ranges xorb
       Re.in_category].
  by rewrite Hdec, bool_decide_eq_false_2 by (by intros ?%elem_of_nil).
Qed.

Lemma finds_digits :
  Re.search false digits_pattern (base ++ D) = Some (Re.Match (length base) [D]).
Proof using plain D_nonempty D_digits.
  unfold Re.search. rewrite search_from_later.
  - apply search_from_here. unfold digits_pattern. rewrite match_here_Plus.
    rewrite <- (app_nil_r D) at 1.
    apply greedy_plus_run; [done|apply within_digits|done|].
    by rewrite match_here_Eos.
  - intros a b Hbase Hb Ha. unfold digits_pattern in Ha. cbn [accepts] in Ha.
    destruct Ha as (run & s' & Heq & _ & Hw & Hend & _).
    assert (s' = []) as Hs'.
    { apply (at_end_suffix (a ++ run)); [|done]. by rewrite Hbase, <- !app_assoc, Heq. }
    rewrite Hs', app_nil_r in Heq. rewrite <- Heq in Hw.
    destruct (nonempty_snoc b Hb) as (b' & z & Hbz).
    destruct (plain z) as [Hcand _]; [by rewrite Hbase, Hbz, app_assoc, last_snoc|].
    apply Hcand. unfold within in Hw. rewrite Hbz, !Forall_app, Forall_singleton in Hw.
    destruct Hw as [[_ Hz] _].
    by eapply in_charset_candidate; [apply narrower_digits|].
Qed.

End NumericSuffix.

Lemma extract_by_patterns_rejected ps title :
  Forall (fun p => Re.search true p title = None) ps ->
  extract_by_patterns ps title = Val None.
Proof. induction 1 as [|p ps Hp _ IH]; [done|]. simpl. by rewrite Hp. Qed.

(** A title that ends in one to four digits after a base title with a
    plain end and without [第]: the digits are the volume. *)
Lemma extract_digit_suffix base D v :
  31532%N ∉ base -> plain_end base ->
  D <> [] -> ascii_digits D -> (length D <= 4)%nat -> py_int D = Val v ->
  extract_volume_with_context (base ++ D)
  = Val (rstrip_chars (utf8 " -_·・") base, Some v).
Proof.
  intros Hbase Hplain Hne Hd Hlen Hv. unfold extract_volume_with_context.
  rewrite pattern1_items, rejects_marker by done.
  unfold extract_fallback.
  rewrite extract_by_patterns_rejected by (by apply rejects_patterns).
  cbn [mbind outcome_bind]. rewrite finds_digits by done.
  change (Re.group 1 (Re.Match (length base) [D])) with D.
  rewrite (proj2 (Nat.leb_le _ _) Hlen), Hv. cbn [mbind outcome_bind].
  unfold title_before. cbn [Re.m_start]. by rewrite take_app_length.
Qed.

Lemma py_str_digits i :
  (0 <= i)%Z -> py_str i <> [] /\ ascii_digits (py_str i).
Proof.
  intros Hi. destruct (to_int_nonneg i Hi) as (u & Hu & _ & Hnil).
  unfold py_str. rewrite Hu. split; [by apply uint_str_nonnil|apply uint_str_digits].
Qed.

Lemma py_str_short i : (0 <= i < 10000)%Z -> (length (py_str i) <= 4)%nat.
Proof.
  intros Hi.
  assert (forallb (fun k => (length (py_str (Z.of_nat k)) <=? 4)%nat) (seq 0 (100 * 100))
          = true)
    as Hall by (vm_compute; reflexivity).
  rewrite forallb_forall in Hall. specialize (Hall (Z.to_nat i)).
  rewrite Z2Nat.id in Hall by lia. apply Nat.leb_le, Hall, in_seq. lia.
Qed.

Lemma zero_padded_digits i w :
  (0 <= i)%Z ->
  format_zero_padded i w <> [] /\ ascii_digits (format_zero_padded i w)
  /\ length (format_zero_padded i w)
     = (Z.to_nat w - length (py_str i) + length (py_str i))%nat.
Proof.
  intros Hi. destruct (py_str_digits i Hi) as [Hne Hd]. revert Hne Hd.
  destruct (to_int_nonneg i Hi) as (u & Hu & _ & _).
  unfold format_zero_padded, py_str. rewrite Hu. intros Hne Hd. split; [|split].
  - intros [_ ?]%app_eq_nil. done.
  - apply Forall_app. split; [|done]. apply Forall_replicate. lia.
  - by rewrite length_app, length_replicate.
Qed.

Lemma extract_numeric_title (base : str) (total i : Z) :
  31532%N ∉ base -> plain_end base -> (0 <= i < 10000)%Z ->
  extract_volume_with_context (update_title base (utf8 "number") total i)
  = Val (rstrip_chars (utf8 " -_·・") base, Some i).
Proof.
  intros Hbase Hplain Hi. rewrite update_title_number.
  match goal with |- context [format_zero_padded i ?w] =>
    assert (1 <= w <= 3)%Z as Hw by (repeat case_match; lia);
    destruct (zero_padded_digits i w) as (Hne & Hd & Hlen); [lia|];
    apply extract_digit_suffix; try done;
      [|apply py_int_zero_padded;
        [split; [lia|apply small_below_limit; lia]|unfold max_str_digits; lia]] end.
  rewrite Hlen. pose proof (py_str_short i Hi). lia.
Qed.

(** A title that the rename planner writes in the numeric style is read
    back by the extractor: the volume is the index, and the simplified
    title is the base title without its trailing separators.  The base
    title has no [第], its last character is neither a candidate
    character nor one of [[-_\s]], and the index is below 10000 (a number
    of more than four digits is not taken for a volume). *)
Theorem numeric_title_round_trip (base : str) (total i : Z) :
  31532%N ∉ base -> plain_end base -> (0 <= i < 10000)%Z ->
  extract_volume_with_context (update_title base (utf8 "number") total i)
  = Val (rstrip_chars (utf8 " -_·・") base, Some i).
Proof. apply extract_numeric_title. Qed.

(** [format_volume] writes a volume so that the extractor reads it back,
    whatever the format type: after a base title without [第] and with a
    plain end, for volumes from 0 to 9999. *)
Theorem format_volume_read_back (base : str) (volume : Z) (format_type : str) :
  31532%N ∉ base -> plain_end base -> (0 <= volume < 10000)%Z ->
  extract_volume_with_context (base ++ format_volume volume format_type)
  = Val (rstrip_chars (utf8 " -_·・") base, Some volume).
Proof.
  intros Hbase Hplain Hv.
  destruct (py_str_digits volume) as [Hne Hd]; [lia|].
  pose proof (py_str_short volume Hv) as Hlen.
  assert (0 <= volume < 10 ^ max_str_digits)%Z as Hsmall
    by (split; [lia|apply small_below_limit; lia]).
  assert (py_int (py_str volume) = Val volume) as Hint by (by apply py_int_py_str).
  unfold format_volume. case_bool_decide as Hnumber.
  - destruct (Z.ltb_spec volume 10) as [Hlt|Hge]; [|by apply extract_digit_suffix].
    change (utf8 "0") with (replicate 1 48%N).
    apply extract_digit_suffix; try done.
    + apply Forall_app. split; [|done]. apply Forall_replicate. lia.
    + assert (forallb (fun k => (length (py_str (Z.of_nat k)) =? 1)%nat) (seq 0 10) = true)
        as Hall by (vm_compute; reflexivity).
      rewrite forallb_forall in Hall. specialize (Hall (Z.to_nat volume)).
      rewrite Z2Nat.id in Hall by lia. rewrite length_app.
      assert (In (Z.to_nat volume) (seq 0 10)) as Hin by (apply in_seq; lia).
      apply Hall, Nat.eqb_eq in Hin. rewrite Hin. cbn [length replicate]. lia.
    + rewrite py_int_short, int_digits_zeros; [apply int_digits_py_str; lia|].
      rewrite length_app. cbn [length replicate]. unfold max_str_digits. lia.
  - case_bool_decide as Hchinese; [|by apply extract_digit_suffix].
    pose proof (extract_chinese_title base 0 volume Hbase Hsmall) as H.
    unfold update_title in H. by rewrite bool_decide_eq_true_2 in H by done.
Qed.

(** After a batch update in the numeric style, which is the style of the
    dialog, detecting and sorting the same books again gives them in the
    order of the batch, each with its index as volume.  The ids are
    distinct, fewer than 10000, and all have metadata; the base title has
    no [第] and a plain end. *)
Theorem sort_after_numeric_rename
    (base author : str) (clear_tags clear_series clear_publisher : bool)
    (db : database) (ids : list Z) :
  NoDup ids -> all_present db ids -> (Z.of_nat (length ids) < 10000)%Z ->
  31532%N ∉ base -> plain_end base ->
  detect_and_sort_books_by_volume
    (batch_update_metadata base author clear_tags clear_series clear_publisher
       (utf8 "number") db ids).1 ids
  = zip ids (indexes (length ids)).
Proof.
  intros Hnd Hall Hlen Hbase Hplain. unfold detect_and_sort_books_by_volume.
  rewrite (books_with_volume_known _ ids (indexes (length ids))).
  { apply sorted_by_key_ascending, zip_indexes_ascending. }
  apply Forall2_same_length_lookup_2; [by rewrite length_indexes|].
  intros k book_id v Hk Hv. unfold indexes in Hv.
  rewrite list_lookup_fmap in Hv.
  pose proof (lookup_lt_Some _ _ _ Hk) as Hlt.
  rewrite lookup_seq_lt in Hv by done. simpl in Hv.
  injection Hv as <-.
  destruct (Forall_lookup_1 _ _ _ _ Hall Hk) as [mi Hmi].
  eexists _, _. split.
  - unfold batch_update_metadata.
    eapply batch_loop_processed; [by rewrite enumerate1_snd| |done].
    by eapply list_elem_of_lookup_2, enumerate1_lookup.
  - cbn [title new_metadata].
    apply (extract_numeric_title base (Z.of_nat (length ids)) (Z.of_nat (S k)));
      [done|done|lia].
Qed.

(** ** Roman numerals *)

Lemma upper_cp_idem c : upper_cp (upper_cp c) = upper_cp c.
Proof.
  unfold upper_cp.
  destruct (N.leb_spec 97 c), (N.leb_spec c 122); cbn [andb];
    try (destruct (N.eqb_spec c 305));
    repeat match goal with
           | |- context [(?a <=? ?b)%N] => destruct (N.leb_spec a b)
           | |- context [(?a =? ?b)%N] => destruct (N.eqb_spec a b)
           end; cbn [andb]; lia.
Qed.

Lemma roman_char_facts c :
  upper_cp c ∈ roman_letters ->
  isspace c = false /\ isdigit_cp c = false
  /\ Re.in_charset false (Re.chars roman_letters) (upper_cp c) = true.
Proof.
  intros Hu. split; [|split].
  - assert (c ∈ utf8 "IVXLCDMivxlcdm" ++ [305%N]) as Hin.
    { revert Hu. unfold upper_cp. change roman_letters with [73; 86; 88; 76; 67; 68; 77]%N.
      change (utf8 "IVXLCDMivxlcdm")
        with [73; 86; 88; 76; 67; 68; 77; 105; 118; 120; 108; 99; 100; 109]%N.
      rewrite !elem_of_cons, elem_of_nil. cbn [app]. rewrite !elem_of_cons, elem_of_nil.
      destruct (N.leb_spec 97 c), (N.leb_spec c 122); cbn [andb];
        try (destruct (N.eqb_spec c 305)); lia. }
    assert (forallb (fun c => negb (isspace c)) (utf8 "IVXLCDMivxlcdm" ++ [305%N]) = true)
      as Hall by (vm_compute; reflexivity).
    rewrite forallb_forall in Hall. by apply list_elem_of_In, Hall, negb_true_iff in Hin.
  - assert (c ∈ utf8 "IVXLCDMivxlcdm" ++ [305%N]) as Hin.
    { revert Hu. unfold upper_cp. change roman_letters with [73; 86; 88; 76; 67; 68; 77]%N.
      change (utf8 "IVXLCDMivxlcdm")
        with [73; 86; 88; 76; 67; 68; 77; 105; 118; 120; 108; 99; 100; 109]%N.
      rewrite !elem_of_cons, elem_of_nil. cbn [app]. rewrite !elem_of_cons, elem_of_nil.
      destruct (N.leb_spec 97 c), (N.leb_spec c 122); cbn [andb];
        try (destruct (N.eqb_spec c 305)); lia. }
    assert (forallb (fun c => negb (isdigit_cp c)) (utf8 "IVXLCDMivxlcdm" ++ [305%N]) = true)
      as Hall by (vm_compute; reflexivity).
    rewrite forallb_forall in Hall. by apply list_elem_of_In, Hall, negb_true_iff in Hin.
  - unfold Re.in_charset, Re.chars.
    cbn [Re.cs_negated Re.cs_chars Re.cs_ranges Re.cs_cats existsb in_ranges xorb].
    by rewrite bool_decide_eq_true_2.
Qed.

(** A non-empty text of the letters I V X L C D M, in either case, is
    parsed as a Roman numeral: [parse_volume_number] returns what
    [roman_to_int] makes of it.  (The dotless i, whose upper case is I,
    counts as such a letter.) *)
Theorem parse_volume_number_roman (s : str) :
  s <> [] -> Forall (fun c => upper_cp c ∈ roman_letters) s ->
  parse_volume_number s = Val (Some (roman_to_int s)).
Proof.
  intros Hne Hs. unfold parse_volume_number. rewrite bool_decide_eq_false_2 by done.
  rewrite strip_no_space
    by (eapply Forall_impl; [exact Hs|]; intros c Hc; by apply roman_char_facts in Hc as [? _]).
  assert (isdigit s = false) as ->.
  { unfold isdigit. destruct s as [|c s']; [done|].
    apply Forall_cons in Hs as [(_ & Hd & _)%roman_char_facts _].
    apply andb_false_iff. right. cbn [forallb]. by rewrite Hd. }
  assert (Re.match_here false roman_pattern (upper s) [] = Some [upper s]) as ->.
  { unfold roman_pattern. rewrite match_here_Plus. rewrite <- (app_nil_r (upper s)) at 1.
    apply greedy_plus_run.
    - unfold upper. by intros ?%fmap_nil_inv.
    - unfold within, upper. apply Forall_fmap. eapply Forall_impl; [exact Hs|].
      intros c Hc. by apply roman_char_facts in Hc as (_ & _ & ?).
    - done.
    - by rewrite match_here_Eos. }
  cbn [lookup list_lookup default from_option]. do 2 f_equal.
  unfold roman_to_int, id. do 3 f_equal. unfold upper. rewrite <- list_fmap_compose.
  apply list_fmap_ext. intros _ c _. apply upper_cp_idem.
Qed.

Lemma parse_volume_number_roman_witness :
  (utf8 "xiv" <> [] /\ Forall (fun c => upper_cp c ∈ roman_letters) (utf8 "xiv"))
  /\ parse_volume_number (utf8 "xiv") = Val (Some (roman_to_int (utf8 "xiv")))
  /\ roman_to_int (utf8 "xiv") = 14%Z.
Proof.
  assert (utf8 "xiv" <> []) as Hne by (vm_compute; discriminate).
  assert (Forall (fun c => upper_cp c ∈ roman_letters) (utf8 "xiv")) as Hs.
  { repeat constructor; apply (bool_decide_unpack _); vm_compute; exact I. }
  split; [by split|]. split; [|vm_compute; reflexivity].
  exact (parse_volume_number_roman (utf8 "xiv") Hne Hs).
Defined.

(** ** The sample shelf *)

Example init_shelf :
  __init__ elements elements shelf [1; 2; 3]%Z
  = Val (Ready shelf_dialog (utf8 "Saga") []).
Proof. vm_compute. reflexivity. Qed.

Example move_down_without_row_shelf :
  match move_book_down (-1) shelf_dialog with
  | Val (d, row) => valid_book_ids d = [3; 1; 2]%Z /\ row = 0%Z
  | Exn => False
  end.
Proof. vm_compute. by split. Qed.

Lemma swap_book_items_aligned_witness :
  (aligned shelf_dialog
   /\ (- Z.of_nat (length (books shelf_dialog)) <= 0
       < Z.of_nat (length (books shelf_dialog)))%Z
   /\ (- Z.of_nat (length (books shelf_dialog)) <= -1
       < Z.of_nat (length (books shelf_dialog)))%Z)
  /\ exists d',
       swap_book_items shelf_dialog 0 (-1) = Val d'
       /\ aligned d'
       /\ valid_book_ids d' ≡ₚ valid_book_ids shelf_dialog
       /\ books_dict d' = books_dict shelf_dialog
       /\ book_id_to_title d' = book_id_to_title shelf_dialog
       /\ swap_book_items d' 0 (-1) = Val shelf_dialog.
Proof.
  assert (aligned shelf_dialog) as Hal.
  { split; [reflexivity|].
    split; repeat (constructor; [vm_compute; reflexivity|]); constructor. }
  assert (- Z.of_nat (length (books shelf_dialog)) <= 0
          < Z.of_nat (length (books shelf_dialog)))%Z as H1 by (simpl; lia).
  assert (- Z.of_nat (length (books shelf_dialog)) <= -1
          < Z.of_nat (length (books shelf_dialog)))%Z as H2 by (simpl; lia).
  split; [exact (conj Hal (conj H1 H2))|].
  exact (swap_book_items_aligned shelf_dialog 0 (-1) Hal H1 H2).
Defined.

Lemma move_book_up_and_down_witness :
  (aligned shelf_dialog /\ (0 < 2 < Z.of_nat (length (books shelf_dialog)))%Z)
  /\ exists d',
       move_book_up 2 shelf_dialog = Val (d', (2 - 1)%Z)
       /\ move_book_down (2 - 1) shelf_dialog = Val (d', 2%Z)
       /\ aligned d' /\ valid_book_ids d' ≡ₚ valid_book_ids shelf_dialog
       /\ move_book_down (2 - 1) d' = Val (shelf_dialog, 2%Z)
       /\ move_book_up 2 d' = Val (shelf_dialog, (2 - 1)%Z).
Proof.
  assert (aligned shelf_dialog) as Hal.
  { split; [reflexivity|].
    split; repeat (constructor; [vm_compute; reflexivity|]); constructor. }
  assert (0 < 2 < Z.of_nat (length (books shelf_dialog)))%Z as Hrow by (simpl; lia).
  split; [exact (conj Hal Hrow)|].
  exact (move_book_up_and_down shelf_dialog 2 Hal Hrow).
Defined.

Lemma move_book_down_without_row_witness :
  (aligned shelf_dialog /\ valid_book_ids shelf_dialog = 2%Z :: [1%Z] ++ [3%Z])
  /\ exists d',
       move_book_down (-1) shelf_dialog = Val (d', 0%Z)
       /\ valid_book_ids d' = 3%Z :: [1%Z] ++ [2%Z]
       /\ aligned d'.
Proof.
  assert (aligned shelf_dialog) as Hal.
  { split; [reflexivity|].
    split; repeat (constructor; [vm_compute; reflexivity|]); constructor. }
  assert (valid_book_ids shelf_dialog = 2%Z :: [1%Z] ++ [3%Z]) as Hids by reflexivity.
  split; [exact (conj Hal Hids)|].
  exact (move_book_down_without_row shelf_dialog 2 3 [1%Z] Hal Hids).
Defined.

Lemma batch_update_builds_from_own_record_witness :
  let ids := [2; 1; 3]%Z in
  let mi := blank_book (utf8 "Saga 2") in
  (NoDup ids /\ ids !! 1%nat = Some 1%Z /\ shelf !! 1%Z = Some (Some mi))
  /\ exists mi',
       (batch_update_metadata (utf8 "Saga ") (utf8 " A ") true true true (utf8 "number")
          shelf ids).1 !! 1%Z = Some (Some mi')
       /\ title mi' = update_title (utf8 "Saga ") (utf8 "number")
                        (Z.of_nat (length ids)) (Z.of_nat 2)
       /\ authors mi'
          = (if bool_decide (strip (utf8 " A ") = []) then authors mi
             else [strip (utf8 " A ")])
       /\ sort_authors mi'
          = (if bool_decide (strip (utf8 " A ") = []) then sort_authors mi
             else [strip (utf8 " A ")])
       /\ sort_title mi'
          = (if truthy (sort_title mi) then sort_title mi else PText (title mi'))
       /\ comments mi' = comments mi
       /\ (identifiers mi', languages mi', pubdate mi',
           timestamp mi', last_modified mi', rating mi')
          = (identifiers mi, languages mi, pubdate mi,
             timestamp mi, last_modified mi, rating mi).
Proof.
  intros ids mi.
  assert (NoDup ids) as Hnd by (apply (bool_decide_unpack _); vm_compute; exact I).
  assert (ids !! 1%nat = Some 1%Z) as Hk by reflexivity.
  assert (shelf !! 1%Z = Some (Some mi)) as Hdb by (vm_compute; reflexivity).
  split; [exact (conj Hnd (conj Hk Hdb))|].
  exact (batch_update_builds_from_own_record (utf8 "Saga ") (utf8 " A ") true true true
           (utf8 "number") shelf ids 1 1%Z mi Hnd Hk Hdb).
Defined.

Lemma batch_update_titles_distinct_witness :
  let ids := [2; 1; 3]%Z in
  (NoDup ids /\ all_present shelf ids)
  /\ NoDup (stored_title
              (batch_update_metadata (utf8 "Saga ") [] true true true (utf8 "number")
                 shelf ids).1 <$> ids).
Proof.
  intros ids.
  assert (NoDup ids) as Hnd by (apply (bool_decide_unpack _); vm_compute; exact I).
  assert (all_present shelf ids) as Hall.
  { repeat constructor; eexists; vm_compute; reflexivity. }
  split; [exact (conj Hnd Hall)|].
  exact (batch_update_titles_distinct (utf8 "Saga ") [] true true true (utf8 "number")
           shelf ids Hnd Hall).
Defined.

Lemma preview_changes_shows_what_accept_writes_witness :
  (NoDup (valid_book_ids shelf_dialog) /\ all_present shelf (valid_book_ids shelf_dialog)
   /\ extractable shelf (valid_book_ids shelf_dialog)
   /\ length (valid_book_ids shelf_dialog) = length (books shelf_dialog)
   /\ (length (valid_book_ids shelf_dialog) < 1000)%nat
   /\ strip (title_edit filled_form) <> []
   /\ (strip (author_combo filled_form) <> []
       \/ continue_without_author filled_form = true))
  /\ exists previews db',
       preview_changes shelf shelf_dialog filled_form = Previews previews
       /\ accept shelf shelf_dialog filled_form
          = Updated db' (Z.of_nat (length (valid_book_ids shelf_dialog)))
       /\ pv_book_id <$> previews = valid_book_ids shelf_dialog
       /\ Forall (fun p => stored_title db' (pv_book_id p) = Some (pv_new_title p))
                 previews.
Proof.
  assert (NoDup (valid_book_ids shelf_dialog)) as Hnd
    by (apply (bool_decide_unpack _); vm_compute; exact I).
  assert (all_present shelf (valid_book_ids shelf_dialog)) as Hall.
  { repeat constructor; eexists; vm_compute; reflexivity. }
  assert (extractable shelf (valid_book_ids shelf_dialog)) as Hex.
  { repeat constructor; intros mi Hmi; vm_compute in Hmi;
      injection Hmi as <-; vm_compute; discriminate. }
  assert (length (valid_book_ids shelf_dialog) = length (books shelf_dialog)) as Hlen
    by reflexivity.
  assert (length (valid_book_ids shelf_dialog) < 1000)%nat as Hlt by (simpl; lia).
  assert (strip (title_edit filled_form) <> []) as Htitle by (vm_compute; discriminate).
  assert (strip (author_combo filled_form) <> []
          \/ continue_without_author filled_form = true) as Hauthor
    by (left; vm_compute; discriminate).
  split; [exact (conj Hnd (conj Hall (conj Hex (conj Hlen (conj Hlt
                   (conj Htitle Hauthor))))))|].
  exact (preview_changes_shows_what_accept_writes shelf shelf_dialog filled_form
           Hnd Hall Hex Hlen Hlt Htitle Hauthor).
Defined.

Lemma numeric_title_round_trip_witness :
  ((31532%N ∉ utf8 "海贼王") /\ plain_end (utf8 "海贼王") /\ (0 <= 7 < 10000)%Z)
  /\ extract_volume_with_context (update_title (utf8 "海贼王") (utf8 "number") 12 7)
     = Val (rstrip_chars (utf8 " -_·・") (utf8 "海贼王"), Some 7%Z).
Proof.
  assert (31532%N ∉ utf8 "海贼王") as Hbase.
  { apply (bool_decide_unpack _). vm_compute. exact I. }
  assert (plain_end (utf8 "海贼王")) as Hplain.
  { intros z Hz. vm_compute in Hz. injection Hz as <-.
    split; [unfold candidate_char; vm_compute; discriminate|vm_compute; reflexivity]. }
  assert (0 <= 7 < 10000)%Z as Hi by lia.
  split; [exact (conj Hbase (conj Hplain Hi))|].
  exact (numeric_title_round_trip (utf8 "海贼王") 12 7 Hbase Hplain Hi).
Defined.

Lemma format_volume_read_back_witness :
  ((31532%N ∉ utf8 "海贼王") /\ plain_end (utf8 "海贼王") /\ (0 <= 7 < 10000)%Z)
  /\ extract_volume_with_context (utf8 "海贼王" ++ format_volume 7 (utf8 "number"))
     = Val (rstrip_chars (utf8 " -_·・") (utf8 "海贼王"), Some 7%Z).
Proof.
  assert (31532%N ∉ utf8 "海贼王") as Hbase.
  { apply (bool_decide_unpack _). vm_compute. exact I. }
  assert (plain_end (utf8 "海贼王")) as Hplain.
  { intros z Hz. vm_compute in Hz. injection Hz as <-.
    split; [unfold candidate_char; vm_compute; discriminate|vm_compute; reflexivity]. }
  assert (0 <= 7 < 10000)%Z as Hv by lia.
  split; [exact (conj Hbase (conj Hplain Hv))|].
  exact (format_volume_read_back (utf8 "海贼王") 7 (utf8 "number") Hbase Hplain Hv).
Defined.

Lemma sort_after_numeric_rename_witness :
  let ids := [2; 1; 3]%Z in
  (NoDup ids /\ all_present shelf ids /\ (Z.of_nat (length ids) < 10000)%Z
   /\ (31532%N ∉ utf8 "海贼王") /\ plain_end (utf8 "海贼王"))
  /\ detect_and_sort_books_by_volume
       (batch_update_metadata (utf8 "海贼王") [] true true true (utf8 "number")
          shelf ids).1 ids
     = zip ids (indexes (length ids)).
Proof.
  intros ids.
  assert (NoDup ids) as Hnd by (apply (bool_decide_unpack _); vm_compute; exact I).
  assert (all_present shelf ids) as Hall.
  { repeat constructor; eexists; vm_compute; reflexivity. }
  assert (Z.of_nat (length ids) < 10000)%Z as Hlen by (simpl; lia).
  assert (31532%N ∉ utf8 "海贼王") as Hbase.
  { apply (bool_decide_unpack _). vm_compute. exact I. }
  assert (plain_end (utf8 "海贼王")) as Hplain.
  { intros z Hz. vm_compute in Hz. injection Hz as <-.
    split; [unfold candidate_char; vm_compute; discriminate|vm_compute; reflexivity]. }
  split; [exact (conj Hnd (conj Hall (conj Hlen (conj Hbase Hplain))))|].
  exact (sort_after_numeric_rename (utf8 "海贼王") [] true true true shelf ids
           Hnd Hall Hlen Hbase Hplain).
Defined.
